(** * ScratchABit engine: address space, analysis driver and rendering model

    A shallow embedding of [engine.py].  Python integers are [Z], a
    [bytearray] is a [list Z] of values in [0, 256), exceptions are values of
    [exn], and every method of the global [ADDRESS_SPACE] object is a
    computation in a state-and-exception monad over the record
    [AddressSpace]. *)

From Stdlib Require Import ZArith Lia Bool Ascii String.
From Stdlib Require Import HexadecimalString DecimalString.
From Stdlib Require Import HexadecimalN HexadecimalZ DecimalZ.
From stdpp Require Import base option list gmap strings fin_maps sorting.

Local Open Scope Z_scope.

(** ** Exceptions and the state monad *)

Inductive exn :=
| InvalidAddrException (addr : Z)
| TypeError
| IndexError
| ValueError
| KeyError
| AssertionError
| OutOfFuel.

Inductive result (A : Type) :=
| Ok (a : A)
| Raise (e : exn).
Arguments Ok {A} a.
Arguments Raise {A} e.

(** [OutOfFuel] is not a Python exception: it marks a loop of the model that
    was given too little fuel, and no [except] clause catches it.

    A computation reads and writes a store [S]; an exception leaves the store
    as it was when it was raised. *)
Definition M (S A : Type) : Type := S -> result A * S.

Definition ret {S A} (a : A) : M S A := fun s => (Ok a, s).
Definition raise {S A} (e : exn) : M S A := fun s => (Raise e, s).
Definition bind {S A B} (m : M S A) (k : A -> M S B) : M S B :=
  fun s => match m s with
           | (Ok a, s') => k a s'
           | (Raise e, s') => (Raise e, s')
           end.
Definition lift {S A} (r : result A) : M S A := fun s => (r, s).
Definition get {S} : M S S := fun s => (Ok s, s).
Definition modify {S} (f : S -> S) : M S unit := fun s => (Ok tt, f s).

#[global] Instance M_ret {S} : MRet (M S) := fun _ a => ret a.
#[global] Instance M_bind {S} : MBind (M S) := fun _ _ k m => bind m k.

(** ** Python sequences *)

(** [l[i]] with Python's negative indices. *)
Definition py_index {A} (l : list A) (i : Z) : result A :=
  let n := Z.of_nat (length l) in
  let j := if i <? 0 then i + n else i in
  if j <? 0 then Raise IndexError
  else match l !! Z.to_nat j with
       | Some x => Ok x
       | None => Raise IndexError
       end.

(** [b[i] = v] on a bytearray: the value must be a byte. *)
Definition py_setitem (l : list Z) (i : Z) (v : Z) : result (list Z) :=
  let n := Z.of_nat (length l) in
  let j := if i <? 0 then i + n else i in
  if (j <? 0) || (n <=? j) then Raise IndexError
  else if (v <? 0) || (256 <=? v) then Raise ValueError
  else Ok (<[Z.to_nat j := v]> l).

(** [while flags[j] == f: j += 1; sz += 1], returning the final [sz].  The
    loop ends at the first other flag or with [IndexError] past the end of
    the buffer, so [length flags - j + 1] rounds are always enough. *)
Fixpoint while_flag (n : nat) (flags : list Z) (f j sz : Z) : result Z :=
  match n with
  | O => Raise IndexError
  | S n' =>
      match py_index flags j with
      | Raise e => Raise e
      | Ok x => if x =? f then while_flag n' flags f (j + 1) (sz + 1) else Ok sz
      end
  end.

Definition scan_flags (flags : list Z) (f j sz : Z) : result Z :=
  while_flag (Z.to_nat (Z.of_nat (length flags) - j) + 1) flags f j sz.

(** ** Areas and the address space *)

Definition UNK : Z := 0.
Definition CODE : Z := 0x01.
Definition CODE_CONT : Z := 0x02.
Definition DATA : Z := 0x04.
Definition DATA_CONT : Z := 0x08.
Definition STR : Z := 0x10.

(** The tuple [(start, end, props, bytes, flags)]. *)
Record area := mk_area {
  START : Z;
  END : Z;
  PROPS : string;
  BYTES : list Z;
  FLAGS : list Z
}.

#[global] Instance area_eq_dec : EqDecision area.
Proof. solve_decision. Defined.

(** A label is stored either as the address itself (auto label) or as a
    string. *)
Inductive label :=
| LInt (n : Z)
| LStr (s : string).

#[global] Instance label_eq_dec : EqDecision label.
Proof. solve_decision. Defined.

(** The object [AddressSpace].  [area_list] owns the tuples; [last_area] is a
    reference to one of them, kept as its position in [area_list] (areas are
    only ever appended).  [labels] keeps the insertion order of the Python
    dict, which [resolve_label] iterates over; the other tables are only read
    by key or through [sorted]. *)
Record AddressSpace := mk_AS {
  area_list : list area;
  labels : list (Z * label);
  comments : gmap Z string;
  xrefs : gmap Z (gmap Z string);
  arg_props : gmap Z (gmap Z (gmap string Z));
  last_area : option nat
}.

Definition AS_init : AddressSpace :=
  mk_AS [] [] ∅ ∅ ∅ None.

Definition set_area_list (f : list area -> list area) (s : AddressSpace) :=
  mk_AS (f (area_list s)) (labels s) (comments s) (xrefs s) (arg_props s)
        (last_area s).
Definition set_last_area (i : option nat) (s : AddressSpace) :=
  mk_AS (area_list s) (labels s) (comments s) (xrefs s) (arg_props s) i.
Definition set_labels (f : list (Z * label) -> list (Z * label)) (s : AddressSpace) :=
  mk_AS (area_list s) (f (labels s)) (comments s) (xrefs s) (arg_props s)
        (last_area s).
Definition set_comments (f : gmap Z string -> gmap Z string) (s : AddressSpace) :=
  mk_AS (area_list s) (labels s) (f (comments s)) (xrefs s) (arg_props s)
        (last_area s).
Definition set_xrefs (f : gmap Z (gmap Z string) -> gmap Z (gmap Z string))
    (s : AddressSpace) :=
  mk_AS (area_list s) (labels s) (comments s) (f (xrefs s)) (arg_props s)
        (last_area s).
Definition set_arg_props
    (f : gmap Z (gmap Z (gmap string Z)) -> gmap Z (gmap Z (gmap string Z)))
    (s : AddressSpace) :=
  mk_AS (area_list s) (labels s) (comments s) (xrefs s) (f (arg_props s))
        (last_area s).

Definition set_FLAGS (fl : list Z) (a : area) : area :=
  mk_area (START a) (END a) (PROPS a) (BYTES a) fl.

(** [bytearray(sz)]: [ValueError] on a negative size. *)
Definition bytearray (sz : Z) : result (list Z) :=
  if sz <? 0 then Raise ValueError else Ok (replicate (Z.to_nat sz) 0).

Definition add_area (start end_ : Z) (props : string) : M AddressSpace nat :=
  fun s =>
    let sz := end_ - start + 1 in
    match bytearray sz with
    | Raise e => (Raise e, s)
    | Ok zeros =>
        let a := mk_area start end_ props zeros zeros in
        (Ok (length (area_list s)), set_area_list (fun l => l ++ [a]) s)
    end.

(** [a[0] <= addr <= a[1]] *)
Definition in_area (a : area) (addr : Z) : bool :=
  (START a <=? addr) && (addr <=? END a).

(** [for a in self.area_list: if a[0] <= addr <= a[1]: ...], with the
    position of [a]. *)
Fixpoint find_area (l : list area) (i : nat) (addr : Z) : option (nat * area) :=
  match l with
  | [] => None
  | a :: l' => if in_area a addr then Some (i, a) else find_area l' (S i) addr
  end.

(** [addr2area] answers [(off, area)], the area as a reference into
    [area_list], or [None] for [(None, None)]. *)
Definition addr2area (addr : Z) : M AddressSpace (option (Z * nat)) :=
  fun s =>
    let cached :=
      match last_area s with
      | Some i => match area_list s !! i with
                  | Some a => if in_area a addr then Some (addr - START a, i) else None
                  | None => None
                  end
      | None => None
      end in
    match cached with
    | Some r => (Ok (Some r), s)
    | None =>
        match find_area (area_list s) 0 addr with
        | Some (i, a) => (Ok (Some (addr - START a, i)), set_last_area (Some i) s)
        | None => (Ok None, s)
        end
    end.

(** Dereference of an area reference; [TypeError] is what subscripting
    [None] raises. *)
Definition deref (r : option (Z * nat)) : M AddressSpace (Z * nat * area) :=
  fun s =>
    match r with
    | None => (Raise TypeError, s)
    | Some (off, i) =>
        match area_list s !! i with
        | Some a => (Ok (off, i, a), s)
        | None => (Raise TypeError, s)
        end
    end.

(** Store into the flag buffer of area [i]. *)
Definition store_flag (i : nat) (off v : Z) : M AddressSpace unit :=
  fun s =>
    match area_list s !! i with
    | None => (Raise TypeError, s)
    | Some a =>
        match py_setitem (FLAGS a) off v with
        | Raise e => (Raise e, s)
        | Ok fl => (Ok tt, set_area_list (fun l => <[i := set_FLAGS fl a]> l) s)
        end
    end.

Definition load_flag (i : nat) (off : Z) : M AddressSpace Z :=
  fun s =>
    match area_list s !! i with
    | None => (Raise TypeError, s)
    | Some a => (py_index (FLAGS a) off, s)
    end.

Definition min_addr : M AddressSpace Z :=
  fun s => match area_list s with
           | a :: _ => (Ok (START a), s)
           | [] => (Raise IndexError, s)
           end.

Definition is_valid_addr (addr : Z) : M AddressSpace bool :=
  r ← addr2area addr;
  mret (match r with Some _ => true | None => false end).

Definition get_byte (addr : Z) : M AddressSpace Z :=
  r ← addr2area addr;
  match r with
  | None => raise (InvalidAddrException addr)
  | Some _ =>
      '(off, _, a) ← deref r;
      lift (py_index (BYTES a) off)
  end.

(** [b[lo:hi]]: a negative bound counts from the end, and both are clamped
    to the buffer. *)
Definition py_clamp (n i : Z) : Z :=
  if i <? 0 then Z.max (i + n) 0 else Z.min i n.

Definition py_slice {A} (l : list A) (lo hi : Z) : list A :=
  let n := Z.of_nat (length l) in
  let lo' := py_clamp n lo in
  let hi' := py_clamp n hi in
  take (Z.to_nat (hi' - lo')) (drop (Z.to_nat lo') l).

Definition get_bytes (addr sz : Z) : M AddressSpace (list Z) :=
  r ← addr2area addr;
  match r with
  | None => raise (InvalidAddrException addr)
  | Some _ =>
      '(off, _, a) ← deref r;
      mret (py_slice (BYTES a) off (off + sz))
  end.

(** [for i in range(sz): val = val | (area[BYTES][off + i] << 8 * i)].  The
    area is subscripted inside the loop only, so nothing is raised when
    [sz <= 0]. *)
Fixpoint get_data_loop (n : nat) (r : option (Z * nat)) (i val : Z)
    : M AddressSpace Z :=
  match n with
  | O => mret val
  | S n' =>
      '(off, _, a) ← deref r;
      b ← lift (py_index (BYTES a) (off + i));
      get_data_loop n' r (i + 1) (Z.lor val (Z.shiftl b (8 * i)))
  end.

Definition get_data (addr sz : Z) : M AddressSpace Z :=
  r ← addr2area addr;
  get_data_loop (Z.to_nat sz) r 0 0.

Definition get_flags (addr : Z) : M AddressSpace Z :=
  r ← addr2area addr;
  match r with
  | None => raise (InvalidAddrException addr)
  | Some _ =>
      '(off, _, a) ← deref r;
      lift (py_index (FLAGS a) off)
  end.

Definition get_unit_size (addr : Z) : M AddressSpace Z :=
  r ← addr2area addr;
  '(off, _, a) ← deref r;
  let flags := FLAGS a in
  h ← lift (py_index flags off);
  if h =? CODE then lift (scan_flags flags CODE_CONT (off + 1) 1)
  else if (h =? DATA) || (h =? STR) then lift (scan_flags flags DATA_CONT (off + 1) 1)
  else mret 1.

(** [adjust_offset_reverse]: [off] only decreases and stops at 0. *)
Fixpoint adjust_offset_reverse_loop (n : nat) (flags : list Z) (off : Z)
    : result Z :=
  match n with
  | O => Ok off
  | S n' =>
      if 0 <? off then
        match py_index flags off with
        | Raise e => Raise e
        | Ok f =>
            if (f =? CODE_CONT) || (f =? DATA_CONT)
            then adjust_offset_reverse_loop n' flags (off - 1)
            else Ok off
        end
      else Ok off
  end.

Definition adjust_offset_reverse (off : Z) (a : area) : result Z :=
  adjust_offset_reverse_loop (Z.to_nat off) (FLAGS a) off.

(** [for i in range(sz - 1): flags[off + i] = rest_fl] *)
Fixpoint set_flags_loop (n : nat) (ai : nat) (off i rest_fl : Z)
    : M AddressSpace unit :=
  match n with
  | O => mret tt
  | S n' =>
      store_flag ai (off + i) rest_fl;;
      set_flags_loop n' ai off (i + 1) rest_fl
  end.

Definition set_flags (addr sz head_fl rest_fl : Z) : M AddressSpace unit :=
  r ← addr2area addr;
  '(off, ai, _) ← deref r;
  store_flag ai off head_fl;;
  set_flags_loop (Z.to_nat (sz - 1)) ai (off + 1) 0 rest_fl.

Definition make_undefined (addr sz : Z) : M AddressSpace unit :=
  set_flags addr sz UNK UNK.

(** [flags[off] |= fl] *)
Definition or_flag (ai : nat) (off fl : Z) : M AddressSpace unit :=
  f ← load_flag ai off;
  store_flag ai off (Z.lor f fl).

(** [for i in range(sz - 1): area_byte_flags[off + 1 + i] |= fl] *)
Fixpoint or_flags_loop (n : nat) (ai : nat) (off i fl : Z) : M AddressSpace unit :=
  match n with
  | O => mret tt
  | S n' =>
      or_flag ai (off + 1 + i) fl;;
      or_flags_loop n' ai off (i + 1) fl
  end.

Definition make_code (addr sz : Z) : M AddressSpace unit :=
  r ← addr2area addr;
  '(off, ai, _) ← deref r;
  or_flag ai off CODE;;
  or_flags_loop (Z.to_nat (sz - 1)) ai off 0 CODE_CONT.

Definition make_data (addr sz : Z) : M AddressSpace unit :=
  r ← addr2area addr;
  '(off, ai, _) ← deref r;
  or_flag ai off DATA;;
  or_flags_loop (Z.to_nat (sz - 1)) ai off 0 DATA_CONT.

(** ** String formatting *)

Local Open Scope string_scope.

(** The digits of [n >= 0] in lower-case hexadecimal. *)
Definition hex_digits (n : Z) : string :=
  HexadecimalString.NilZero.string_of_uint (N.to_hex_uint (Z.to_N n)).

Definition zfill (w : nat) (s : string) : string :=
  String.concat "" (replicate (w - String.length s) "0") +:+ s.

(** ["%x" % n] and ["%08x" % n]; the sign counts in the width. *)
Definition fmt_x (n : Z) : string :=
  if (n <? 0)%Z then "-" +:+ hex_digits (- n) else hex_digits n.

Definition fmt_08x (n : Z) : string :=
  if (n <? 0)%Z then "-" +:+ zfill 7 (hex_digits (- n)) else zfill 8 (hex_digits n).

(** ** Python dicts that keep their insertion order *)

Fixpoint dict_get {V} (k : Z) (d : list (Z * V)) : option V :=
  match d with
  | [] => None
  | (k', v) :: d' => if (k' =? k)%Z then Some v else dict_get k d'
  end.

(** [d[k] = v]: an existing key keeps its place. *)
Fixpoint dict_set {V} (k : Z) (v : V) (d : list (Z * V)) : list (Z * V) :=
  match d with
  | [] => [(k, v)]
  | (k', v') :: d' =>
      if (k' =? k)%Z then (k, v) :: d' else (k', v') :: dict_set k v d'
  end.

(** ** Labels *)

(** The branches of [get_default_label_prefix] on the flag byte. *)
Definition prefix_of_flags (fl : Z) : string :=
  if (fl =? CODE)%Z then "loc_"
  else if negb (Z.land fl DATA =? 0)%Z then "dat_"
  else "unk_".

Definition get_default_label_prefix (ea : Z) : M AddressSpace string :=
  fl ← get_flags ea;
  mret (prefix_of_flags fl).

Definition get_default_label (ea : Z) : M AddressSpace string :=
  prefix ← get_default_label_prefix ea;
  mret (prefix +:+ fmt_08x ea).

Definition make_label (prefix : string) (ea : Z) : M AddressSpace unit :=
  s ← get;
  match dict_get ea (labels s) with
  | Some _ => mret tt
  | None =>
      prefix ← (if String.eqb prefix "" then get_default_label_prefix ea
                else mret prefix);
      modify (set_labels (dict_set ea (LStr (prefix +:+ fmt_08x ea))))
  end.

Definition make_auto_label (ea : Z) : M AddressSpace unit :=
  s ← get;
  match dict_get ea (labels s) with
  | Some _ => mret tt
  | None => modify (set_labels (dict_set ea (LInt ea)))
  end.

Definition get_label (ea : Z) : M AddressSpace (option string) :=
  s ← get;
  match dict_get ea (labels s) with
  | Some (LInt l) =>
      prefix ← get_default_label_prefix ea;
      mret (Some (prefix +:+ fmt_08x l))
  | Some (LStr l) => mret (Some l)
  | None => mret None
  end.

Definition set_label (ea : Z) (l : string) : M AddressSpace unit :=
  modify (set_labels (dict_set ea (LStr l))).

(** [for ea, l in self.labels.items(): ...] *)
Fixpoint resolve_label_loop (items : list (Z * label)) (l : string)
    : M AddressSpace (option Z) :=
  match items with
  | [] => mret None
  | (ea, LStr l') :: items' =>
      if String.eqb l' l then mret (Some ea) else resolve_label_loop items' l
  | (ea, LInt n) :: items' =>
      d ← get_default_label n;
      if String.eqb d l then mret (Some ea) else resolve_label_loop items' l
  end.

Definition resolve_label (l : string) : M AddressSpace (option Z) :=
  s ← get;
  resolve_label_loop (labels s) l.

(** ** Comments, operand properties and cross-references *)

Definition get_comment (ea : Z) : M AddressSpace (option string) :=
  s ← get; mret (comments s !! ea).

Definition set_comment (ea : Z) (comm : string) : M AddressSpace unit :=
  modify (set_comments (fun c => <[ea := comm]> c)).

Definition set_arg_prop (ea arg_no : Z) (prop : string) (prop_val : Z)
    : M AddressSpace unit :=
  modify (set_arg_props (fun t =>
    let args := default ∅ (t !! ea) in
    let props := default ∅ (args !! arg_no) in
    <[ea := <[arg_no := <[prop := prop_val]> props]> args]> t)).

Definition get_arg_prop (ea arg_no : Z) (prop : string)
    : M AddressSpace (option Z) :=
  s ← get;
  mret (default ∅ (default ∅ (arg_props s !! ea) !! arg_no) !! prop).

Definition add_xref (from_ea to_ea : Z) (type : string) : M AddressSpace unit :=
  modify (set_xrefs (fun x =>
    <[to_ea := <[from_ea := type]> (default ∅ (x !! to_ea))]> x)).

Definition del_xref (from_ea to_ea : Z) (type : string) : M AddressSpace unit :=
  s ← get;
  match xrefs s !! to_ea with
  | None => mret tt
  | Some srcs =>
      match srcs !! from_ea with
      | None => raise KeyError
      | Some t =>
          if String.eqb t type
          then modify (set_xrefs (fun x => <[to_ea := delete from_ea srcs]> x))
          else raise AssertionError
      end
  end.

Definition get_xrefs (ea : Z) : M AddressSpace (option (gmap Z string)) :=
  s ← get; mret (xrefs s !! ea).

(** ** Reference definitions for address resolution *)

(** A scan of [area_list] in order, with no cache: the first area that
    holds [addr], and the offset of [addr] in it. *)
Fixpoint linear_scan (l : list area) (addr : Z) : option (Z * area) :=
  match l with
  | [] => None
  | a :: l' =>
      if in_area a addr then Some ((addr - START a)%Z, a) else linear_scan l' addr
  end.

(** What [addr2area] answered, with the area reference followed. *)
Definition resolved (s : AddressSpace) (r : option (Z * nat)) : option (Z * area) :=
  match r with
  | Some (off, i) => match area_list s !! i with
                     | Some a => Some (off, a)
                     | None => None
                     end
  | None => None
  end.

(** No address lies in two areas of the list. *)
Definition non_overlapping (l : list area) : Prop :=
  forall i j a b addr,
    l !! i = Some a -> l !! j = Some b ->
    in_area a addr = true -> in_area b addr = true -> i = j.

(** Both buffers of an area span [START .. END]. *)
Definition wf_area (a : area) : Prop :=
  Z.of_nat (length (BYTES a)) = (END a - START a + 1)%Z /\
  Z.of_nat (length (FLAGS a)) = (END a - START a + 1)%Z.

(** Two stores that differ at most in the cached area. *)
Definition same_but_cache (s s' : AddressSpace) : Prop :=
  area_list s' = area_list s /\ labels s' = labels s /\
  comments s' = comments s /\ xrefs s' = xrefs s /\
  arg_props s' = arg_props s.

(** ** Frames of the flag writers *)

(** [s'] is [s] except for the flag bytes at offsets [lo <= k < hi] of the
    area at position [ai] (and, possibly, the cached area). *)
Definition flags_changed_within (ai : nat) (lo hi : Z) (s s' : AddressSpace)
    : Prop :=
  labels s' = labels s /\ comments s' = comments s /\ xrefs s' = xrefs s /\
  arg_props s' = arg_props s /\
  length (area_list s') = length (area_list s) /\
  forall j a, area_list s !! j = Some a ->
    exists a', area_list s' !! j = Some a' /\
      START a' = START a /\ END a' = END a /\ PROPS a' = PROPS a /\
      BYTES a' = BYTES a /\ length (FLAGS a') = length (FLAGS a) /\
      (j <> ai -> FLAGS a' = FLAGS a) /\
      (forall k : nat, (Z.of_nat k < lo \/ hi <= Z.of_nat k)%Z ->
                       FLAGS a' !! k = FLAGS a !! k).

(** The fresh address space with the single area [0, 3] of the rendering
    scenario. *)
Definition AS_0_3 : AddressSpace := (add_area 0 3 "" AS_init).2.

(** The address space with the single area [0, 4]. *)
Definition AS_0_4 : AddressSpace := (add_area 0 4 "" AS_init).2.

(** The little-endian value of a byte sequence. *)
Fixpoint le_value (bs : list Z) : Z :=
  match bs with
  | [] => 0
  | b :: bs' => b + 256 * le_value bs'
  end%Z.

(** Two areas, [0, 3] and [0x10, 0x13], with the first one cached. *)
Definition AS_two_areas : AddressSpace :=
  set_last_area (Some 0%nat) ((add_area 0 3 "";; add_area 16 19 "") AS_init).2.

(** ** Reference definitions for labels *)

(** The flag byte of [addr], read with a cache-free scan. *)
Definition flags_at (l : list area) (addr : Z) : option Z :=
  match linear_scan l addr with
  | Some (off, a) => FLAGS a !! Z.to_nat off
  | None => None
  end.

(** The string a label entry stands for: the stored string, or the default
    label of the stored address. *)
Definition label_text (l : list area) (e : Z * label) : option string :=
  match e.2 with
  | LStr x => Some x
  | LInt n => (fun fl => prefix_of_flags fl +:+ fmt_08x n) <$> flags_at l n
  end.

(** Every auto marker is stored under its own address, which is valid. *)
Definition auto_labels_ok (s : AddressSpace) : Prop :=
  forall ea n, (ea, LInt n) ∈ labels s ->
               n = ea /\ is_Some (flags_at (area_list s) n).

(** No two entries of the label table stand for the same string. *)
Definition label_texts_unique (s : AddressSpace) : Prop :=
  forall i j e1 e2 t,
    labels s !! i = Some e1 -> labels s !! j = Some e2 ->
    label_text (area_list s) e1 = Some t ->
    label_text (area_list s) e2 = Some t -> i = j.

(** The area [0, 3] with an auto label at 1 and the user label ["foo"] at 2. *)
Definition AS_labels : AddressSpace :=
  ((make_auto_label 1;; set_label 2 "foo") AS_0_3).2.

(** The same area with ["foo"] given to both 1 and 2 by [set_label]. *)
Definition AS_dup_labels : AddressSpace :=
  ((set_label 1 "foo";; set_label 2 "foo") AS_0_3).2.

(** [resolve_label(get_label(a))]; [resolve_label(None)] finds nothing. *)
Definition resolve_get_label (a : Z) : M AddressSpace (option Z) :=
  t ← get_label a;
  match t with
  | Some t => resolve_label t
  | None => mret None
  end.

(** ** The processor plugin *)

(** [_processor], reduced to what the engine calls.  [ana ea] decodes the
    instruction at [cmd.ea = ea] and answers its size (0: not an
    instruction); it reads the address space and may raise
    [InvalidAddrException].  [emu ea size] works on the address space and on
    [analisys_stack], where it pushes the successors.  [out ea size] answers
    the text left in [cmd.disasm]. *)
Record processor := mk_processor {
  ana : Z -> M AddressSpace Z;
  emu : Z -> Z -> M (AddressSpace * list Z) bool;
  out : Z -> Z -> M AddressSpace string
}.

(** ** Display objects and the rendering model *)

Inductive DisasmObj :=
| Instruction (ea size : Z) (disasm : string)
| Data (ea sz val : Z)
| String_ (ea sz : Z) (val : string)
| Unknown (ea val : Z)
| Label (ea : Z)
| Xref (ea from_addr : Z) (type : string)
| Literal (ea : Z) (str : string).

Definition obj_ea (o : DisasmObj) : Z :=
  match o with
  | Instruction ea _ _ | Data ea _ _ | String_ ea _ _ | Unknown ea _
  | Label ea | Xref ea _ _ | Literal ea _ => ea
  end.

(** The class attribute [virtual]. *)
Definition virtual (o : DisasmObj) : bool :=
  match o with
  | Instruction _ _ _ | Data _ _ _ | String_ _ _ _ | Unknown _ _ => false
  | Label _ | Xref _ _ _ | Literal _ _ => true
  end.

(** A line is an object together with the [subno] that [add_line] gave it. *)
Record Model := mk_Model {
  _lines : list (DisasmObj * Z);
  _cnt : Z;
  _subcnt : Z;
  _last_addr : Z;
  _addr2line : gmap (Z * Z) Z;
  target_addr : Z;
  target_subno : Z;
  target_addr_lineno_0 : Z;
  target_addr_lineno : Z;
  target_addr_lineno_real : Z
}.

Definition Model_init (target_addr target_subno : Z) : Model :=
  mk_Model [] 0 0 (-1) ∅ target_addr target_subno (-1) (-1) (-1).

Definition add_line (addr : Z) (line : DisasmObj) (m : Model) : Model :=
  let subcnt := if (addr =? _last_addr m)%Z then _subcnt m else 0%Z in
  let at_target := (addr =? target_addr m)%Z in
  let lineno_0 :=
    if at_target && (subcnt =? 0)%Z then _cnt m else target_addr_lineno_0 m in
  let lineno :=
    if at_target && (subcnt =? target_subno m)%Z then _cnt m
    else target_addr_lineno m in
  let lineno_real :=
    if at_target && negb (virtual line) then _cnt m
    else target_addr_lineno_real m in
  let a2l := <[(addr, subcnt) := _cnt m]> (_addr2line m) in
  let a2l := if virtual line then a2l else <[(addr, (-1)%Z) := _cnt m]> a2l in
  mk_Model (_lines m ++ [(line, subcnt)]) (_cnt m + 1) (subcnt + 1) addr a2l
           (target_addr m) (target_subno m) lineno_0 lineno lineno_real.

Definition addr2line_no (addr : Z) (m : Model) : option Z :=
  _addr2line m !! (addr, (-1)%Z).

(** The renderer works on the address space and on the model it fills. *)
Record RS := mk_RS {
  rs_as : AddressSpace;
  rs_model : Model
}.

Definition on_AS {A} (c : M AddressSpace A) : M RS A :=
  fun rs => let (r, s') := c (rs_as rs) in (r, mk_RS s' (rs_model rs)).

Definition emit (addr : Z) (line : DisasmObj) : M RS unit :=
  fun rs => (Ok tt, mk_RS (rs_as rs) (add_line addr line (rs_model rs))).

(** [sorted(d.keys())] *)
Definition sorted_keys {V} (d : gmap Z V) : list Z :=
  merge_sort Z.le (map fst (map_to_list d)).

(** [for from_addr in sorted(xrefs.keys()): model.add_line(...)] *)
Fixpoint emit_xrefs (addr : Z) (xr : gmap Z string) (keys : list Z) : M RS unit :=
  match keys with
  | [] => mret tt
  | from_addr :: keys' =>
      match xr !! from_addr with
      | Some t => emit addr (Xref addr from_addr t)
      | None => raise KeyError
      end;;
      emit_xrefs addr xr keys'
  end.

Definition load_byte (i : nat) (off : Z) : M AddressSpace Z :=
  fun s =>
    match area_list s !! i with
    | None => (Raise TypeError, s)
    | Some a => (py_index (BYTES a) off, s)
    end.

(** [chr(b)] for a byte. *)
Definition chr (b : Z) : string :=
  String (ascii_of_N (Z.to_N b)) EmptyString.

(** [while flags[j] == DATA_CONT: str += chr(bytes[j]); sz += 1; j += 1] *)
Fixpoint while_str (n : nat) (flags bytes : list Z) (j sz : Z) (str : string)
    : result (Z * string) :=
  match n with
  | O => Raise IndexError
  | S n' =>
      match py_index flags j with
      | Raise e => Raise e
      | Ok x =>
          if (x =? DATA_CONT)%Z then
            match py_index bytes j with
            | Raise e => Raise e
            | Ok b => while_str n' flags bytes (j + 1) (sz + 1) (str +:+ chr b)
            end
          else Ok (sz, str)
      end
  end.

Definition scan_str (flags bytes : list Z) (j sz : Z) (str : string)
    : result (Z * string) :=
  while_str (Z.to_nat (Z.of_nat (length flags) - j) + 1) flags bytes j sz str.

(** The position [l[i]] names, with Python's negative indices. *)
Definition py_position (n : nat) (i : Z) : result nat :=
  let j := if (i <? 0)%Z then (i + Z.of_nat n)%Z else i in
  if (j <? 0)%Z || (Z.of_nat n <=? j)%Z then Raise IndexError
  else Ok (Z.to_nat j).

(** The area tuple [a] and its buffers, as the loop of [render_partial]
    holds them. *)
Definition the_area (ai : nat) : M AddressSpace area :=
  fun s => match area_list s !! ai with
           | Some a => (Ok a, s)
           | None => (Raise IndexError, s)
           end.

(** One round of the inner loop of [render_partial], up to and including
    [model.add_line(addr, out)]: the new [i] and the budget after
    [num_lines -= 1]. *)
Definition render_unit (p : processor) (ai : nat) (i num_lines target_addr : Z)
    : M RS (Z * Z) :=
  a ← on_AS (the_area ai);
  let addr := (START a + i)%Z in
  let num_lines :=
    if (0 <=? target_addr)%Z && (addr <? target_addr)%Z
    then (num_lines + 1)%Z else num_lines in
  xr ← on_AS (get_xrefs addr);
  match xr with
  | Some xr => emit_xrefs addr xr (sorted_keys xr)
  | None => mret tt
  end;;
  lbl ← on_AS (get_label addr);
  match lbl with
  | Some l => if String.eqb l "" then mret tt else emit addr (Label addr)
  | None => mret tt
  end;;
  a ← on_AS (the_area ai);
  f ← lift (py_index (FLAGS a) i);
  '(o, i') ←
    (if (f =? UNK)%Z then
       b ← lift (py_index (BYTES a) i);
       mret (Unknown addr b, (i + 1)%Z)
     else if (f =? DATA)%Z then
       sz ← lift (scan_flags (FLAGS a) DATA_CONT (i + 1) 1);
       val ← on_AS (get_data addr sz);
       mret (Data addr sz val, (i + sz)%Z)
     else if (f =? STR)%Z then
       b ← lift (py_index (BYTES a) i);
       '(sz, str) ← lift (scan_str (FLAGS a) (BYTES a) (i + 1) 1 (chr b));
       mret (String_ addr sz str, (i + sz)%Z)
     else if (f =? CODE)%Z then
       insn_sz ← on_AS (ana p addr);
       disasm ← on_AS (out p addr insn_sz);
       mret (Instruction addr insn_sz disasm, (i + insn_sz)%Z)
     else raise AssertionError);
  emit addr o;;
  mret (i', (num_lines - 1)%Z).

(** [while i < len(flags): ...].  The answer is [(true, 0)] after the
    [return] on an exhausted budget, and [(false, num_lines)] at the end of
    the area. *)
Fixpoint render_units (fuel : nat) (p : processor) (ai : nat)
    (i num_lines target_addr : Z) : M RS (bool * Z) :=
  match fuel with
  | O => raise OutOfFuel
  | S fuel' =>
      a ← on_AS (the_area ai);
      if (i <? Z.of_nat (length (FLAGS a)))%Z then
        '(i', num_lines') ← render_unit p ai i num_lines target_addr;
        if (num_lines' =? 0)%Z then mret (true, 0%Z)
        else render_units fuel' p ai i' num_lines' target_addr
      else mret (false, num_lines)
  end.

(** [while area_no < len(ADDRESS_SPACE.area_list): ...] *)
Fixpoint render_areas (fuel : nat) (p : processor) (area_no : Z) (start : bool)
    (offset num_lines target_addr : Z) : M RS (bool * Z) :=
  match fuel with
  | O => raise OutOfFuel
  | S fuel' =>
      s ← on_AS get;
      if (area_no <? Z.of_nat (length (area_list s)))%Z then
        ai ← lift (py_position (length (area_list s)) area_no);
        a ← on_AS (the_area ai);
        (if start then mret tt
         else emit (START a)
                (Literal (START a) ("; Start of 0x" +:+ fmt_x (START a) +:+ " area")));;
        let i := if start then offset else 0%Z in
        bind (render_units fuel' p ai i num_lines target_addr)
          (fun '(stop, num_lines') =>
             if stop then mret (true, num_lines')
             else
               emit (END a)
                 (Literal (END a) ("; End of 0x" +:+ fmt_x (START a) +:+ " area"));;
               render_areas fuel' p (area_no + 1) false offset num_lines'
                 target_addr)
      else mret (false, num_lines)
  end.

(** [render_partial]; the answer is the local [num_lines] at the end, and
    whether the budget ended the rendering. *)
Definition render_partial (fuel : nat) (p : processor)
    (area_no offset num_lines target_addr : Z) : M RS (bool * Z) :=
  render_areas fuel p area_no true offset num_lines target_addr.

Definition render (fuel : nat) (p : processor) : M AddressSpace Model :=
  fun s =>
    let (r, rs) := render_partial fuel p 0 0 1000000 (-1)
                     (mk_RS s (Model_init 0 0)) in
    (match r with Ok _ => Ok (rs_model rs) | Raise e => Raise e end, rs_as rs).


(** [list.index(x)]: the first position holding an equal value. *)
Fixpoint list_index (x : area) (l : list area) (i : nat) : result nat :=
  match l with
  | [] => Raise ValueError
  | y :: l' => if decide (y = x) then Ok i else list_index x l' (S i)
  end.

Definition area_no (ai : nat) : M AddressSpace nat :=
  fun s => match area_list s !! ai with
           | Some a => (list_index a (area_list s) 0, s)
           | None => (Raise ValueError, s)
           end.





(** The rendering scenario: the area [0, 3] of zero bytes, all [UNK], after
    [make_auto_label(1)] and [add_xref(3, 1, "j")]. *)
Definition AS_scenario : AddressSpace :=
  ((make_auto_label 1;; add_xref 3 1 "j") AS_0_3).2.

(** ** Reference definitions for the line budget *)

(** The number of non-virtual lines of [ls] at addresses from [t] on. *)
Definition real_lines_from (t : Z) (ls : list (DisasmObj * Z)) : Z :=
  Z.of_nat (length (filter (fun l => negb (virtual l.1) && (t <=? obj_ea l.1)%Z = true) ls)).

(** The number of all lines of [ls] at addresses from [t] on. *)
Definition lines_from (t : Z) (ls : list (DisasmObj * Z)) : Z :=
  Z.of_nat (length (filter (fun l => (t <=? obj_ea l.1)%Z = true) ls)).

(** [rs'] has the lines of [rs] and then some, [d] of them non-virtual at
    addresses from [t] on. *)
Definition grows (t d : Z) (rs rs' : RS) : Prop :=
  exists new,
    _lines (rs_model rs') = (_lines (rs_model rs) ++ new)%list /\
    real_lines_from t new = d.

(** [render_partial] on the scenario, from area 0 and offset 0, into a model
    made for [target_addr]. *)
Definition scenario_render (p : processor) (num_lines target_addr : Z)
    : result (bool * Z) * RS :=
  render_partial 100 p 0 0 num_lines target_addr
    (mk_RS AS_scenario (Model_init (Z.max target_addr 0) 0)).

(** A toy processor for examples: opcode [0x01] is a 5-byte call with a
    4-byte little-endian target, opcode [0x02] a 1-byte return, anything else
    is not an instruction. *)
Definition toy_ana (ea : Z) : M AddressSpace Z :=
  b ← get_byte ea;
  if (b =? 1)%Z then get_byte (ea + 4);; mret 5%Z
  else if (b =? 2)%Z then mret 1%Z
  else mret 0%Z.

Definition toy_emu (ea size : Z) : M (AddressSpace * list Z) bool :=
  fun w =>
    let '(s, stack) := w in
    if (size =? 5)%Z then
      match get_data (ea + 1) 4 s with
      | (Ok target, s') =>
          (Ok true, ((add_xref ea target "c" s').2, target :: (ea + 5)%Z :: stack))
      | (Raise e, s') => (Raise e, (s', stack))
      end
    else (Ok true, (s, stack)).

Definition toy_out (ea size : Z) : M AddressSpace string :=
  mret (if (size =? 5)%Z then "call" else "ret").

Definition toy_processor : processor := mk_processor toy_ana toy_emu toy_out.

(** ** The analysis driver *)

(** The globals [analyze] works on: the address space, [analisys_stack]
    (its top is the head of the list), the calls made to [callback] so far,
    oldest first, and a ghost count of the loop rounds in which [ana]
    answered a non-zero size. *)
Record AW := mk_AW {
  aw_as : AddressSpace;
  analisys_stack : list Z;
  aw_calls : list Z;
  aw_decoded : Z
}.

Definition add_entrypoint (ea : Z) : M AW unit :=
  modify (fun w => mk_AW (aw_as w) (ea :: analisys_stack w) (aw_calls w) (aw_decoded w)).

(** A call of the address space from the driver. *)
Definition aw_on_AS {A} (c : M AddressSpace A) : M AW A :=
  fun w => let (r, s') := c (aw_as w) in
           (r, mk_AW s' (analisys_stack w) (aw_calls w) (aw_decoded w)).

(** [_processor.emu()], which sees the address space and the stack. *)
Definition aw_emu (p : processor) (ea size : Z) : M AW bool :=
  fun w => let (r, w') := emu p ea size (aw_as w, analisys_stack w) in
           (r, mk_AW w'.1 w'.2 (aw_calls w) (aw_decoded w)).

Definition aw_pop : M AW (option Z) :=
  fun w => match analisys_stack w with
           | [] => (Ok None, w)
           | ea :: rest => (Ok (Some ea), mk_AW (aw_as w) rest (aw_calls w) (aw_decoded w))
           end.

Definition aw_callback (cnt : Z) : M AW unit :=
  modify (fun w => mk_AW (aw_as w) (analisys_stack w) (aw_calls w ++ [cnt])%list
                         (aw_decoded w)).

Definition aw_count_decoded : M AW unit :=
  modify (fun w => mk_AW (aw_as w) (analisys_stack w) (aw_calls w)
                         (aw_decoded w + 1)%Z).

(** [try: insn_sz = _processor.ana() except InvalidAddrException: continue];
    [None] stands for the [continue]. *)
Definition try_ana (p : processor) (ea : Z) : M AW (option Z) :=
  fun w =>
    match aw_on_AS (ana p ea) w with
    | (Ok sz, w') => (Ok (Some sz), w')
    | (Raise (InvalidAddrException _), w') => (Ok None, w')
    | (Raise e, w') => (Raise e, w')
    end.

(** [while analisys_stack and limit: ...]; the answer is the final [cnt]. *)
Fixpoint analyze_loop (fuel : nat) (p : processor) (cnt limit : Z) : M AW Z :=
  match fuel with
  | O => raise OutOfFuel
  | S fuel' =>
      if (limit =? 0)%Z then mret cnt
      else
        top ← aw_pop;
        match top with
        | None => mret cnt
        | Some ea =>
            r ← try_ana p ea;
            match r with
            | None => analyze_loop fuel' p cnt limit
            | Some insn_sz =>
                if (insn_sz =? 0)%Z then analyze_loop fuel' p cnt limit
                else
                  aw_count_decoded;;
                  ok ← aw_emu p ea insn_sz;
                  (if (ok : bool) then mret tt else raise AssertionError);;
                  aw_on_AS (make_code ea insn_sz);;
                  aw_on_AS (out p ea insn_sz);;
                  let limit := (limit - 1)%Z in
                  let cnt := (cnt + 1)%Z in
                  (if (cnt mod 1000 =? 0)%Z then aw_callback cnt else mret tt);;
                  analyze_loop fuel' p cnt limit
            end
        end
  end.

Definition analyze (fuel : nat) (p : processor) : M AW Z :=
  analyze_loop fuel p 0 40000.



(** The code-discovery scenario: one area [0, 0xF] holding a call to 5 and a
    return at 5, with the entry point 0. *)
Definition AS_call_ret : AddressSpace :=
  mk_AS [mk_area 0 15 "" [1; 5; 0; 0; 0; 2; 0; 0; 0; 0; 0; 0; 0; 0; 0; 0]
                         (replicate 16 0%Z)]
        [] ∅ ∅ ∅ None.



(** ** Well-formed address spaces, for rendering around an address *)

Definition is_cont (f : Z) : bool :=
  (f =? CODE_CONT)%Z || (f =? DATA_CONT)%Z.










(** The area [0, 3] after [make_data(0, 2)]: address 1 is inside a unit. *)
Definition AS_data_unit : AddressSpace := (make_data 0 2 AS_0_3).2.



(** The continuation flag of a head flag, and the length of the unit the
    renderer takes at offset [i] when its head flag is [f]. *)
Definition cont_of (f : Z) : Z :=
  if (f =? CODE)%Z then CODE_CONT else DATA_CONT.


(** ** Persistence: text, numbers and JSON *)

(** Text is a [string] of code points below 256; a stream is the text written
    to it, and is read line by line. *)

Definition LF : ascii := ascii_of_N 10.
Definition dquote : ascii := ascii_of_N 34.
Definition backslash : ascii := ascii_of_N 92.

(** [str.isspace] *)
Definition isspace (c : ascii) : bool :=
  let n := N_of_ascii c in
  ((9 <=? n) && (n <=? 13) || (28 <=? n) && (n <=? 32) || (n =? 133) || (n =? 160))%N.

Fixpoint lstrip (x : string) : string :=
  match x with
  | String c x' => if isspace c then lstrip x' else x
  | EmptyString => EmptyString
  end.

Fixpoint rstrip (x : string) : string :=
  match x with
  | String c x' =>
      match rstrip x' with
      | EmptyString => if isspace c then EmptyString else String c EmptyString
      | r => String c r
      end
  | EmptyString => EmptyString
  end.

Definition starts_word (x : string) : bool :=
  match x with
  | String c _ => negb (isspace c)
  | EmptyString => false
  end.

(** [x.split()]: the words of [x] between runs of white space. *)
Fixpoint split (x : string) : list string :=
  match x with
  | String c x' =>
      if isspace c then split x'
      else if starts_word x' then
        match split x' with
        | w :: ws => String c w :: ws
        | [] => [String c EmptyString]
        end
      else String c EmptyString :: split x'
  | EmptyString => []
  end.

Fixpoint take_word (x : string) : string * string :=
  match x with
  | String c x' =>
      if isspace c then (EmptyString, x)
      else let (w, r) := take_word x' in (String c w, r)
  | EmptyString => (EmptyString, EmptyString)
  end.

(** [x.split(None, 1)]: the first word and the rest, without the white
    space before it. *)
Definition split1 (x : string) : list string :=
  match lstrip x with
  | EmptyString => []
  | x1 =>
      let (w, r) := take_word x1 in
      match lstrip r with
      | EmptyString => [w]
      | r1 => [w; r1]
      end
  end.

(** The lines of a stream, each with its line feed (the last one may lack
    it): what [for l in stream] and [stream.readline()] yield. *)
Fixpoint readlines (x : string) : list string :=
  match x with
  | String c x' =>
      if Ascii.eqb c LF then String c EmptyString :: readlines x'
      else match readlines x' with
           | l :: ls => String c l :: ls
           | [] => [String c EmptyString]
           end
  | EmptyString => []
  end.

(** [a, b = l]: exactly two values. *)
Definition unpack2 {A} (l : list A) : result (A * A) :=
  match l with
  | [a; b] => Ok (a, b)
  | _ => Raise ValueError
  end.

Definition string_map (f : ascii -> ascii) : string -> string :=
  fix go x :=
    match x with
    | String c x' => String (f c) (go x')
    | EmptyString => EmptyString
    end.

(** Upper-case hexadecimal letters made lower-case. *)
Definition hex_lower (c : ascii) : ascii :=
  let n := N_of_ascii c in
  if ((65 <=? n) && (n <=? 70))%N then ascii_of_N (n + 32) else c.

(** A sign in front of a number: whether it is a minus, and the rest. *)
Definition strip_sign (x : string) : bool * string :=
  match x with
  | String c x' =>
      if Ascii.eqb c "-" then (true, x')
      else if Ascii.eqb c "+" then (false, x')
      else (false, x)
  | EmptyString => (false, x)
  end.

Definition strip_0x (x : string) : string :=
  match x with
  | String c1 (String c2 x') =>
      if Ascii.eqb c1 "0" && (Ascii.eqb c2 "x" || Ascii.eqb c2 "X") then x' else x
  | _ => x
  end.

Definition signed (neg : bool) (n : Z) : Z := if neg then (- n)%Z else n.

(** [int(x, 16)]: white space around, a sign, a [0x] prefix, digits in
    either case.  (Underscores between digits are not modelled.) *)
Definition int_16 (x : string) : result Z :=
  let (neg, x1) := strip_sign (rstrip (lstrip x)) in
  match strip_0x x1 with
  | EmptyString => Raise ValueError
  | x2 =>
      match HexadecimalString.NilEmpty.uint_of_string (string_map hex_lower x2) with
      | Some u => Ok (signed neg (Z.of_N (N.of_hex_uint u)))
      | None => Raise ValueError
      end
  end.

(** [str(n)] and [int(x)] in base 10. *)
Definition str_int (n : Z) : string :=
  DecimalString.NilZero.string_of_int (Z.to_int n).

Definition int_10 (x : string) : result Z :=
  let (neg, x1) := strip_sign (rstrip (lstrip x)) in
  match x1 with
  | EmptyString => Raise ValueError
  | _ =>
      match DecimalString.NilEmpty.uint_of_string x1 with
      | Some u => Ok (signed neg (Z.of_N (N.of_uint u)))
      | None => Raise ValueError
      end
  end.

(** [binascii.hexlify] and [binascii.unhexlify]. *)
Definition hex_nibble (n : Z) : ascii :=
  if (n <? 10)%Z then ascii_of_N (Z.to_N (48 + n)) else ascii_of_N (Z.to_N (87 + n)).

Fixpoint hexlify (b : list Z) : string :=
  match b with
  | x :: b' => String (hex_nibble (x / 16)) (String (hex_nibble (x mod 16)) (hexlify b'))
  | [] => EmptyString
  end.

Definition hex_val (c : ascii) : option Z :=
  let n := Z.of_N (N_of_ascii c) in
  if ((48 <=? n) && (n <=? 57))%Z then Some (n - 48)%Z
  else if ((97 <=? n) && (n <=? 102))%Z then Some (n - 87)%Z
  else if ((65 <=? n) && (n <=? 70))%Z then Some (n - 55)%Z
  else None.

Fixpoint unhexlify (x : string) : result (list Z) :=
  match x with
  | String c1 (String c2 x') =>
      match hex_val c1, hex_val c2, unhexlify x' with
      | Some h, Some l, Ok b => Ok ((16 * h + l)%Z :: b)
      | _, _, _ => Raise ValueError
      end
  | String _ EmptyString => Raise ValueError
  | EmptyString => Ok []
  end.

(** *** JSON, as far as the tables need it *)

(** [json.dumps] of a string, with the default [ensure_ascii]: the quote,
    the backslash and every code point outside [' ' .. '~'] are escaped. *)
Definition json_escape (c : ascii) : string :=
  let n := N_of_ascii c in
  if Ascii.eqb c dquote then String backslash (String dquote EmptyString)
  else if Ascii.eqb c backslash then String backslash (String backslash EmptyString)
  else if (n =? 10)%N then String backslash "n"
  else if (n =? 13)%N then String backslash "r"
  else if (n =? 9)%N then String backslash "t"
  else if (n =? 12)%N then String backslash "f"
  else if (n =? 8)%N then String backslash "b"
  else if ((32 <=? n) && (n <=? 126))%N then String c EmptyString
  else String backslash ("u" +:+ zfill 4 (hex_digits (Z.of_N n))).

Fixpoint json_escape_all (x : string) : string :=
  match x with
  | String c x' => json_escape c +:+ json_escape_all x'
  | EmptyString => EmptyString
  end.

Definition json_dumps_str (x : string) : string :=
  String dquote (json_escape_all x +:+ String dquote EmptyString).

(** The character a one-letter escape stands for. *)
Definition json_unescape (e : ascii) : option ascii :=
  if Ascii.eqb e dquote then Some dquote
  else if Ascii.eqb e backslash then Some backslash
  else match e with
       | "/" => Some "/"
       | "b" => Some (ascii_of_N 8)
       | "f" => Some (ascii_of_N 12)
       | "n" => Some (ascii_of_N 10)
       | "r" => Some (ascii_of_N 13)
       | "t" => Some (ascii_of_N 9)
       | _ => None
       end%char.

Definition cons_fst (c : ascii) (r : option (string * string))
    : option (string * string) :=
  match r with
  | Some (v, rest) => Some (String c v, rest)
  | None => None
  end.

(** [scanstring], strict, from behind the opening quote: the string and the
    text behind its closing quote.  An escape [\uXXXX] has four hexadecimal
    digits; code points from 256 on are not modelled. *)
Fixpoint scanstring (x : string) : option (string * string) :=
  match x with
  | EmptyString => None
  | String c x1 =>
      if Ascii.eqb c dquote then Some (EmptyString, x1)
      else if Ascii.eqb c backslash then
        match x1 with
        | String "u" (String h1 (String h2 (String h3 (String h4 x2)))) =>
            match hex_val h1, hex_val h2, hex_val h3, hex_val h4 with
            | Some d1, Some d2, Some d3, Some d4 =>
                let n := (((d1 * 16 + d2) * 16 + d3) * 16 + d4)%Z in
                if (n <? 256)%Z
                then cons_fst (ascii_of_N (Z.to_N n)) (scanstring x2)
                else None
            | _, _, _, _ => None
            end
        | String e x2 =>
            match json_unescape e with
            | Some ch => cons_fst ch (scanstring x2)
            | None => None
            end
        | EmptyString => None
        end
      else if (N_of_ascii c <? 32)%N then None
      else cons_fst c (scanstring x1)
  end.

(** White space between the tokens of a document. *)
Definition json_space (c : ascii) : bool :=
  let n := N_of_ascii c in ((n =? 32) || (n =? 9) || (n =? 10) || (n =? 13))%N.

Fixpoint json_ws (x : string) : string :=
  match x with
  | String c x' => if json_space c then json_ws x' else x
  | EmptyString => EmptyString
  end.

(** [json.loads] of a document that is a string; other documents are outside
    the data model, and answer [ValueError] like a malformed one. *)
Definition json_loads_str (x : string) : result string :=
  match json_ws x with
  | String c x1 =>
      if Ascii.eqb c dquote then
        match scanstring x1 with
        | Some (v, rest) =>
            match json_ws rest with
            | EmptyString => Ok v
            | _ => Raise ValueError
            end
        | None => Raise ValueError
        end
      else Raise ValueError
  | EmptyString => Raise ValueError
  end.

Definition is_digit (c : ascii) : bool :=
  let n := N_of_ascii c in ((48 <=? n) && (n <=? 57))%N.

Fixpoint span_digits (x : string) : string * string :=
  match x with
  | String c x' =>
      if is_digit c then let (d, r) := span_digits x' in (String c d, r)
      else (EmptyString, x)
  | EmptyString => (EmptyString, EmptyString)
  end.

(** An integer in a document: an optional minus sign, then 0 or a run of
    digits that does not start with 0; not followed by a fraction or an
    exponent (floats are outside the data model). *)
Definition json_digits (neg : bool) (x : string) : option (Z * string) :=
  let (d, rest) := span_digits x in
  match d with
  | EmptyString => None
  | String c d' =>
      if Ascii.eqb c "0" && negb (String.eqb d' EmptyString) then None
      else if match rest with
              | String r _ => Ascii.eqb r "." || Ascii.eqb r "e" || Ascii.eqb r "E"
              | EmptyString => false
              end
      then None
      else
        match DecimalString.NilEmpty.uint_of_string d with
        | Some u => Some (signed neg (Z.of_N (N.of_uint u)), rest)
        | None => None
        end
  end.

Definition json_int (x : string) : option (Z * string) :=
  match x with
  | String c x' =>
      if Ascii.eqb c "-" then json_digits true x' else json_digits false x
  | EmptyString => None
  end.

(** A Python dict with string keys, in insertion order. *)
Fixpoint sdict_set {V} (k : string) (v : V) (d : list (string * V))
    : list (string * V) :=
  match d with
  | [] => [(k, v)]
  | (k', v') :: d' =>
      if String.eqb k' k then (k, v) :: d' else (k', v') :: sdict_set k v d'
  end.

(** The members of an object from the quote of a key on, up to and
    including the closing brace; every round takes at least one character
    of the text, whose length bounds the rounds. *)
Fixpoint json_members {V} (value : string -> option (V * string)) (n : nat)
    (x : string) (acc : list (string * V)) : option (list (string * V) * string) :=
  match n with
  | O => None
  | S n' =>
      match x with
      | String q x1 =>
          if Ascii.eqb q dquote then
            match scanstring x1 with
            | Some (k, x2) =>
                match json_ws x2 with
                | String ":" x3 =>
                    match value (json_ws x3) with
                    | Some (v, x4) =>
                        match json_ws x4 with
                        | String "," x5 =>
                            json_members value n' (json_ws x5) (sdict_set k v acc)
                        | String "}" x5 => Some (sdict_set k v acc, x5)
                        | _ => None
                        end
                    | None => None
                    end
                | _ => None
                end
            | None => None
            end
          else None
      | EmptyString => None
      end
  end.

Definition json_object {V} (value : string -> option (V * string)) (x : string)
    : option (list (string * V) * string) :=
  match x with
  | String "{" x1 =>
      match json_ws x1 with
      | String "}" x2 => Some ([], x2)
      | x2 => json_members value (String.length x2) x2 []
      end
  | _ => None
  end.

Definition json_member {K V} (key : K -> string) (value : V -> string)
    (kv : K * V) : string :=
  key kv.1 +:+ ": " +:+ value kv.2.

Definition json_dumps_object {K V} (key : K -> string) (value : V -> string)
    (items : list (K * V)) : string :=
  "{" +:+ String.concat ", " (map (json_member key value) items) +:+ "}".

(** [json.dumps(self.arg_props[addr])]: argument numbers become strings.
    The members come in the order of the map's listing. *)
Definition json_dumps_props (args : gmap Z (gmap string Z)) : string :=
  json_dumps_object (fun k => json_dumps_str (str_int k))
    (fun props => json_dumps_object json_dumps_str str_int (map_to_list props))
    (map_to_list args).

(** [json.loads(props)] for an object of objects of integers, the shape of
    an [arg_props] entry; other documents are outside the data model and
    answer [ValueError] like a malformed one. *)
Definition json_loads_props (x : string)
    : result (list (string * list (string * Z))) :=
  match json_object (json_object json_int) (json_ws x) with
  | Some (v, rest) =>
      match json_ws rest with
      | EmptyString => Ok v
      | _ => Raise ValueError
      end
  | None => Raise ValueError
  end.

(** [{int(k): v for k, v in props.items()}] *)
Fixpoint int_keys (items : list (string * list (string * Z)))
    (acc : gmap Z (gmap string Z)) : result (gmap Z (gmap string Z)) :=
  match items with
  | [] => Ok acc
  | (k, v) :: items' =>
      match int_10 k with
      | Ok n => int_keys items' (<[n := list_to_map v]> acc)
      | Raise e => Raise e
      end
  end.

(** *** Saving and loading the tables *)

Definition nl : string := String LF EmptyString.

(** What a sequence of [stream.write] calls leaves in the stream. *)
Definition writes (l : list string) : string := foldr String.append EmptyString l.

(** [for k in sorted(d.keys()): ... d[k] ...] goes through the entries of
    [d] in the order of their keys. *)
Definition sorted_items {V} (d : gmap Z V) : list (Z * V) :=
  omap (fun k => pair k <$> d !! k) (sorted_keys d).

Definition sorted_labels (d : list (Z * label)) : list (Z * label) :=
  omap (fun k => pair k <$> dict_get k d) (merge_sort Z.le (map fst d)).

(** One round of the loop of [save_labels], for the entry [(addr, l)]. *)
Definition save_label (e : Z * label) : string :=
  let addr := e.1 in
  match e.2 with
  | LInt n =>
      if (n =? addr)%Z then fmt_08x addr +:+ nl
      else fmt_08x addr +:+ " " +:+ str_int n +:+ nl
  | LStr l => fmt_08x addr +:+ " " +:+ l +:+ nl
  end.

Definition save_labels (s : AddressSpace) : string :=
  writes (map save_label (sorted_labels (labels s))).

Fixpoint load_labels_lines (ls : list string) : M AddressSpace unit :=
  match ls with
  | [] => mret tt
  | l :: ls' =>
      let vals := split l in
      v0 ← lift (py_index vals 0);
      addr ← lift (int_16 v0);
      let label :=
        match vals with
        | _ :: v1 :: _ => LStr v1
        | _ => LInt addr
        end in
      modify (set_labels (dict_set addr label));;
      load_labels_lines ls'
  end.

Definition load_labels (stream : string) : M AddressSpace unit :=
  load_labels_lines (readlines stream).

Definition save_comment (e : Z * string) : string :=
  fmt_08x e.1 +:+ " " +:+ json_dumps_str e.2 +:+ nl.

Definition save_comments (s : AddressSpace) : string :=
  writes (map save_comment (sorted_items (comments s))).

Fixpoint load_comments_lines (ls : list string) : M AddressSpace unit :=
  match ls with
  | [] => mret tt
  | l :: ls' =>
      p ← lift (unpack2 (split1 l));
      addr ← lift (int_16 p.1);
      c ← lift (json_loads_str p.2);
      modify (set_comments (fun t => <[addr := c]> t));;
      load_comments_lines ls'
  end.

Definition load_comments (stream : string) : M AddressSpace unit :=
  load_comments_lines (readlines stream).

Definition save_arg_prop (e : Z * gmap Z (gmap string Z)) : string :=
  fmt_08x e.1 +:+ " " +:+ json_dumps_props e.2 +:+ nl.

Definition save_arg_props (s : AddressSpace) : string :=
  writes (map save_arg_prop (sorted_items (arg_props s))).

Fixpoint load_arg_props_lines (ls : list string) : M AddressSpace unit :=
  match ls with
  | [] => mret tt
  | l :: ls' =>
      p ← lift (unpack2 (split1 l));
      addr ← lift (int_16 p.1);
      props ← lift (json_loads_props p.2);
      props ← lift (int_keys props ∅);
      modify (set_arg_props (fun t => <[addr := props]> t));;
      load_arg_props_lines ls'
  end.

Definition load_arg_props (stream : string) : M AddressSpace unit :=
  load_arg_props_lines (readlines stream).

(** The line of one cross-reference, and the block of one target address. *)
Definition save_xref (x : Z * string) : string :=
  fmt_08x x.1 +:+ " " +:+ x.2 +:+ nl.

Definition save_xref_block (e : Z * gmap Z string) : string :=
  fmt_08x e.1 +:+ nl +:+ writes (map save_xref (sorted_items e.2)) +:+ nl.

Definition save_xrefs (s : AddressSpace) : string :=
  writes (map save_xref_block (sorted_items (xrefs s))).

(** The two nested [while True] loops of [load_xrefs], over the lines still
    in the stream ([readline] answers the empty string when none is left):
    [cur] is [None] in the outer loop and the address of the block in the
    inner one. *)
Fixpoint load_xrefs_lines (ls : list string) (cur : option Z)
    : M AddressSpace unit :=
  match ls with
  | [] => mret tt
  | l :: ls' =>
      let l := rstrip l in
      match cur with
      | None =>
          if String.eqb l EmptyString then mret tt
          else addr ← lift (int_16 l); load_xrefs_lines ls' (Some addr)
      | Some addr =>
          if String.eqb l EmptyString then load_xrefs_lines ls' None
          else
            p ← lift (unpack2 (split l));
            from_addr ← lift (int_16 p.1);
            modify (set_xrefs (fun x =>
              <[addr := <[from_addr := p.2]> (default ∅ (x !! addr))]> x));;
            load_xrefs_lines ls' (Some addr)
      end
  end.

Definition load_xrefs (stream : string) : M AddressSpace unit :=
  load_xrefs_lines (readlines stream) None.

(** The chunks of 32 flag bytes of [save_areas]; the loop ends at the first
    empty chunk, within [length flags + 1] rounds. *)
Fixpoint save_chunks (n : nat) (flags : list Z) (i : Z) : string :=
  match n with
  | O => EmptyString
  | S n' =>
      match py_slice flags i (i + 32) with
      | [] => EmptyString
      | chunk => hexlify chunk +:+ nl +:+ save_chunks n' flags (i + 32)%Z
      end
  end.

(** One round of the loop of [save_areas]. *)
Definition save_area (a : area) : string :=
  fmt_08x (START a) +:+ " " +:+ fmt_08x (END a) +:+ nl
  +:+ save_chunks (S (length (FLAGS a))) (FLAGS a) 0
  +:+ nl.

Definition save_areas (s : AddressSpace) : string :=
  writes (map save_area (area_list s)).

(** [flags[i:i + len(l)] = l] on a bytearray, for [0 <= i]. *)
Definition py_setslice (flags : list Z) (i : nat) (l : list Z) : list Z :=
  (take i flags ++ l ++ drop (i + length l) flags)%list.

Definition store_slice (ai i : nat) (l : list Z) : M AddressSpace unit :=
  modify (set_area_list (fun al =>
    match al !! ai with
    | Some a => <[ai := set_FLAGS (py_setslice (FLAGS a) i l) a]> al
    | None => al
    end)).

(** The inner loop of [load_areas] for the area at position [ai]; the
    answer is what is left of the stream. *)
Fixpoint load_chunks (ls : list string) (ai i : nat)
    : M AddressSpace (list string) :=
  match ls with
  | [] => mret []
  | l :: ls' =>
      let l := rstrip l in
      if String.eqb l EmptyString then mret ls'
      else
        b ← lift (unhexlify l);
        store_slice ai i b;;
        load_chunks ls' ai (i + length b)%nat
  end.

(** [vals = [int(v, 16) for v in l.split()]] *)
Fixpoint ints_16 (l : list string) : result (list Z) :=
  match l with
  | [] => Ok []
  | v :: l' =>
      match int_16 v with
      | Ok n => match ints_16 l' with
                | Ok ns => Ok (n :: ns)
                | Raise e => Raise e
                end
      | Raise e => Raise e
      end
  end.

(** [assert a[START] == vals[0] and a[END] == vals[1]] *)
Definition check_bounds (a : area) (vals : list Z) : result unit :=
  match py_index vals 0 with
  | Raise e => Raise e
  | Ok v0 =>
      if (START a =? v0)%Z then
        match py_index vals 1 with
        | Raise e => Raise e
        | Ok v1 => if (END a =? v1)%Z then Ok tt else Raise AssertionError
        end
      else Raise AssertionError
  end.

(** [for a in self.area_list], from position [ai] on: [areas] are the
    areas still to come. *)
Fixpoint load_areas_from (areas : list area) (ai : nat) (ls : list string)
    : M AddressSpace unit :=
  match areas with
  | [] => mret tt
  | a :: areas' =>
      let l := match ls with l :: _ => l | [] => EmptyString end in
      let ls1 := match ls with _ :: ls' => ls' | [] => [] end in
      vals ← lift (ints_16 (split l));
      lift (check_bounds a vals);;
      ls2 ← load_chunks ls1 ai 0;
      load_areas_from areas' (S ai) ls2
  end.

Definition load_areas (stream : string) : M AddressSpace unit :=
  s ← get;
  load_areas_from (area_list s) 0 (readlines stream).

(** *** What can be saved and loaded back *)

Fixpoint all_chars (p : ascii -> bool) (x : string) : bool :=
  match x with
  | String c x' => p c && all_chars p x'
  | EmptyString => true
  end.

(** A non-empty string without white space. *)
Definition is_word (x : string) : bool :=
  negb (String.eqb x EmptyString) && all_chars (fun c => negb (isspace c)) x.

Definition is_byte (b : Z) : Prop := (0 <= b < 256)%Z.

Definition is_lower_hex (c : ascii) : bool :=
  let n := N_of_ascii c in
  ((48 <=? n) && (n <=? 57) || (97 <=? n) && (n <=? 102))%N.

(** The padding of [zfill]. *)
Definition zeros (k : nat) : string := String.concat EmptyString (replicate k "0").

(** The store after the flag buffer of the area at position [ai] has become
    [fl]. *)
Definition put_flags (ai : nat) (fl : list Z) (s : AddressSpace) : AddressSpace :=
  set_area_list (fun al =>
    match al !! ai with
    | Some a => <[ai := set_FLAGS fl a]> al
    | None => al
    end) s.

(** One cross-reference from [e.1], with tag [e.2], put into the set of the
    target [addr]: the assignment in the inner loop of [load_xrefs]. *)
Definition xref_ins (addr : Z) (x : gmap Z (gmap Z string)) (e : Z * string)
    : gmap Z (gmap Z string) :=
  <[addr := <[e.1 := e.2]> (default ∅ (x !! addr))]> x.

(** The characters [' ' .. '~']. *)
Definition is_printable (c : ascii) : bool :=
  let n := N_of_ascii c in ((32 <=? n) && (n <=? 126))%N.

(** What may stand behind an integer in a document: not a digit, and not
    the start of a fraction or an exponent. *)
Definition ends_number (x : string) : bool :=
  match x with
  | String r _ =>
      negb (is_digit r || Ascii.eqb r "." || Ascii.eqb r "e" || Ascii.eqb r "E")
  | EmptyString => true
  end.

(** What stands behind a value in an object: a comma or the closing brace. *)
Definition ends_value (x : string) : bool :=
  match x with
  | String c _ => Ascii.eqb c "," || Ascii.eqb c "}"
  | EmptyString => false
  end.

(** *** Unique labels *)

(** [x if isinstance(x, str) else self.get_default_label(x)] for the
    values of [self.labels], in their order. *)
Fixpoint label_strings (items : list (Z * label)) : M AddressSpace (list string) :=
  match items with
  | [] => mret []
  | (_, LStr x) :: items' => xs ← label_strings items'; mret (x :: xs)
  | (_, LInt n) :: items' =>
      d ← get_default_label n;
      xs ← label_strings items';
      mret (d :: xs)
  end.

Definition get_label_set : M AddressSpace (gset string) :=
  s ← get;
  xs ← label_strings (labels s);
  mret (list_to_set xs).

Definition label_exists (l : string) : M AddressSpace bool :=
  existing ← get_label_set;
  mret (bool_decide (l ∈ existing)).

(** [l = label; if cnt > 0: l += "_%d" % cnt] *)
Definition unique_candidate (label : string) (cnt : Z) : string :=
  if (0 <? cnt)%Z then label +:+ "_" +:+ str_int cnt else label.

(** The [while True] loop of [make_unique_label]. *)
Fixpoint make_unique_label_loop (fuel : nat) (ea : Z) (label : string)
    (existing : gset string) (cnt : Z) : M AddressSpace string :=
  match fuel with
  | O => raise OutOfFuel
  | S fuel' =>
      let l := unique_candidate label cnt in
      if bool_decide (l ∈ existing)
      then make_unique_label_loop fuel' ea label existing (cnt + 1)
      else modify (set_labels (dict_set ea (LStr l)));; mret l
  end.

Definition make_unique_label (fuel : nat) (ea : Z) (label : string)
    : M AddressSpace string :=
  existing ← get_label_set;
  make_unique_label_loop fuel ea label existing 0.

(** *** The lines of a model *)

(** The model after [add_line(addr, line)] for each pair of [ls] in turn. *)
Definition add_lines (ls : list (Z * DisasmObj)) (m : Model) : Model :=
  foldl (fun m e => add_line e.1 e.2 m) m ls.

(** [Model.undefine_unit], on the address space of the model. *)
Definition undefine_unit (addr : Z) : M AddressSpace unit :=
  sz ← get_unit_size addr;
  make_undefined addr sz.

(** * Properties *)

Local Open Scope Z_scope.
Local Open Scope list_scope.

(** ** Reasoning about computations *)

Ltac unfold_M :=
  unfold mbind, M_bind, mret, M_ret, bind, ret, raise, lift, get, modify in *.

Lemma bind_ok {S A B} (m : M S A) (k : A -> M S B) s a s' :
  m s = (Ok a, s') -> (m ≫= k) s = k a s'.
Proof. intros H. unfold_M. now rewrite H. Qed.


(** ** Address resolution *)

Lemma find_area_spec l k addr :
  match find_area l k addr with
  | Some (i, a) =>
      (k <= i)%nat /\ l !! (i - k)%nat = Some a /\ in_area a addr = true /\
      forall j b, (j < i - k)%nat -> l !! j = Some b -> in_area b addr = false
  | None => forall j b, l !! j = Some b -> in_area b addr = false
  end.
Proof.
  revert k. induction l as [|a l IH]; intros k; simpl.
  - intros j b Hj. now rewrite lookup_nil in Hj.
  - destruct (in_area a addr) eqn:Ha.
    + replace (k - k)%nat with 0%nat by lia. repeat split; auto. intros; lia.
    + specialize (IH (S k)). destruct (find_area l (S k) addr) as [[i b]|].
      * destruct IH as (Hle & Hl & Hb & Hfirst).
        replace (i - k)%nat with (S (i - S k)) by lia.
        repeat split; auto; try lia.
        intros [|j] c Hj Hc; simpl in Hc.
        -- congruence.
        -- apply (Hfirst j); auto. lia.
      * intros [|j] b Hb; simpl in Hb; [congruence | eauto].
Qed.

Lemma find_area_cases l addr :
  (exists i a, find_area l 0 addr = Some (i, a) /\ l !! i = Some a /\
               in_area a addr = true /\
               forall j b, (j < i)%nat -> l !! j = Some b -> in_area b addr = false)
  \/ (find_area l 0 addr = None /\
      forall j b, l !! j = Some b -> in_area b addr = false).
Proof.
  pose proof (find_area_spec l 0 addr) as H.
  destruct (find_area l 0 addr) as [[i a]|].
  - left. exists i, a. destruct H as (_ & Hl & Ha & Hf).
    replace (i - 0)%nat with i in * by lia. auto.
  - right. auto.
Qed.

Lemma linear_scan_first l addr i a :
  l !! i = Some a -> in_area a addr = true ->
  (forall j b, (j < i)%nat -> l !! j = Some b -> in_area b addr = false) ->
  linear_scan l addr = Some (addr - START a, a).
Proof.
  revert i. induction l as [|b l IH]; intros i Hi Ha Hfirst.
  - now rewrite lookup_nil in Hi.
  - destruct i as [|i]; simpl in *.
    + injection Hi as ->. now rewrite Ha.
    + rewrite (Hfirst 0%nat b) by (simpl; auto; lia).
      apply (IH i); auto. intros j c Hj Hc. apply (Hfirst (S j)); auto. lia.
Qed.

Lemma linear_scan_none l addr :
  (forall j b, l !! j = Some b -> in_area b addr = false) ->
  linear_scan l addr = None.
Proof.
  induction l as [|b l IH]; intros H; simpl; auto.
  rewrite (H 0%nat b) by reflexivity. apply IH. intros j c Hc. apply (H (S j)); auto.
Qed.

Lemma linear_scan_unique l addr i a :
  non_overlapping l -> l !! i = Some a -> in_area a addr = true ->
  linear_scan l addr = Some (addr - START a, a).
Proof.
  intros Hno Hi Ha. apply (linear_scan_first l addr i a); auto.
  intros j b Hj Hb. destruct (in_area b addr) eqn:E; auto.
  pose proof (Hno j i b a addr Hb Hi E Ha). lia.
Qed.

Lemma same_but_cache_refl s : same_but_cache s s.
Proof. now repeat split. Qed.

Lemma same_but_cache_set_last s i : same_but_cache s (set_last_area i s).
Proof. now repeat split. Qed.

Lemma same_but_cache_trans s1 s2 s3 :
  same_but_cache s1 s2 -> same_but_cache s2 s3 -> same_but_cache s1 s3.
Proof.
  unfold same_but_cache. intros (?&?&?&?&?) (?&?&?&?&?). repeat split; congruence.
Qed.

(** [addr2area] never raises, answers with a valid reference to an area that
    holds [addr], and changes the cache only. *)
Lemma addr2area_sound s addr :
  exists r s', addr2area addr s = (Ok r, s') /\ same_but_cache s s' /\
    match r with
    | Some (off, i) =>
        exists a, area_list s !! i = Some a /\ in_area a addr = true /\
                  off = addr - START a /\
                  (last_area s' = Some i)
    | None => (forall j b, area_list s !! j = Some b -> in_area b addr = false)
              /\ s' = s
    end.
Proof.
  unfold addr2area.
  assert (Hscan :
    exists r s',
      match find_area (area_list s) 0 addr with
      | Some (i, a) => (Ok (Some (addr - START a, i)), set_last_area (Some i) s)
      | None => (Ok None, s)
      end = (Ok r, s') /\ same_but_cache s s' /\
      match r with
      | Some (off, i) =>
          exists a, area_list s !! i = Some a /\ in_area a addr = true /\
                    off = addr - START a /\ last_area s' = Some i
      | None => (forall j b, area_list s !! j = Some b -> in_area b addr = false)
                /\ s' = s
      end).
  { destruct (find_area_cases (area_list s) addr)
      as [(i & a & -> & Hi & Ha & _) | [-> Hnone]].
    - eexists _, _. split; [reflexivity|]. split; [apply same_but_cache_set_last|].
      exists a. auto.
    - eexists _, _. split; [reflexivity|]. split; [apply same_but_cache_refl|]. auto. }
  destruct (last_area s) as [i|] eqn:Hc; auto.
  destruct (area_list s !! i) as [a|] eqn:Hi; auto.
  destruct (in_area a addr) eqn:Ha; auto.
  eexists _, _. split; [reflexivity|]. split; [apply same_but_cache_refl|].
  exists a. auto.
Qed.

(** C9.  With non-overlapping areas, [addr2area] answers exactly what a
    cache-free linear scan of [area_list] answers, whatever [last_area]
    holds: [(addr - start, area)] for the area containing [addr], and
    [(None, None)] when there is none.  Only the cache may differ afterwards. *)
Theorem addr2area_refines_linear_scan (s : AddressSpace) (addr : Z) :
  non_overlapping (area_list s) ->
  exists r s',
    addr2area addr s = (Ok r, s') /\
    resolved s' r = linear_scan (area_list s) addr /\
    same_but_cache s s' /\
    (forall i a, area_list s !! i = Some a -> in_area a addr = true ->
                 r = Some (addr - START a, i)) /\
    ((forall i a, area_list s !! i = Some a -> in_area a addr = false) ->
     r = None).
Proof.
  intros Hno.
  destruct (addr2area_sound s addr) as (r & s' & Hrun & Hsame & Hr).
  exists r, s'. split; [exact Hrun|].
  pose proof Hsame as (Hal & _).
  destruct r as [[off i]|].
  - destruct Hr as (a & Hi & Ha & -> & _).
    split; [|split; [exact Hsame|split]].
    + unfold resolved. rewrite Hal, Hi. symmetry.
      apply (linear_scan_unique _ _ i); auto.
    + intros j b Hj Hb.
      pose proof (Hno j i b a addr Hj Hi Hb Ha) as ->. congruence.
    + intros Hnone. rewrite (Hnone i a Hi) in Ha. discriminate.
  - destruct Hr as (Hnone & ->).
    split; [|split; [exact Hsame|split]].
    + simpl. symmetry. now apply linear_scan_none.
    + intros i a Hi Ha. rewrite (Hnone i a Hi) in Ha. discriminate.
    + reflexivity.
Qed.

(** ** Flag writers stay inside their window *)

Section Frame.
Variables (ai : nat) (lo hi : Z).
Local Abbreviation frame := (flags_changed_within ai lo hi).

Lemma frame_refl s : frame s s.
Proof.
  unfold flags_changed_within. repeat (split; [reflexivity|]).
  intros j a Hj. exists a. repeat (split; [auto|]). auto.
Qed.

Lemma frame_trans s1 s2 s3 : frame s1 s2 -> frame s2 s3 -> frame s1 s3.
Proof.
  intros (L1 & C1 & X1 & P1 & N1 & H1) (L2 & C2 & X2 & P2 & N2 & H2).
  unfold flags_changed_within.
  repeat (split; [congruence|]).
  intros j a Hj.
  destruct (H1 j a Hj) as (a1 & Hj1 & ? & ? & ? & ? & ? & Hne1 & Hk1).
  destruct (H2 j a1 Hj1) as (a2 & Hj2 & ? & ? & ? & ? & ? & Hne2 & Hk2).
  exists a2. repeat (split; [congruence|]). split.
  - intros Hne. rewrite Hne2, Hne1; auto.
  - intros k Hk. rewrite Hk2, Hk1; auto.
Qed.

Lemma frame_same_but_cache s s' : same_but_cache s s' -> frame s s'.
Proof.
  intros (Hal & ? & ? & ? & ?). unfold flags_changed_within.
  repeat (split; [congruence|]).
  intros j a Hj. exists a. rewrite Hal. repeat (split; [auto|]). auto.
Qed.

Lemma frame_bind {A B} (m : M AddressSpace A) (k : A -> M AddressSpace B) s :
  frame s (m s).2 ->
  (forall a s1, m s = (Ok a, s1) -> frame s1 (k a s1).2) ->
  frame s ((m ≫= k) s).2.
Proof.
  intros Hm Hk. unfold_M. destruct (m s) as [[a|e] s1] eqn:E; simpl in *; auto.
  eapply frame_trans; [exact Hm|]. now apply Hk.
Qed.

Lemma frame_store_flag s k v :
  (lo <= k < hi)%Z -> (0 <= k)%Z -> frame s (store_flag ai k v s).2.
Proof.
  intros Hk Hk0. unfold store_flag.
  destruct (area_list s !! ai) as [a|] eqn:Ha; [|apply frame_refl].
  unfold py_setitem.
  destruct (k <? 0)%Z eqn:Hneg; [lia|].
  destruct ((k <? 0) || (Z.of_nat (length (FLAGS a)) <=? k))%Z eqn:Hr;
    [apply frame_refl|].
  destruct ((v <? 0) || (256 <=? v))%Z; [apply frame_refl|].
  simpl. unfold flags_changed_within, set_area_list; simpl.
  repeat (split; [reflexivity|]).
  split; [now rewrite length_insert|].
  intros j b Hj. destruct (decide (j = ai)) as [->|Hne].
  - rewrite Ha in Hj. injection Hj as <-.
    exists (set_FLAGS (<[Z.to_nat k := v]> (FLAGS a)) a).
    split. { apply list_lookup_insert_eq. now apply lookup_lt_Some in Ha. }
    simpl. repeat (split; [reflexivity|]).
    split; [now rewrite length_insert|].
    split; [congruence|].
    intros k' Hk'. apply list_lookup_insert_ne. lia.
  - exists b. rewrite list_lookup_insert_ne by congruence.
    repeat (split; [auto|]). auto.
Qed.

Lemma frame_load_flag s k : frame s (load_flag ai k s).2.
Proof.
  unfold load_flag. destruct (area_list s !! ai); apply frame_refl.
Qed.

Lemma load_flag_state s k v s' : load_flag ai k s = (v, s') -> s' = s.
Proof.
  unfold load_flag. destruct (area_list s !! ai); now intros [= _ <-].
Qed.

Lemma frame_or_flag s k fl :
  (lo <= k < hi)%Z -> (0 <= k)%Z -> frame s (or_flag ai k fl s).2.
Proof.
  intros Hk Hk0. unfold or_flag. apply frame_bind.
  - apply frame_load_flag.
  - intros f s1 _. now apply frame_store_flag.
Qed.

Lemma frame_set_flags_loop n off i rest_fl s :
  (0 <= off + i)%Z -> (lo <= off + i)%Z -> (off + i + Z.of_nat n <= hi)%Z ->
  frame s (set_flags_loop n ai off i rest_fl s).2.
Proof.
  revert i s. induction n as [|n IH]; intros i s H0 Hlo Hhi; simpl.
  - apply frame_refl.
  - apply frame_bind.
    + apply frame_store_flag; lia.
    + intros _ s1 _. apply IH; lia.
Qed.

Lemma frame_or_flags_loop n off i fl s :
  (0 <= off + 1 + i)%Z -> (lo <= off + 1 + i)%Z ->
  (off + 1 + i + Z.of_nat n <= hi)%Z ->
  frame s (or_flags_loop n ai off i fl s).2.
Proof.
  revert i s. induction n as [|n IH]; intros i s H0 Hlo Hhi; simpl.
  - apply frame_refl.
  - apply frame_bind.
    + apply frame_or_flag; lia.
    + intros _ s1 _. apply IH; lia.
Qed.
End Frame.

Lemma addr2area_refines_linear_scan_witness :
  exists r s',
    addr2area 17 AS_two_areas = (Ok r, s') /\
    resolved s' r = linear_scan (area_list AS_two_areas) 17 /\
    same_but_cache AS_two_areas s' /\
    (forall i a, area_list AS_two_areas !! i = Some a -> in_area a 17 = true ->
                 r = Some (17 - START a, i)) /\
    ((forall i a, area_list AS_two_areas !! i = Some a -> in_area a 17 = false) ->
     r = None).
Proof.
  apply (addr2area_refines_linear_scan AS_two_areas 17).
  intros [|[|i]] [|[|j]] a b addr Hi Hj Ha Hb; simpl in *;
    try discriminate; auto;
    injection Hi as <-; injection Hj as <-;
    unfold in_area in *; simpl in *; lia.
Defined.

Lemma addr2area_in s addr ai a :
  non_overlapping (area_list s) -> area_list s !! ai = Some a ->
  in_area a addr = true ->
  exists s', addr2area addr s = (Ok (Some (addr - START a, ai)), s') /\
             same_but_cache s s'.
Proof.
  intros Hno Hai Ha.
  destruct (addr2area_sound s addr) as (r & s' & Hrun & Hsame & Hr).
  exists s'. split; [|exact Hsame]. rewrite Hrun. do 3 f_equal.
  destruct r as [[off i]|].
  - destruct Hr as (b & Hi & Hb & -> & _).
    pose proof (Hno i ai b a addr Hi Hai Hb Ha) as ->. congruence.
  - destruct Hr as (Hnone & _). rewrite (Hnone ai a Hai) in Ha. discriminate.
Qed.

Lemma deref_some s off ai a :
  area_list s !! ai = Some a -> deref (Some (off, ai)) s = (Ok (off, ai, a), s).
Proof. intros H. unfold deref. now rewrite H. Qed.

Lemma in_area_iff a addr :
  in_area a addr = true <-> START a <= addr <= END a.
Proof. unfold in_area. rewrite andb_true_iff, !Z.leb_le. tauto. Qed.

(** Entry of a flag writer: the address resolves to the area that holds it. *)
Lemma writer_entry {B} s addr ai a (k : Z * nat * area -> M AddressSpace B)
    (P : AddressSpace -> Prop) :
  non_overlapping (area_list s) -> area_list s !! ai = Some a ->
  in_area a addr = true ->
  (forall s', same_but_cache s s' -> P (k (addr - START a, ai, a) s').2) ->
  P ((addr2area addr ≫= fun r => deref r ≫= k) s).2.
Proof.
  intros Hno Hai Ha Hk.
  destruct (addr2area_in s addr ai a Hno Hai Ha) as (s' & Hrun & Hsame).
  rewrite (bind_ok _ _ _ _ _ Hrun).
  pose proof Hsame as (Hal & _).
  rewrite (bind_ok _ _ _ _ _ (deref_some s' _ ai a ltac:(now rewrite Hal))).
  now apply Hk.
Qed.

Lemma set_flags_frame s addr sz ai a head_fl rest_fl :
  non_overlapping (area_list s) -> area_list s !! ai = Some a ->
  1 <= sz -> START a <= addr <= END a ->
  flags_changed_within ai (addr - START a) (addr - START a + sz) s
    (set_flags addr sz head_fl rest_fl s).2.
Proof.
  intros Hno Hai Hsz Hin.
  assert (Ha : in_area a addr = true) by (apply in_area_iff; lia).
  unfold set_flags.
  apply (writer_entry s addr ai a _ _ Hno Hai Ha). intros s' Hsame.
  eapply frame_trans; [apply frame_same_but_cache, Hsame|].
  apply frame_bind.
  - apply frame_store_flag; lia.
  - intros _ s1 _. apply frame_set_flags_loop; lia.
Qed.

(** The shared body of [make_code] and [make_data]. *)
Lemma or_writer_frame s addr sz ai a h c :
  non_overlapping (area_list s) -> area_list s !! ai = Some a ->
  1 <= sz -> START a <= addr <= END a ->
  flags_changed_within ai (addr - START a) (addr - START a + sz) s
    ((addr2area addr ≫= fun r => deref r ≫= fun '(off, ai, _) =>
        or_flag ai off h;; or_flags_loop (Z.to_nat (sz - 1)) ai off 0 c) s).2.
Proof.
  intros Hno Hai Hsz Hin.
  assert (Ha : in_area a addr = true) by (apply in_area_iff; lia).
  apply (writer_entry s addr ai a _ _ Hno Hai Ha). intros s' Hsame.
  eapply frame_trans; [apply frame_same_but_cache, Hsame|].
  apply frame_bind.
  - apply frame_or_flag; lia.
  - intros _ s1 _. apply frame_or_flags_loop; lia.
Qed.

(** C10 (amended with [1 <= sz]).  When [addr .. addr + sz - 1] lies in the
    area at position [ai], each of [set_flags], [make_undefined],
    [make_code] and [make_data] leaves everything but the flag bytes at
    offsets [addr - start .. addr - start + sz - 1] of that area as it was:
    area bytes, the other flag bytes, the other areas and the label, comment,
    xref and arg-prop tables. *)
Theorem flag_writers_frame (s : AddressSpace) (addr sz : Z) (ai : nat) (a : area)
    (head_fl rest_fl : Z) :
  non_overlapping (area_list s) ->
  area_list s !! ai = Some a ->
  1 <= sz -> START a <= addr -> addr + sz - 1 <= END a ->
  let W := flags_changed_within ai (addr - START a) (addr - START a + sz) s in
  W (set_flags addr sz head_fl rest_fl s).2 /\
  W (make_undefined addr sz s).2 /\
  W (make_code addr sz s).2 /\
  W (make_data addr sz s).2.
Proof.
  intros Hno Hai Hsz Hlo Hhi W. subst W.
  split; [|split; [|split]].
  - apply set_flags_frame; auto; lia.
  - apply set_flags_frame; auto; lia.
  - apply or_writer_frame; auto; lia.
  - apply or_writer_frame; auto; lia.
Qed.

Lemma flag_writers_frame_witness :
  let W := flags_changed_within 0 1 3 AS_0_3 in
  W (set_flags 1 2 DATA DATA_CONT AS_0_3).2 /\
  W (make_undefined 1 2 AS_0_3).2 /\
  W (make_code 1 2 AS_0_3).2 /\
  W (make_data 1 2 AS_0_3).2.
Proof.
  apply (flag_writers_frame AS_0_3 1 2 0
           (mk_area 0 3 "" [0; 0; 0; 0] [0; 0; 0; 0]) DATA DATA_CONT).
  - intros [|i] [|j] a b addr Hi Hj; simpl in *; try discriminate; auto.
  - reflexivity.
  - lia.
  - simpl; lia.
  - simpl; lia.
Defined.

(** With [sz = 0] the window [addr .. addr + sz - 1] is empty, yet the head
    flag is written: C10 as stated fails there. *)
Lemma set_flags_size_zero_writes_head :
  ~ flags_changed_within 0 0 0 AS_0_3 (set_flags 0 0 CODE UNK AS_0_3).2.
Proof.
  intros (_ & _ & _ & _ & _ & H).
  destruct (H 0%nat (mk_area 0 3 "" [0; 0; 0; 0] [0; 0; 0; 0]) eq_refl)
    as (a' & Ha' & _ & _ & _ & _ & _ & _ & Hk).
  vm_compute in Ha'. injection Ha' as <-.
  specialize (Hk 0%nat ltac:(right; simpl; lia)). discriminate Hk.
Qed.

(** ** Units: [make_code] followed by [get_unit_size] *)

Lemma py_index_ok {A} (l : list A) (i : Z) (x : A) :
  0 <= i -> l !! Z.to_nat i = Some x -> py_index l i = Ok x.
Proof.
  intros Hi Hx. unfold py_index.
  destruct (i <? 0) eqn:E; [lia|]. now rewrite E, Hx.
Qed.

Lemma py_index_past {A} (l : list A) (i : Z) :
  Z.of_nat (length l) <= i -> py_index l i = Raise IndexError.
Proof.
  intros Hi. unfold py_index.
  destruct (i <? 0) eqn:E; [lia|]. rewrite E.
  rewrite (lookup_ge_None_2 l (Z.to_nat i)); [reflexivity | lia].
Qed.

Lemma while_flag_run (m : nat) : forall fuel flags f j sz x,
  0 <= j ->
  (forall i : nat, (i < m)%nat -> flags !! Z.to_nat (j + Z.of_nat i) = Some f) ->
  flags !! Z.to_nat (j + Z.of_nat m) = Some x -> x <> f ->
  (m < fuel)%nat ->
  while_flag fuel flags f j sz = Ok (sz + Z.of_nat m).
Proof.
  induction m as [|m IH]; intros fuel flags f j sz x Hj Hrun Hstop Hx Hfuel;
    (destruct fuel as [|fuel]; [lia|]); simpl.
  - rewrite Z.add_0_r in Hstop. rewrite (py_index_ok _ _ _ Hj Hstop).
    destruct (x =? f) eqn:E; [lia|]. f_equal. lia.
  - pose proof (Hrun 0%nat ltac:(lia)) as H0. rewrite Z.add_0_r in H0.
    rewrite (py_index_ok _ _ _ Hj H0), Z.eqb_refl.
    rewrite (IH fuel flags f (j + 1) (sz + 1) x); try lia; auto.
    + f_equal. lia.
    + intros i Hi. replace (j + 1 + Z.of_nat i) with (j + Z.of_nat (S i)) by lia.
      apply Hrun. lia.
    + now replace (j + 1 + Z.of_nat m) with (j + Z.of_nat (S m)) by lia.
Qed.

(** A run of [m] flags [f] from [j], followed by another flag. *)
Lemma scan_flags_run flags f j sz (m : nat) x :
  0 <= j ->
  (forall i : nat, (i < m)%nat -> flags !! Z.to_nat (j + Z.of_nat i) = Some f) ->
  flags !! Z.to_nat (j + Z.of_nat m) = Some x -> x <> f ->
  scan_flags flags f j sz = Ok (sz + Z.of_nat m).
Proof.
  intros Hj Hrun Hstop Hx. unfold scan_flags.
  apply (while_flag_run m _ _ _ _ _ x); auto.
  apply lookup_lt_Some in Hstop. lia.
Qed.

(** A run of [m] flags [f] from [j] up to the very end of the buffer: the
    scan runs off the buffer. *)
Lemma while_flag_overrun (m : nat) : forall fuel flags f j sz,
  0 <= j ->
  (forall i : nat, (i < m)%nat -> flags !! Z.to_nat (j + Z.of_nat i) = Some f) ->
  Z.of_nat (length flags) = j + Z.of_nat m ->
  while_flag fuel flags f j sz = Raise IndexError.
Proof.
  induction m as [|m IH]; intros fuel flags f j sz Hj Hrun Hlen;
    (destruct fuel as [|fuel]; [reflexivity|]); simpl.
  - rewrite py_index_past by lia. reflexivity.
  - pose proof (Hrun 0%nat ltac:(lia)) as H0. rewrite Z.add_0_r in H0.
    rewrite (py_index_ok _ _ _ Hj H0), Z.eqb_refl.
    apply IH; try lia.
    intros i Hi. replace (j + 1 + Z.of_nat i) with (j + Z.of_nat (S i)) by lia.
    apply Hrun. lia.
Qed.

Lemma store_flag_ok s ai a k v :
  area_list s !! ai = Some a ->
  0 <= k < Z.of_nat (length (FLAGS a)) -> 0 <= v < 256 ->
  store_flag ai k v s =
    (Ok tt, set_area_list
              (fun l => <[ai := set_FLAGS (<[Z.to_nat k := v]> (FLAGS a)) a]> l) s).
Proof.
  intros Ha Hk Hv. unfold store_flag, py_setitem. rewrite Ha.
  destruct (k <? 0) eqn:E; [lia|]. rewrite E.
  destruct (Z.of_nat (length (FLAGS a)) <=? k) eqn:E2; [lia|].
  destruct (v <? 0) eqn:E3; [lia|].
  destruct (256 <=? v) eqn:E4; [lia|]. reflexivity.
Qed.

Lemma load_flag_ok s ai a k x :
  area_list s !! ai = Some a -> 0 <= k -> FLAGS a !! Z.to_nat k = Some x ->
  load_flag ai k s = (Ok x, s).
Proof.
  intros Ha Hk Hx. unfold load_flag. rewrite Ha.
  now rewrite (py_index_ok _ _ _ Hk Hx).
Qed.

(** [flags[k] |= fl] on an [UNK] byte stores [fl]. *)
Lemma or_flag_unk s ai a k fl :
  area_list s !! ai = Some a -> 0 <= k ->
  FLAGS a !! Z.to_nat k = Some UNK -> 0 <= fl < 256 ->
  or_flag ai k fl s =
    (Ok tt, set_area_list
              (fun l => <[ai := set_FLAGS (<[Z.to_nat k := fl]> (FLAGS a)) a]> l) s).
Proof.
  intros Ha Hk Hx Hfl. unfold or_flag.
  rewrite (bind_ok _ _ _ _ _ (load_flag_ok s ai a k UNK Ha Hk Hx)).
  apply store_flag_ok; auto. apply lookup_lt_Some in Hx. lia.
Qed.

(** The loop of [make_code]/[make_data] over a window of [UNK] bytes. *)
Lemma or_flags_loop_unk (n : nat) : forall ai off i fl s a,
  area_list s !! ai = Some a -> 0 <= off + 1 + i -> 0 <= fl < 256 ->
  (forall k : nat, off + 1 + i <= Z.of_nat k < off + 1 + i + Z.of_nat n ->
                   FLAGS a !! k = Some UNK) ->
  exists s' a',
    or_flags_loop n ai off i fl s = (Ok tt, s') /\
    area_list s' !! ai = Some a' /\
    (forall k : nat, off + 1 + i <= Z.of_nat k < off + 1 + i + Z.of_nat n ->
                     FLAGS a' !! k = Some fl) /\
    (forall k : nat, Z.of_nat k < off + 1 + i \/
                     off + 1 + i + Z.of_nat n <= Z.of_nat k ->
                     FLAGS a' !! k = FLAGS a !! k).
Proof.
  induction n as [|n IH]; intros ai off i fl s a Ha H0 Hfl Hunk; simpl.
  - exists s, a. repeat split; auto. intros; lia.
  - assert (Hk : FLAGS a !! Z.to_nat (off + 1 + i) = Some UNK)
      by (apply Hunk; lia).
    rewrite (bind_ok _ _ _ _ _ (or_flag_unk s ai a _ fl Ha H0 Hk Hfl)).
    set (a1 := set_FLAGS (<[Z.to_nat (off + 1 + i) := fl]> (FLAGS a)) a).
    set (s1 := set_area_list _ s).
    assert (Ha1 : area_list s1 !! ai = Some a1).
    { subst s1. simpl. apply list_lookup_insert_eq. now apply lookup_lt_Some in Ha. }
    destruct (IH ai off (i + 1) fl s1 a1 Ha1 ltac:(lia) Hfl) as
      (s' & a' & Hrun & Ha' & Hin & Hout).
    { intros k Hk'. subst a1; simpl.
      rewrite list_lookup_insert_ne by lia. apply Hunk. lia. }
    exists s', a'. split; [exact Hrun|]. split; [exact Ha'|]. split.
    + intros k Hk'. destruct (decide (Z.of_nat k = off + 1 + i)) as [E|E].
      * rewrite Hout by lia. subst a1; simpl.
        replace k with (Z.to_nat (off + 1 + i)) by lia.
        apply list_lookup_insert_eq. apply lookup_lt_Some in Hk. exact Hk.
      * apply Hin. lia.
    + intros k Hk'. rewrite Hout by lia. subst a1; simpl.
      apply list_lookup_insert_ne. lia.
Qed.

Lemma frame_lookup_back ai lo hi s s' j b' :
  flags_changed_within ai lo hi s s' -> area_list s' !! j = Some b' ->
  exists b, area_list s !! j = Some b /\ START b' = START b /\ END b' = END b /\
            BYTES b' = BYTES b /\ length (FLAGS b') = length (FLAGS b).
Proof.
  intros (_ & _ & _ & _ & Hlen & H) Hj.
  assert (Hlt : (j < length (area_list s))%nat)
    by (rewrite <- Hlen; now apply lookup_lt_Some in Hj).
  destruct (lookup_lt_is_Some_2 _ _ Hlt) as [b Hb].
  destruct (H j b Hb) as (b'' & Hb'' & ? & ? & ? & ? & ? & _).
  exists b. replace b' with b'' by congruence. auto.
Qed.

Lemma frame_non_overlapping ai lo hi s s' :
  flags_changed_within ai lo hi s s' ->
  non_overlapping (area_list s) -> non_overlapping (area_list s').
Proof.
  intros Hf Hno i j a' b' addr Hi Hj Ha Hb.
  destruct (frame_lookup_back _ _ _ _ _ _ _ Hf Hi) as (a & Hia & Sa & Ea & _).
  destruct (frame_lookup_back _ _ _ _ _ _ _ Hf Hj) as (b & Hjb & Sb & Eb & _).
  apply (Hno i j a b addr Hia Hjb); unfold in_area in *; congruence.
Qed.

(** The effect of [make_code] on a window of [UNK] bytes. *)
Lemma make_code_unk s addr n ai a :
  non_overlapping (area_list s) -> area_list s !! ai = Some a ->
  1 <= n -> START a <= addr <= END a ->
  (forall b, addr <= b < addr + n ->
             FLAGS a !! Z.to_nat (b - START a) = Some UNK) ->
  exists s' a',
    make_code addr n s = (Ok tt, s') /\
    flags_changed_within ai (addr - START a) (addr - START a + n) s s' /\
    area_list s' !! ai = Some a' /\
    FLAGS a' !! Z.to_nat (addr - START a) = Some CODE /\
    (forall b, addr + 1 <= b < addr + n ->
               FLAGS a' !! Z.to_nat (b - START a) = Some CODE_CONT).
Proof.
  intros Hno Hai Hn Hin Hunk.
  pose proof (or_writer_frame s addr n ai a CODE CODE_CONT Hno Hai Hn Hin) as Hfr.
  fold (make_code addr n) in Hfr.
  assert (Ha : in_area a addr = true) by (apply in_area_iff; lia).
  unfold make_code in *.
  destruct (addr2area_in s addr ai a Hno Hai Ha) as (s0 & Hrun & Hsame).
  rewrite (bind_ok _ _ _ _ _ Hrun) in *.
  pose proof Hsame as (Hal & _).
  assert (Hai0 : area_list s0 !! ai = Some a) by now rewrite Hal.
  rewrite (bind_ok _ _ _ _ _ (deref_some s0 _ ai a Hai0)) in *.
  set (off := addr - START a) in *.
  assert (Hoff : FLAGS a !! Z.to_nat off = Some UNK) by (apply Hunk; lia).
  assert (Hc : 0 <= CODE < 256) by (unfold CODE; lia).
  assert (Hcc : 0 <= CODE_CONT < 256) by (unfold CODE_CONT; lia).
  rewrite (bind_ok _ _ _ _ _ (or_flag_unk s0 ai a off CODE Hai0 ltac:(lia) Hoff Hc))
    in *.
  set (a1 := set_FLAGS (<[Z.to_nat off := CODE]> (FLAGS a)) a) in *.
  set (s1 := set_area_list _ s0) in *.
  assert (Ha1 : area_list s1 !! ai = Some a1).
  { subst s1. simpl. apply list_lookup_insert_eq. now apply lookup_lt_Some in Hai0. }
  destruct (or_flags_loop_unk (Z.to_nat (n - 1)) ai off 0 CODE_CONT s1 a1 Ha1
              ltac:(lia) Hcc) as (s' & a' & Hloop & Ha' & Hwin & Hout).
  { intros k Hk. subst a1; simpl. rewrite list_lookup_insert_ne by lia.
    replace k with (Z.to_nat ((START a + Z.of_nat k) - START a)) by lia.
    apply Hunk. lia. }
  exists s', a'. rewrite Hloop in *. simpl in Hfr.
  split; [reflexivity|]. split; [exact Hfr|]. split; [exact Ha'|]. split.
  - rewrite Hout by lia. subst a1; simpl.
    apply list_lookup_insert_eq. now apply lookup_lt_Some in Hoff.
  - intros b Hb. apply Hwin. lia.
Qed.

(** C1 (amended).  Let [addr .. addr + n] lie in one area, with [n >= 1], all
    flags of [addr .. addr + n - 1] equal to [UNK], and the flag at
    [addr + n] not [CODE_CONT].  Then [make_code(addr, n)] returns, after it
    [get_unit_size(addr)] returns [n], and every byte of
    [addr + 1 .. addr + n - 1] has flag [CODE_CONT]. *)
Theorem make_code_unit_size (s : AddressSpace) (addr n : Z) (ai : nat) (a : area) :
  non_overlapping (area_list s) ->
  area_list s !! ai = Some a -> wf_area a ->
  1 <= n -> START a <= addr -> addr + n <= END a ->
  (forall b, addr <= b < addr + n ->
             FLAGS a !! Z.to_nat (b - START a) = Some UNK) ->
  FLAGS a !! Z.to_nat (addr + n - START a) <> Some CODE_CONT ->
  exists s',
    make_code addr n s = (Ok tt, s') /\
    (get_unit_size addr s').1 = Ok n /\
    (forall b, addr + 1 <= b < addr + n -> (get_flags b s').1 = Ok CODE_CONT).
Proof.
  intros Hno Hai [_ Hwf] Hn Hlo Hhi Hunk Hnext.
  destruct (make_code_unk s addr n ai a Hno Hai Hn ltac:(lia) Hunk)
    as (s' & a' & Hrun & Hfr & Hai' & Hhead & Htail).
  exists s'. split; [exact Hrun|].
  pose proof (frame_non_overlapping _ _ _ _ _ Hfr Hno) as Hno'.
  pose proof Hfr as (_ & _ & _ & _ & _ & Hareas).
  destruct (Hareas ai a Hai) as (a'' & Hai'' & HS & HE & _ & _ & Hlen & _ & Hout).
  replace a'' with a' in * by congruence. clear Hai''.
  assert (Hres : forall b, addr <= b < addr + n ->
            exists s2, addr2area b s' = (Ok (Some (b - START a, ai)), s2) /\
                       area_list s2 !! ai = Some a').
  { intros b Hb.
    destruct (addr2area_in s' b ai a' Hno' Hai') as (s2 & Hr & Hal & _).
    { apply in_area_iff. lia. }
    exists s2. rewrite Hr, HS, Hal. auto. }
  split.
  - unfold get_unit_size.
    destruct (Hres addr ltac:(lia)) as (s2 & Hr & Hai2).
    rewrite (bind_ok _ _ _ _ _ Hr).
    rewrite (bind_ok _ _ _ _ _ (deref_some s2 _ ai a' Hai2)).
    unfold_M.
    rewrite (py_index_ok (FLAGS a') (addr - START a) CODE ltac:(lia) Hhead). simpl.
    assert (Hlt : (Z.to_nat (addr + n - START a) < length (FLAGS a))%nat) by lia.
    destruct (lookup_lt_is_Some_2 _ _ Hlt) as [x Hx].
    rewrite (scan_flags_run (FLAGS a') CODE_CONT (addr - START a + 1) 1
               (Z.to_nat (n - 1)) x).
    + simpl. f_equal. lia.
    + lia.
    + intros i Hi.
      replace (addr - START a + 1 + Z.of_nat i)
        with ((addr + 1 + Z.of_nat i) - START a) by lia.
      apply Htail. lia.
    + replace (addr - START a + 1 + Z.of_nat (Z.to_nat (n - 1)))
        with (addr + n - START a) by lia.
      rewrite Hout by lia. exact Hx.
    + intros ->. now apply Hnext.
  - intros b Hb. unfold get_flags.
    destruct (Hres b ltac:(lia)) as (s2 & Hr & Hai2).
    rewrite (bind_ok _ _ _ _ _ Hr).
    rewrite (bind_ok _ _ _ _ _ (deref_some s2 _ ai a' Hai2)).
    unfold_M.
    now rewrite (py_index_ok (FLAGS a') (b - START a) CODE_CONT ltac:(lia) (Htail b Hb)).
Qed.

Lemma make_code_unit_size_witness :
  exists s',
    make_code 0 2 AS_0_3 = (Ok tt, s') /\
    (get_unit_size 0 s').1 = Ok 2 /\
    (forall b, 0 + 1 <= b < 0 + 2 -> (get_flags b s').1 = Ok CODE_CONT).
Proof.
  apply (make_code_unit_size AS_0_3 0 2 0
           (mk_area 0 3 "" [0; 0; 0; 0] [0; 0; 0; 0])).
  - intros [|i] [|j] a b addr Hi Hj; simpl in *; try discriminate; auto.
  - reflexivity.
  - split; reflexivity.
  - lia.
  - simpl; lia.
  - simpl; lia.
  - intros b Hb. simpl.
    assert (b = 0 \/ b = 1) as [-> | ->] by lia; reflexivity.
  - simpl. discriminate.
Defined.

(** C1 as stated fails in two ways.  A unit that reaches the last byte of
    its area makes [get_unit_size] run off the flag buffer; and a
    [CODE_CONT] left just behind the window (here by undefining the first
    half of an older instruction) is counted into the new unit. *)
Lemma make_code_unit_size_counterexample :
  (make_code 0 4 AS_0_3).1 = Ok tt /\
  (get_unit_size 0 (make_code 0 4 AS_0_3).2).1 = Raise IndexError /\
  let s := ((make_code 0 4;; make_undefined 0 2) AS_0_4).2 in
  (forall b, 0 <= b < 0 + 2 -> (get_flags b s).1 = Ok UNK) /\
  (make_code 0 2 s).1 = Ok tt /\
  (get_unit_size 0 (make_code 0 2 s).2).1 = Ok 4.
Proof.
  split; [reflexivity|]. split; [reflexivity|]. split; [|split; reflexivity].
  intros b Hb. assert (b = 0 \/ b = 1) as [-> | ->] by lia; reflexivity.
Qed.

(** ** [get_data] *)

Lemma get_data_outside s addr sz :
  (forall j b, area_list s !! j = Some b -> in_area b addr = false) ->
  1 <= sz ->
  (get_data addr sz s).1 = Raise TypeError.
Proof.
  intros Hout Hsz. unfold get_data.
  destruct (addr2area_sound s addr) as (r & s' & Hrun & _ & Hr).
  rewrite (bind_ok _ _ _ _ _ Hrun).
  destruct r as [[off i]|].
  - destruct Hr as (a & Hi & Ha & _). rewrite (Hout i a Hi) in Ha. discriminate.
  - destruct (Z.to_nat sz) as [|n] eqn:E; [lia|]. reflexivity.
Qed.

Lemma get_byte_outside s addr :
  (forall j b, area_list s !! j = Some b -> in_area b addr = false) ->
  (get_byte addr s).1 = Raise (InvalidAddrException addr) /\
  (forall sz, (get_bytes addr sz s).1 = Raise (InvalidAddrException addr)) /\
  (get_flags addr s).1 = Raise (InvalidAddrException addr).
Proof.
  intros Hout.
  destruct (addr2area_sound s addr) as (r & s' & Hrun & _ & Hr).
  destruct r as [[off i]|].
  - destruct Hr as (a & Hi & Ha & _). rewrite (Hout i a Hi) in Ha. discriminate.
  - unfold get_byte, get_bytes, get_flags.
    repeat split; intros; now rewrite (bind_ok _ _ _ _ _ Hrun).
Qed.

(** C2, the failing input.  Address [0x10] lies outside the only area
    [0, 3]: [get_byte], [get_bytes] and [get_flags] raise
    [InvalidAddrException], but [get_data] subscripts the missing area and
    raises [TypeError] for every size in 1, 2, 4. *)
Theorem get_data_outside_raises_TypeError :
  (get_byte 16 AS_0_3).1 = Raise (InvalidAddrException 16) /\
  (get_bytes 16 4 AS_0_3).1 = Raise (InvalidAddrException 16) /\
  (get_flags 16 AS_0_3).1 = Raise (InvalidAddrException 16) /\
  (get_data 16 1 AS_0_3).1 = Raise TypeError /\
  (get_data 16 2 AS_0_3).1 = Raise TypeError /\
  (get_data 16 4 AS_0_3).1 = Raise TypeError.
Proof. repeat split; reflexivity. Qed.

Lemma lor_shift_byte val b i :
  0 <= i -> 0 <= val < 2 ^ (8 * i) -> 0 <= b < 256 ->
  Z.lor val (Z.shiftl b (8 * i)) = val + 2 ^ (8 * i) * b.
Proof.
  intros Hi Hval Hb. rewrite Z.shiftl_mul_pow2 by lia.
  assert (Hland : Z.land val (b * 2 ^ (8 * i)) = 0).
  { apply Z.bits_inj'. intros n Hn. rewrite Z.land_spec, Z.bits_0.
    destruct (Z.lt_ge_cases n (8 * i)).
    - rewrite (Z.mul_pow2_bits_low b (8 * i) n) by lia. apply andb_false_r.
    - destruct (Z.eq_dec val 0) as [->|Hnz]; [now rewrite Z.bits_0|].
      rewrite (Z.bits_above_log2 val n); [reflexivity | lia |].
      apply Z.log2_lt_pow2; [lia|].
      apply Z.lt_le_trans with (2 ^ (8 * i)); [lia|].
      apply Z.pow_le_mono_r; lia. }
  rewrite <- Z.lxor_lor by exact Hland.
  rewrite <- Z.add_nocarry_lxor by exact Hland. lia.
Qed.

Lemma le_value_bound bs :
  Forall (fun b => 0 <= b < 256) bs ->
  0 <= le_value bs < 2 ^ (8 * Z.of_nat (length bs)).
Proof.
  induction 1 as [|b bs Hb _ IH]; simpl length; simpl le_value.
  - simpl. lia.
  - replace (8 * Z.of_nat (S (length bs))) with (8 + 8 * Z.of_nat (length bs)) by lia.
    rewrite Z.pow_add_r by lia. change (2 ^ 8) with 256. lia.
Qed.

Lemma get_data_loop_le (n : nat) : forall s off ai a i val,
  area_list s !! ai = Some a -> 0 <= off -> 0 <= i ->
  Forall (fun b => 0 <= b < 256) (BYTES a) ->
  (Z.to_nat (off + i) + n <= length (BYTES a))%nat ->
  0 <= val < 2 ^ (8 * i) ->
  get_data_loop n (Some (off, ai)) i val s =
    (Ok (val + 2 ^ (8 * i) * le_value (take n (drop (Z.to_nat (off + i)) (BYTES a)))), s).
Proof.
  induction n as [|n IH]; intros s off ai a i val Hai Hoff Hi Hbytes Hlen Hval.
  - simpl. unfold_M. do 2 f_equal. lia.
  - cbn [get_data_loop].
    rewrite (bind_ok _ _ _ _ _ (deref_some s off ai a Hai)).
    assert (Hlt : (Z.to_nat (off + i) < length (BYTES a))%nat) by lia.
    destruct (lookup_lt_is_Some_2 _ _ Hlt) as [b Hb].
    assert (Hbr : 0 <= b < 256).
    { rewrite Forall_forall in Hbytes. apply Hbytes.
      eapply list_elem_of_lookup_2. exact Hb. }
    assert (Hidx : lift (py_index (BYTES a) (off + i)) s = (Ok b, s)).
    { unfold lift. now rewrite (py_index_ok (BYTES a) (off + i) b ltac:(lia) Hb). }
    rewrite (bind_ok _ _ _ _ _ Hidx).
    rewrite (lor_shift_byte val b i Hi Hval Hbr).
    rewrite (IH s off ai a (i + 1)); auto; try lia.
    + do 2 f_equal.
      rewrite (drop_S _ _ _ Hb). simpl.
      replace (Z.to_nat (off + (i + 1))) with (S (Z.to_nat (off + i))) by lia.
      replace (8 * (i + 1)) with (8 * i + 8) by lia.
      rewrite Z.pow_add_r by lia. change (2 ^ 8) with 256. lia.
    + replace (8 * (i + 1)) with (8 * i + 8) by lia.
      rewrite Z.pow_add_r by lia. change (2 ^ 8) with 256. nia.
Qed.

(** The in-range half of C2: inside an area, [get_data] is the
    little-endian value of the [sz] bytes at [addr]. *)
Lemma get_data_little_endian s addr sz ai a :
  non_overlapping (area_list s) -> area_list s !! ai = Some a -> wf_area a ->
  Forall (fun b => 0 <= b < 256) (BYTES a) ->
  0 <= sz -> START a <= addr -> addr + sz - 1 <= END a ->
  (get_data addr sz s).1 =
    Ok (le_value (take (Z.to_nat sz) (drop (Z.to_nat (addr - START a)) (BYTES a)))).
Proof.
  intros Hno Hai [Hwf _] Hbytes Hsz Hlo Hhi.
  destruct (Z.eq_dec sz 0) as [->|Hnz].
  { unfold get_data. destruct (addr2area_sound s addr) as (r & s' & Hrun & _).
    now rewrite (bind_ok _ _ _ _ _ Hrun). }
  unfold get_data.
  destruct (addr2area_in s addr ai a Hno Hai) as (s' & Hrun & Hal & _).
  { apply in_area_iff. lia. }
  rewrite (bind_ok _ _ _ _ _ Hrun).
  rewrite (get_data_loop_le (Z.to_nat sz) s' (addr - START a) ai a 0 0);
    try lia; auto.
  - simpl. f_equal. rewrite Z.add_0_r. lia.
  - now rewrite Hal.
Qed.

(** ** Labels: [resolve_label] after [get_label] *)

Lemma get_flags_pure s addr fl :
  non_overlapping (area_list s) -> flags_at (area_list s) addr = Some fl ->
  exists s', get_flags addr s = (Ok fl, s') /\ same_but_cache s s'.
Proof.
  intros Hno Hfl. unfold flags_at in Hfl.
  destruct (addr2area_sound s addr) as (r & s' & Hrun & Hsame & Hr).
  exists s'. split; [|exact Hsame]. unfold get_flags.
  rewrite (bind_ok _ _ _ _ _ Hrun). pose proof Hsame as (Hal & _).
  destruct r as [[off i]|].
  - destruct Hr as (a & Hi & Ha & -> & _).
    rewrite (linear_scan_unique _ _ i a Hno Hi Ha) in Hfl.
    rewrite (bind_ok _ _ _ _ _ (deref_some s' _ i a ltac:(now rewrite Hal))).
    unfold lift. rewrite (py_index_ok (FLAGS a) (addr - START a) fl); auto.
    apply in_area_iff in Ha. lia.
  - destruct Hr as (Hnone & _). now rewrite (linear_scan_none _ _ Hnone) in Hfl.
Qed.

Lemma get_default_label_pure s n fl :
  non_overlapping (area_list s) -> flags_at (area_list s) n = Some fl ->
  exists s', get_default_label n s = (Ok (prefix_of_flags fl +:+ fmt_08x n), s') /\
             same_but_cache s s'.
Proof.
  intros Hno Hfl. destruct (get_flags_pure s n fl Hno Hfl) as (s' & Hrun & Hsame).
  exists s'. split; [|exact Hsame].
  unfold get_default_label, get_default_label_prefix.
  rewrite (bind_ok _ _ _ _ _ (bind_ok _ _ _ _ _ Hrun)). reflexivity.
Qed.

Lemma dict_get_lookup {V} k (d : list (Z * V)) v :
  dict_get k d = Some v ->
  exists i, d !! i = Some (k, v) /\
            forall j e, (j < i)%nat -> d !! j = Some e -> e.1 <> k.
Proof.
  induction d as [|[k' v'] d IH]; simpl; [discriminate|].
  destruct (k' =? k) eqn:E.
  - intros [= ->]. apply Z.eqb_eq in E as ->. exists 0%nat. split; auto.
    intros; lia.
  - intros H. destruct (IH H) as (i & Hi & Hfirst). exists (S i). split; auto.
    intros [|j] e Hj He; simpl in *.
    + injection He as <-. simpl. apply Z.eqb_neq in E. exact E.
    + apply (Hfirst j); auto. lia.
Qed.

(** The loop of [resolve_label] stops at the first entry that stands for
    [t]. *)
Lemma resolve_label_loop_first (items : list (Z * label)) : forall s t i e,
  non_overlapping (area_list s) ->
  (forall ea n, (ea, LInt n) ∈ items -> is_Some (flags_at (area_list s) n)) ->
  items !! i = Some e -> label_text (area_list s) e = Some t ->
  (forall j e', (j < i)%nat -> items !! j = Some e' ->
                label_text (area_list s) e' <> Some t) ->
  exists s', resolve_label_loop items t s = (Ok (Some e.1), s') /\
             same_but_cache s s'.
Proof.
  induction items as [|[ea l] items IH]; intros s t i e Hno Hauto Hi Ht Hfirst.
  - now rewrite lookup_nil in Hi.
  - destruct i as [|i]; simpl in Hi.
    + injection Hi as <-. destruct l as [n|x]; simpl in *.
      * unfold label_text in Ht; simpl in Ht.
        destruct (flags_at (area_list s) n) as [fl|] eqn:Hfl; [|discriminate].
        injection Ht as <-.
        destruct (get_default_label_pure s n fl Hno Hfl) as (s' & Hrun & Hsame).
        exists s'. rewrite (bind_ok _ _ _ _ _ Hrun).
        destruct (String.eqb_spec (prefix_of_flags fl +:+ fmt_08x n)
                    (prefix_of_flags fl +:+ fmt_08x n)); [auto | congruence].
      * injection Ht as ->. exists s.
        destruct (String.eqb_spec t t); [|congruence].
        split; [reflexivity | apply same_but_cache_refl].
    + assert (Hne : label_text (area_list s) (ea, l) <> Some t)
        by (apply (Hfirst 0%nat); [lia | reflexivity]).
      assert (Htail : forall s1, same_but_cache s s1 ->
                exists s', resolve_label_loop items t s1 = (Ok (Some e.1), s') /\
                           same_but_cache s1 s').
      { intros s1 (Hal & _). apply (IH s1 t i e); rewrite ?Hal; auto.
        - intros ea' n' Hin. apply (Hauto ea' n'). now right.
        - intros j e' Hj He'. apply (Hfirst (S j)); [lia | exact He']. }
      destruct l as [n|x]; simpl.
      * destruct (Hauto ea n ltac:(left)) as [fl Hfl].
        destruct (get_default_label_pure s n fl Hno Hfl) as (s1 & Hrun & Hsame).
        rewrite (bind_ok _ _ _ _ _ Hrun).
        destruct (String.eqb_spec (prefix_of_flags fl +:+ fmt_08x n) t) as [E|E].
        { exfalso. apply Hne. unfold label_text; simpl. rewrite Hfl; simpl.
          now rewrite E. }
        destruct (Htail s1 Hsame) as (s' & Hrun' & Hsame').
        exists s'. split; [exact Hrun'|].
        eapply same_but_cache_trans; eauto.
      * destruct (String.eqb_spec x t) as [E|E].
        { exfalso. apply Hne. unfold label_text; simpl. now rewrite E. }
        apply Htail, same_but_cache_refl.
Qed.

(** C8 (amended).  If every auto marker sits under its own, valid address and
    no two entries of the label table stand for the same string, then for
    every address [a] with an entry, [get_label(a)] returns a string and
    [resolve_label] of that string returns [a]. *)
Theorem resolve_label_get_label (s : AddressSpace) (a : Z) (l : label) :
  non_overlapping (area_list s) ->
  auto_labels_ok s -> label_texts_unique s ->
  dict_get a (labels s) = Some l ->
  exists t s1 s2,
    get_label a s = (Ok (Some t), s1) /\
    resolve_label t s1 = (Ok (Some a), s2).
Proof.
  intros Hno Hauto Huniq Hget.
  destruct (dict_get_lookup a (labels s) l Hget) as (i & Hi & _).
  assert (Hin : (a, l) ∈ labels s) by (eapply list_elem_of_lookup_2; eauto).
  assert (Hgl : exists t s1, get_label a s = (Ok (Some t), s1) /\
                  same_but_cache s s1 /\
                  label_text (area_list s) (a, l) = Some t).
  { unfold get_label. unfold_M. rewrite Hget. destruct l as [n|x].
    - destruct (Hauto a n Hin) as [-> [fl Hfl]].
      destruct (get_flags_pure s a fl Hno Hfl) as (s1 & Hrun & Hsame).
      unfold get_default_label_prefix. unfold_M. rewrite Hrun.
      eexists _, _. split; [reflexivity|]. split; [exact Hsame|].
      unfold label_text; simpl. now rewrite Hfl.
    - eexists _, _. split; [reflexivity|]. split; [apply same_but_cache_refl|].
      reflexivity. }
  destruct Hgl as (t & s1 & Hrun & Hsame & Ht).
  pose proof Hsame as (Hal & Hlab & _).
  destruct (resolve_label_loop_first (labels s) s1 t i (a, l)) as (s2 & Hres & _);
    rewrite ?Hal; auto.
  - intros ea n Hn. now destruct (Hauto ea n Hn).
  - intros j e' Hj He' Hte'.
    pose proof (Huniq j i e' (a, l) t He' Hi Hte' Ht). lia.
  - exists t, s1, s2. split; [exact Hrun|].
    unfold resolve_label. unfold_M. now rewrite Hlab.
Qed.

Lemma resolve_label_get_label_witness :
  exists t s1 s2,
    get_label 1 AS_labels = (Ok (Some t), s1) /\
    resolve_label t s1 = (Ok (Some 1), s2).
Proof.
  assert (Hlab : labels AS_labels = [(1, LInt 1); (2, LStr "foo")])
    by reflexivity.
  apply (resolve_label_get_label AS_labels 1 (LInt 1)).
  - intros [|i] [|j] a b addr Hi Hj; simpl in *; try discriminate; auto.
  - intros ea n Hin. rewrite Hlab in Hin.
    apply elem_of_cons in Hin as [[= -> ->] | Hin].
    + split; [reflexivity | now exists 0].
    + apply elem_of_cons in Hin as [[=] | Hin]. now apply elem_of_nil in Hin.
  - intros i j e1 e2 t Hi Hj H1 H2. rewrite Hlab in Hi, Hj.
    destruct i as [|[|i]], j as [|[|j]]; simpl in Hi, Hj;
      try discriminate; auto;
      injection Hi as <-; injection Hj as <-;
      vm_compute in H1, H2; congruence.
  - reflexivity.
Defined.

(** C8 as stated fails in two ways: [set_label] can give one string to two
    addresses, and [resolve_label] then answers the older one; and an auto
    marker outside every area makes [get_label] raise. *)
Lemma resolve_label_get_label_counterexample :
  dict_get 2 (labels AS_dup_labels) = Some (LStr "foo") /\
  (resolve_get_label 2 AS_dup_labels).1 = Ok (Some 1) /\
  dict_get 256 (labels (make_auto_label 256 AS_0_3).2) = Some (LInt 256) /\
  (resolve_get_label 256 (make_auto_label 256 AS_0_3).2).1 =
    Raise (InvalidAddrException 256).
Proof. repeat split; reflexivity. Qed.

(** ** Rendering: the scenario with an xref and a label *)



(** ** Rendering: what the line budget counts *)

Lemma bind_inv {S A B} (m : M S A) (k : A -> M S B) s b s2 :
  (m ≫= k) s = (Ok b, s2) ->
  exists a s1, m s = (Ok a, s1) /\ k a s1 = (Ok b, s2).
Proof.
  unfold_M. destruct (m s) as [[a|e] s1]; [eauto | discriminate].
Qed.

Lemma real_lines_from_app t l1 l2 :
  real_lines_from t (l1 ++ l2) = real_lines_from t l1 + real_lines_from t l2.
Proof. unfold real_lines_from. rewrite filter_app, length_app. lia. Qed.

Lemma real_lines_from_virtual t o k :
  virtual o = true -> real_lines_from t [(o, k)] = 0.
Proof.
  intros Hv. unfold real_lines_from. rewrite filter_cons_False; [reflexivity|].
  simpl. rewrite Hv. simpl. discriminate.
Qed.

Lemma real_lines_from_real t o k :
  virtual o = false ->
  real_lines_from t [(o, k)] = if t <=? obj_ea o then 1 else 0.
Proof.
  intros Hv. unfold real_lines_from.
  destruct (t <=? obj_ea o) eqn:E.
  - rewrite filter_cons_True; [reflexivity|]. simpl. now rewrite Hv, E.
  - rewrite filter_cons_False; [reflexivity|]. simpl. rewrite Hv, E. discriminate.
Qed.

Lemma grows_refl t rs : grows t 0 rs rs.
Proof. exists []. now rewrite app_nil_r. Qed.

Lemma grows_trans t d1 d2 rs1 rs2 rs3 :
  grows t d1 rs1 rs2 -> grows t d2 rs2 rs3 -> grows t (d1 + d2) rs1 rs3.
Proof.
  intros (n1 & H1 & <-) (n2 & H2 & <-). exists (n1 ++ n2).
  rewrite H2, H1, app_assoc. split; [reflexivity | apply real_lines_from_app].
Qed.

Lemma on_AS_model {A} (c : M AddressSpace A) rs r rs' :
  on_AS c rs = (r, rs') -> rs_model rs' = rs_model rs.
Proof.
  unfold on_AS. destruct (c (rs_as rs)) as [r0 s']. now intros [= _ <-].
Qed.

Lemma on_AS_grows {A} t (c : M AddressSpace A) rs r rs' :
  on_AS c rs = (r, rs') -> grows t 0 rs rs'.
Proof.
  intros H. apply on_AS_model in H. exists []. now rewrite H, app_nil_r.
Qed.

Lemma lift_state {S A} (r : result A) (s : S) a s' :
  lift r s = (Ok a, s') -> r = Ok a /\ s' = s.
Proof. unfold lift. now intros [= -> ->]. Qed.

Lemma emit_grows t addr o rs u rs' :
  emit addr o rs = (Ok u, rs') ->
  grows t (if virtual o then 0 else if t <=? obj_ea o then 1 else 0) rs rs'.
Proof.
  unfold emit. intros [= _ <-]. simpl.
  eexists. split; [reflexivity|].
  destruct (virtual o) eqn:Hv.
  - now apply real_lines_from_virtual.
  - now apply real_lines_from_real.
Qed.

Lemma mret_inv {S A} (a b : A) (s s' : S) :
  (mret a : M S A) s = (Ok b, s') -> b = a /\ s' = s.
Proof. unfold_M. now intros [= -> ->]. Qed.

Lemma emit_xrefs_grows t addr xr keys : forall rs u rs',
  emit_xrefs addr xr keys rs = (Ok u, rs') -> grows t 0 rs rs'.
Proof.
  induction keys as [|k keys IH]; intros rs u rs' H; simpl in H.
  - apply mret_inv in H as [_ ->]. apply grows_refl.
  - apply bind_inv in H as ([] & rs1 & H1 & H2).
    destruct (xr !! k) as [ty|]; [|discriminate].
    apply (emit_grows t) in H1. simpl in H1.
    apply IH in H2. apply (grows_trans t 0 0 _ _ _ H1 H2).
Qed.

(** One round of the inner loop emits virtual lines and then exactly one
    non-virtual line at [addr]; the budget goes up by one when [addr] is
    below the target, and down by one. *)
Lemma render_unit_grows p ai i n t rs i' n' rs' :
  0 <= t ->
  render_unit p ai i n t rs = (Ok (i', n'), rs') ->
  exists a, area_list (rs_as rs) !! ai = Some a /\
    grows t (if t <=? START a + i then 1 else 0) rs rs' /\
    n' = (if START a + i <? t then n + 1 else n) - 1.
Proof.
  intros Ht H. unfold render_unit in H.
  apply bind_inv in H as (a & rs1 & Ha & H).
  assert (Hai : area_list (rs_as rs) !! ai = Some a).
  { unfold on_AS, the_area in Ha. destruct (area_list (rs_as rs) !! ai);
      [now injection Ha as -> _ | discriminate]. }
  exists a. split; [exact Hai|].
  apply (on_AS_grows t) in Ha.
  apply bind_inv in H as (xr & rs2 & Hxr & H). apply (on_AS_grows t) in Hxr.
  apply bind_inv in H as ([] & rs3 & Hx & H).
  assert (G3 : grows t 0 rs2 rs3).
  { destruct xr as [xr|].
    - eapply emit_xrefs_grows; eauto.
    - apply mret_inv in Hx as [_ ->]. apply grows_refl. }
  apply bind_inv in H as (lbl & rs4 & Hl & H). apply (on_AS_grows t) in Hl.
  apply bind_inv in H as ([] & rs5 & Hlb & H).
  assert (G5 : grows t 0 rs4 rs5).
  { destruct lbl as [l|]; [destruct (String.eqb l "")|].
    - apply mret_inv in Hlb as [_ ->]. apply grows_refl.
    - apply (emit_grows t) in Hlb. exact Hlb.
    - apply mret_inv in Hlb as [_ ->]. apply grows_refl. }
  apply bind_inv in H as (a' & rs6 & Ha' & H). apply (on_AS_grows t) in Ha'.
  apply bind_inv in H as (f & rs7 & Hf & H).
  apply lift_state in Hf as [_ ->].
  apply bind_inv in H as ([o j] & rs8 & Ho & H).
  apply bind_inv in H as ([] & rs9 & He & H).
  apply mret_inv in H as [[= -> ->] ->].
  assert (Ho' : grows t 0 rs6 rs8 /\ virtual o = false /\ obj_ea o = START a + i).
  { destruct (f =? UNK).
    { apply bind_inv in Ho as (b & r1 & H1 & H2). apply lift_state in H1 as [_ ->].
      apply mret_inv in H2 as [[= -> _] ->]. split; [apply grows_refl | auto]. }
    destruct (f =? DATA).
    { apply bind_inv in Ho as (sz & r1 & H1 & H2). apply lift_state in H1 as [_ ->].
      apply bind_inv in H2 as (v & r2 & H2 & H3). apply (on_AS_grows t) in H2.
      apply mret_inv in H3 as [[= -> _] ->]. auto. }
    destruct (f =? STR).
    { apply bind_inv in Ho as (b & r1 & H1 & H2). apply lift_state in H1 as [_ ->].
      apply bind_inv in H2 as ([sz str] & r2 & H2 & H3).
      apply lift_state in H2 as [_ ->].
      apply mret_inv in H3 as [[= -> _] ->]. split; [apply grows_refl | auto]. }
    destruct (f =? CODE); [|discriminate].
    apply bind_inv in Ho as (sz & r1 & H1 & H2). apply (on_AS_grows t) in H1.
    apply bind_inv in H2 as (d & r2 & H2 & H3). apply (on_AS_grows t) in H2.
    apply mret_inv in H3 as [[= -> _] ->].
    split; [apply (grows_trans t 0 0 _ _ _ H1 H2) | auto]. }
  destruct Ho' as (G8 & Hv & Hea).
  apply (emit_grows t) in He. rewrite Hv, Hea in He.
  split.
  - pose proof (grows_trans t _ _ _ _ _ Ha Hxr) as G.
    pose proof (grows_trans t _ _ _ _ _ G G3) as G'.
    pose proof (grows_trans t _ _ _ _ _ G' Hl) as G''.
    pose proof (grows_trans t _ _ _ _ _ G'' G5) as G6.
    pose proof (grows_trans t _ _ _ _ _ G6 Ha') as G7.
    pose proof (grows_trans t _ _ _ _ _ G7 G8) as G9.
    pose proof (grows_trans t _ _ _ _ _ G9 He) as G10.
    simpl in G10. exact G10.
  - destruct (0 <=? t) eqn:E; [|lia]. reflexivity.
Qed.

Lemma render_units_budget (fuel : nat) : forall p ai i n t rs stop n' rs',
  0 <= t ->
  render_units fuel p ai i n t rs = (Ok (stop, n'), rs') ->
  exists d, grows t d rs rs' /\ n' = n - d /\ (stop = true -> n' = 0).
Proof.
  induction fuel as [|fuel IH]; intros p ai i n t rs stop n' rs' Ht H;
    simpl in H; [discriminate|].
  apply bind_inv in H as (a & rs1 & Ha & H). apply (on_AS_grows t) in Ha.
  destruct (i <? Z.of_nat (length (FLAGS a))).
  - apply bind_inv in H as ([i1 n1] & rs2 & Hu & H).
    apply render_unit_grows in Hu as (a0 & _ & G & Hn1); [|exact Ht].
    pose proof (grows_trans t _ _ _ _ _ Ha G) as G1. simpl in G1.
    destruct (n1 =? 0) eqn:E.
    + apply mret_inv in H as [[= -> ->] ->].
      eexists. split; [exact G1|]. apply Z.eqb_eq in E. split; [|reflexivity].
      destruct (t <=? START a0 + i) eqn:E1, (START a0 + i <? t) eqn:E2; lia.
    + apply IH in H as (d & G2 & -> & Hstop); [|exact Ht].
      eexists. split; [exact (grows_trans t _ _ _ _ _ G1 G2)|].
      split; [|exact Hstop].
      destruct (t <=? START a0 + i) eqn:E1, (START a0 + i <? t) eqn:E2; lia.
  - apply mret_inv in H as [[= -> ->] ->].
    exists 0. split; [exact Ha|]. split; [lia | discriminate].
Qed.

Lemma render_areas_budget (fuel : nat) : forall p area_no start off n t rs stop n' rs',
  0 <= t ->
  render_areas fuel p area_no start off n t rs = (Ok (stop, n'), rs') ->
  exists d, grows t d rs rs' /\ n' = n - d /\ (stop = true -> n' = 0).
Proof.
  induction fuel as [|fuel IH];
    intros p area_no start off n t rs stop n' rs' Ht H; simpl in H;
    [discriminate|].
  apply bind_inv in H as (s & rs1 & Hs & H). apply (on_AS_grows t) in Hs.
  destruct (area_no <? Z.of_nat (length (area_list s))).
  - apply bind_inv in H as (ai & rs2 & Hai & H). apply lift_state in Hai as [_ ->].
    apply bind_inv in H as (a & rs3 & Ha & H). apply (on_AS_grows t) in Ha.
    apply bind_inv in H as ([] & rs4 & Hst & H).
    assert (G4 : grows t 0 rs3 rs4).
    { destruct start.
      - apply mret_inv in Hst as [_ ->]. apply grows_refl.
      - apply (emit_grows t) in Hst. exact Hst. }
    unfold bind in H.
    destruct (render_units fuel p ai (if start then off else 0) n t rs4)
      as [[[stop1 n1]|e] rs5] eqn:Hu; [|discriminate].
    apply render_units_budget in Hu as (d1 & G5 & -> & Hstop1); [|exact Ht].
    pose proof (grows_trans t _ _ _ _ _ Hs Ha) as G.
    pose proof (grows_trans t _ _ _ _ _ G G4) as G'.
    pose proof (grows_trans t _ _ _ _ _ G' G5) as G''. simpl in G''.
    destruct stop1.
    + apply mret_inv in H as [[= -> ->] ->].
      exists d1. split; [exact G''|]. split; [reflexivity | auto].
    + apply bind_inv in H as ([] & rs6 & He & H).
      apply (emit_grows t) in He. simpl in He.
      apply IH in H as (d2 & G7 & -> & Hstop); [|exact Ht].
      pose proof (grows_trans t _ _ _ _ _ G'' He) as G6.
      pose proof (grows_trans t _ _ _ _ _ G6 G7) as G8.
      eexists. split; [exact G8|]. split; [lia | exact Hstop].
  - apply mret_inv in H as [[= -> ->] ->].
    exists 0. split; [exact Hs|]. split; [lia | discriminate].
Qed.

(** C5 (amended).  In [render_partial] with a target address set, the budget
    counts units, not lines: it is incremented once for every unit below
    [target_addr] and decremented once for every unit, so the non-virtual
    lines emitted at addresses [>= target_addr] number exactly the budget
    used; when the rendering stops on the budget, they number the requested
    [num_lines].  Xref, label and literal lines are never counted. *)
Theorem render_partial_budget (fuel : nat) (p : processor)
    (area_no offset num_lines target_addr : Z) (rs rs' : RS)
    (stop : bool) (left_over : Z) :
  0 <= target_addr ->
  render_partial fuel p area_no offset num_lines target_addr rs
    = (Ok (stop, left_over), rs') ->
  exists new,
    _lines (rs_model rs') = _lines (rs_model rs) ++ new /\
    real_lines_from target_addr new = num_lines - left_over /\
    (stop = true -> real_lines_from target_addr new = num_lines).
Proof.
  intros Ht H. unfold render_partial in H.
  apply render_areas_budget in H as (d & (new & Hnew & Hd) & -> & Hstop);
    [|exact Ht].
  exists new. split; [exact Hnew|]. split; [lia|].
  intros E. specialize (Hstop E). lia.
Qed.

Lemma render_partial_budget_witness :
  exists new,
    _lines (rs_model (scenario_render toy_processor 1 1).2) = [] ++ new /\
    real_lines_from 1 new = 1 - 0 /\
    (true = true -> real_lines_from 1 new = 1).
Proof.
  apply (render_partial_budget 100 toy_processor 0 0 1 1
           (mk_RS AS_scenario (Model_init 1 0))
           (scenario_render toy_processor 1 1).2 true 0).
  - lia.
  - reflexivity.
Defined.

(** C5 as stated fails: asked for one line from address 1 on, with more
    material left, the renderer emits three lines at addresses [>= 1] (the
    xref, the label and the unit), and stops on the budget. *)
Lemma render_budget_counts_units_not_lines :
  let r := scenario_render toy_processor 1 1 in
  r.1 = Ok (true, 0) /\
  lines_from 1 (_lines (rs_model r.2)) = 3 /\
  lines_from 1 (_lines (rs_model r.2)) <> 1.
Proof. vm_compute. repeat split; discriminate. Qed.

(** ** The analysis driver: termination, budget and progress calls *)





















(** The code-discovery scenario: from the entry point 0 the driver marks the
    call at 0..4 and the return at 5 as code and records the call xref. *)
Example analyze_call_ret :
  let r := analyze 100 toy_processor (mk_AW AS_call_ret [0] [] 0) in
  r.1 = Ok 3 /\
  map FLAGS (area_list (aw_as r.2)) =
    [[1; 2; 2; 2; 2; 1; 0; 0; 0; 0; 0; 0; 0; 0; 0; 0]] /\
  analisys_stack r.2 = [] /\
  (get_xrefs 5 (aw_as r.2)).1 = Ok (Some {[0 := "c"]}).
Proof. vm_compute. repeat split; reflexivity. Qed.

(** ** Rendering around an address *)


Section Advance.
Variables (s : AddressSpace) (t sub : Z).




End Advance.




Lemma is_cont_true f : is_cont f = true <-> f = CODE_CONT \/ f = DATA_CONT.
Proof. unfold is_cont. rewrite orb_true_iff, !Z.eqb_eq. tauto. Qed.

























(** ** Rendering around an address *)













(** * Persistence *)
(** ** Persistence: text *)

Local Arguments String.append : simpl nomatch.
Local Arguments isspace : simpl never.

Lemma append_assoc (x y z : string) : (x +:+ y) +:+ z = x +:+ (y +:+ z).
Proof. induction x as [|c x IH]; simpl; [reflexivity|f_equal; exact IH]. Qed.

Lemma append_nil_r (x : string) : x +:+ EmptyString = x.
Proof. induction x as [|c x IH]; simpl; [reflexivity|f_equal; exact IH]. Qed.

Lemma all_chars_app p x y :
  all_chars p (x +:+ y) = all_chars p x && all_chars p y.
Proof.
  induction x as [|c x IH]; simpl; [reflexivity|]. rewrite IH.
  now rewrite andb_assoc.
Qed.

Lemma all_chars_impl (p q : ascii -> bool) x :
  (forall c, p c = true -> q c = true) -> all_chars p x = true ->
  all_chars q x = true.
Proof.
  intros Hpq. induction x as [|c x IH]; simpl; [reflexivity|].
  rewrite !andb_true_iff. intros [? ?]. split; auto.
Qed.

Lemma is_word_spec x :
  is_word x = true <->
  x <> EmptyString /\ all_chars (fun c => negb (isspace c)) x = true.
Proof.
  unfold is_word. rewrite andb_true_iff, negb_true_iff, String.eqb_neq. tauto.
Qed.

Lemma is_word_app x y :
  is_word x = true -> all_chars (fun c => negb (isspace c)) y = true ->
  is_word (x +:+ y) = true.
Proof.
  rewrite !is_word_spec, all_chars_app. intros [Hne Hx] Hy. split.
  - destruct x; [congruence|discriminate].
  - now rewrite Hx, Hy.
Qed.

Lemma isspace_LF : isspace LF = true.
Proof. reflexivity. Qed.

(** A line without a line feed, closed by one, is the first line read. *)
Lemma readlines_line l rest :
  all_chars (fun c => negb (Ascii.eqb c LF)) l = true ->
  readlines (l +:+ nl +:+ rest) = (l +:+ nl) :: readlines rest.
Proof.
  change (nl +:+ rest) with (String LF rest).
  induction l as [|c l IH]; intros H.
  - reflexivity.
  - simpl in H. apply andb_true_iff in H as [Hc Hl]. apply negb_true_iff in Hc.
    change (readlines (String c l +:+ String LF rest))
      with (if Ascii.eqb c LF then String c EmptyString :: readlines (l +:+ String LF rest)
            else match readlines (l +:+ String LF rest) with
                 | l0 :: ls => String c l0 :: ls
                 | [] => [String c EmptyString]
                 end).
    rewrite Hc, (IH Hl). reflexivity.
Qed.

Lemma no_space_no_LF l :
  all_chars (fun c => negb (isspace c)) l = true ->
  all_chars (fun c => negb (Ascii.eqb c LF)) l = true.
Proof.
  apply all_chars_impl. intros c Hc.
  destruct (Ascii.eqb_spec c LF) as [->|]; [discriminate|reflexivity].
Qed.

Lemma lstrip_word x :
  starts_word x = true -> lstrip x = x.
Proof.
  destruct x as [|c x]; simpl; [discriminate|].
  intros H. apply negb_true_iff in H. now rewrite H.
Qed.

Lemma starts_word_app x y :
  x <> EmptyString -> starts_word (x +:+ y) = starts_word x.
Proof. destruct x; [congruence|reflexivity]. Qed.

Lemma is_word_starts x : is_word x = true -> starts_word x = true.
Proof.
  rewrite is_word_spec. intros [Hne H]. destruct x as [|c x]; [congruence|].
  simpl in *. now apply andb_true_iff in H as [-> _].
Qed.

(** [split]: a word in front of something that does not go on with it. *)
Lemma split_word w rest :
  is_word w = true -> starts_word rest = false ->
  split (w +:+ rest) = w :: split rest.
Proof.
  rewrite is_word_spec. intros [Hne Hw] Hrest.
  induction w as [|c w IH]; [congruence|]. simpl in Hw.
  apply andb_true_iff in Hw as [Hc Hw]. apply negb_true_iff in Hc.
  simpl. rewrite Hc. destruct w as [|d w].
  - simpl. now rewrite Hrest.
  - rewrite starts_word_app by discriminate.
    assert (Hd : starts_word (String d w) = true).
    { simpl in *. now apply andb_true_iff in Hw as [-> _]. }
    rewrite Hd, IH by (discriminate || assumption). reflexivity.
Qed.

Lemma split_space c rest : isspace c = true -> split (String c rest) = split rest.
Proof. intros H. simpl. now rewrite H. Qed.

Lemma split_line1 w : is_word w = true -> split (w +:+ nl) = [w].
Proof. intros H. now rewrite split_word. Qed.

Lemma split_line2 w1 w2 :
  is_word w1 = true -> is_word w2 = true ->
  split (w1 +:+ " " +:+ w2 +:+ nl) = [w1; w2].
Proof.
  intros H1 H2. rewrite split_word by (assumption || reflexivity).
  f_equal. change (" " +:+ w2 +:+ nl) with (String " " (w2 +:+ nl)).
  rewrite split_space by reflexivity. now apply split_line1.
Qed.

Lemma split_words2 w1 w2 :
  is_word w1 = true -> is_word w2 = true ->
  split (w1 +:+ " " +:+ w2) = [w1; w2].
Proof.
  intros H1 H2. rewrite split_word by (assumption || reflexivity).
  f_equal. change (" " +:+ w2) with (String " " w2).
  rewrite split_space by reflexivity.
  rewrite <- (append_nil_r w2) at 1. now rewrite split_word.
Qed.

Lemma rstrip_spaces x y :
  all_chars isspace y = true -> rstrip (x +:+ y) = rstrip x.
Proof.
  intros Hy. assert (Hn : rstrip y = EmptyString).
  { induction y as [|c y IH]; simpl in *; [reflexivity|].
    apply andb_true_iff in Hy as [Hc Hy]. now rewrite (IH Hy), Hc. }
  induction x as [|c x IH]; simpl; [exact Hn|]. now rewrite IH.
Qed.

Lemma rstrip_no_space x :
  all_chars (fun c => negb (isspace c)) x = true -> rstrip x = x.
Proof.
  induction x as [|c x IH]; simpl; [reflexivity|]. intros H.
  apply andb_true_iff in H as [Hc Hx]. apply negb_true_iff in Hc.
  rewrite (IH Hx), Hc. now destruct x.
Qed.

Lemma rstrip_ends_word x w :
  is_word w = true -> rstrip (x +:+ w) = x +:+ w.
Proof.
  rewrite is_word_spec. intros [Hne Hw].
  induction x as [|c x IH]; simpl.
  - now apply rstrip_no_space.
  - rewrite IH. destruct (x +:+ w) eqn:E; [|reflexivity].
    destruct x; simpl in E; [congruence|discriminate].
Qed.

Lemma rstrip_line x w :
  is_word w = true -> rstrip (x +:+ w +:+ nl) = x +:+ w.
Proof.
  intros H. rewrite <- append_assoc, rstrip_spaces by reflexivity.
  now apply rstrip_ends_word.
Qed.

Lemma rstrip_word_line w : is_word w = true -> rstrip (w +:+ nl) = w.
Proof. intros H. apply (rstrip_line EmptyString w H). Qed.

Lemma take_word_word w rest :
  all_chars (fun c => negb (isspace c)) w = true -> starts_word rest = false ->
  take_word (w +:+ rest) = (w, rest).
Proof.
  intros Hw Hrest. induction w as [|c w IH]; simpl.
  - destruct rest as [|r rest]; [reflexivity|]. simpl in Hrest.
    apply negb_false_iff in Hrest. cbn. now rewrite Hrest.
  - simpl in Hw. apply andb_true_iff in Hw as [Hc Hw]. apply negb_true_iff in Hc.
    now rewrite Hc, (IH Hw).
Qed.

(** [split(None, 1)] of a line made of a word, a blank and a text that
    starts with a character that is not white space. *)
Lemma split1_line w j :
  is_word w = true -> starts_word j = true ->
  split1 (w +:+ " " +:+ j) = [w; j].
Proof.
  intros Hw Hj. unfold split1.
  rewrite lstrip_word
    by (rewrite starts_word_app; [now apply is_word_starts|];
        apply is_word_spec in Hw; tauto).
  destruct (w +:+ " " +:+ j) eqn:E.
  { apply is_word_spec in Hw as [Hne _]. destruct w; [congruence|discriminate]. }
  rewrite <- E. apply is_word_spec in Hw as [_ Hw].
  rewrite (take_word_word w (" " +:+ j) Hw eq_refl).
  change (lstrip (" " +:+ j)) with (lstrip j). rewrite lstrip_word by assumption.
  destruct j; [discriminate|reflexivity].
Qed.

(** ** Persistence: numbers *)

Lemma lower_hex_facts c :
  is_lower_hex c = true ->
  isspace c = false /\ hex_lower c = c /\
  Ascii.eqb c "-" = false /\ Ascii.eqb c "+" = false /\
  Ascii.eqb c "x" = false /\ Ascii.eqb c "X" = false.
Proof.
  intros H. repeat split.
  - unfold isspace, is_lower_hex in *.
    destruct (N_of_ascii c) as [|p]; [discriminate|].
    repeat match goal with
           | |- context [(?a <=? ?b)%N] => destruct (N.leb_spec a b)
           | |- context [(?a =? ?b)%N] => destruct (N.eqb_spec a b)
           | H : context [(?a <=? ?b)%N] |- _ => destruct (N.leb_spec a b)
           end; simpl in *; try reflexivity; try discriminate; lia.
  - unfold hex_lower, is_lower_hex in *.
    repeat match goal with
           | |- context [(?a <=? ?b)%N] => destruct (N.leb_spec a b)
           | H : context [(?a <=? ?b)%N] |- _ => destruct (N.leb_spec a b)
           end; simpl in *; try reflexivity; try discriminate; lia.
  - destruct (Ascii.eqb_spec c "-") as [->|]; [discriminate|reflexivity].
  - destruct (Ascii.eqb_spec c "+") as [->|]; [discriminate|reflexivity].
  - destruct (Ascii.eqb_spec c "x") as [->|]; [discriminate|reflexivity].
  - destruct (Ascii.eqb_spec c "X") as [->|]; [discriminate|reflexivity].
Qed.

Lemma lower_hex_no_space x :
  all_chars is_lower_hex x = true ->
  all_chars (fun c => negb (isspace c)) x = true.
Proof.
  apply all_chars_impl. intros c Hc. now rewrite (proj1 (lower_hex_facts c Hc)).
Qed.

Lemma string_map_lower_hex x :
  all_chars is_lower_hex x = true -> string_map hex_lower x = x.
Proof.
  induction x as [|c x IH]; simpl; [reflexivity|]. intros H.
  apply andb_true_iff in H as [Hc Hx]. rewrite (IH Hx).
  now rewrite (proj1 (proj2 (lower_hex_facts c Hc))).
Qed.

Lemma hex_string_of_uint d :
  all_chars is_lower_hex (HexadecimalString.NilEmpty.string_of_uint d) = true.
Proof. induction d; simpl; auto. Qed.

Lemma zeros_S k : zeros (S k) = String "0" (zeros k).
Proof.
  unfold zeros. simpl. destruct (replicate k "0"%string) eqn:E; reflexivity.
Qed.

Lemma zeros_lower_hex k : all_chars is_lower_hex (zeros k) = true.
Proof. induction k as [|k IH]; [reflexivity|]. rewrite zeros_S. simpl. exact IH. Qed.

Lemma uint_of_string_zeros k d :
  HexadecimalString.NilEmpty.uint_of_string
    (zeros k +:+ HexadecimalString.NilEmpty.string_of_uint d)
  = Some (Nat.iter k Hexadecimal.D0 d).
Proof.
  induction k as [|k IH].
  - apply HexadecimalString.NilEmpty.usu.
  - rewrite zeros_S. simpl. rewrite IH. reflexivity.
Qed.

Lemma of_hex_uint_zeros k d :
  N.of_hex_uint (Nat.iter k Hexadecimal.D0 d) = N.of_hex_uint d.
Proof. induction k as [|k IH]; [reflexivity|]. simpl. exact IH. Qed.

(** [int(x, 16)] of lower-case digits, with or without a minus sign. *)
Lemma int_16_digits (neg : bool) x u :
  x <> EmptyString -> all_chars is_lower_hex x = true ->
  HexadecimalString.NilEmpty.uint_of_string x = Some u ->
  int_16 ((if neg then "-" else EmptyString) +:+ x)
  = Ok (signed neg (Z.of_N (N.of_hex_uint u))).
Proof.
  intros Hne Hx Hu. unfold int_16.
  assert (Hns : all_chars (fun c => negb (isspace c))
                  ((if neg then "-" else EmptyString) +:+ x) = true).
  { rewrite all_chars_app, (lower_hex_no_space x Hx). now destruct neg. }
  assert (Hst : starts_word ((if neg then "-" else EmptyString) +:+ x) = true).
  { destruct neg; [reflexivity|]. destruct x as [|c x]; [congruence|].
    simpl in *. apply andb_true_iff in Hx as [Hc _].
    now rewrite (proj1 (lower_hex_facts c Hc)). }
  rewrite (lstrip_word _ Hst), (rstrip_no_space _ Hns).
  assert (Hsign : strip_sign ((if neg then "-" else EmptyString) +:+ x) = (neg, x)).
  { destruct neg; [reflexivity|]. destruct x as [|c x]; [congruence|].
    simpl in *. apply andb_true_iff in Hx as [Hc _].
    destruct (lower_hex_facts c Hc) as (_ & _ & -> & -> & _). reflexivity. }
  rewrite Hsign.
  assert (H0x : strip_0x x = x).
  { destruct x as [|c1 [|c2 x]]; try reflexivity. simpl in *.
    apply andb_true_iff in Hx as [_ Hx]. apply andb_true_iff in Hx as [Hc _].
    destruct (lower_hex_facts c2 Hc) as (_ & _ & _ & _ & -> & ->).
    now rewrite andb_false_r. }
  rewrite H0x. destruct x as [|c x'] eqn:E; [congruence|].
  rewrite (string_map_lower_hex _ Hx), Hu. reflexivity.
Qed.

Lemma hex_digits_uint n :
  exists d, d <> Hexadecimal.Nil /\
            hex_digits n = HexadecimalString.NilEmpty.string_of_uint d /\
            N.of_hex_uint d = Z.to_N n.
Proof.
  unfold hex_digits. exists (N.to_hex_uint (Z.to_N n)).
  assert (Hnn : N.to_hex_uint (Z.to_N n) <> Hexadecimal.Nil).
  { destruct (Z.to_N n); [discriminate|]. apply HexadecimalPos.Unsigned.to_uint_nonnil. }
  split; [exact Hnn|]. split.
  - destruct (N.to_hex_uint (Z.to_N n)); [congruence|reflexivity..].
  - apply HexadecimalN.Unsigned.of_to.
Qed.

Lemma string_of_uint_nonempty d :
  d <> Hexadecimal.Nil -> HexadecimalString.NilEmpty.string_of_uint d <> EmptyString.
Proof. destruct d; [congruence|discriminate..]. Qed.

Lemma zfill_zeros w x : zfill w x = zeros (w - String.length x) +:+ x.
Proof. reflexivity. Qed.

Lemma zfill_hex_digits w n :
  zfill w (hex_digits n) <> EmptyString /\
  all_chars is_lower_hex (zfill w (hex_digits n)) = true /\
  (0 <= n -> int_16 (zfill w (hex_digits n)) = Ok n) /\
  (0 <= n -> int_16 ("-" +:+ zfill w (hex_digits n)) = Ok (- n)).
Proof.
  destruct (hex_digits_uint n) as (d & Hd & -> & Hval).
  rewrite zfill_zeros. set (k := (w - _)%nat).
  assert (Hne : zeros k +:+ HexadecimalString.NilEmpty.string_of_uint d <> EmptyString).
  { pose proof (string_of_uint_nonempty d Hd).
    destruct (zeros k); [assumption|discriminate]. }
  assert (Hall : all_chars is_lower_hex
                   (zeros k +:+ HexadecimalString.NilEmpty.string_of_uint d) = true)
    by now rewrite all_chars_app, zeros_lower_hex, hex_string_of_uint.
  split; [exact Hne|]. split; [exact Hall|].
  split; intros Hn.
  - etransitivity;
      [exact (int_16_digits false _ _ Hne Hall (uint_of_string_zeros k d))|].
    rewrite of_hex_uint_zeros, Hval. simpl. f_equal. lia.
  - etransitivity;
      [exact (int_16_digits true _ _ Hne Hall (uint_of_string_zeros k d))|].
    rewrite of_hex_uint_zeros, Hval. simpl. f_equal. lia.
Qed.

(** ["%08x" % n] is read back by [int(x, 16)], and is one word. *)
Lemma int_16_fmt_08x n : int_16 (fmt_08x n) = Ok n.
Proof.
  unfold fmt_08x. destruct (Z.ltb_spec n 0).
  - destruct (zfill_hex_digits 7 (- n)) as (_ & _ & _ & H').
    rewrite H' by lia. f_equal. lia.
  - now apply zfill_hex_digits.
Qed.

Lemma fmt_08x_word n : is_word (fmt_08x n) = true.
Proof.
  unfold fmt_08x. destruct (Z.ltb_spec n 0).
  - destruct (zfill_hex_digits 7 (- n)) as (_ & Hall & _).
    apply is_word_spec. split; [discriminate|].
    simpl. now apply lower_hex_no_space.
  - destruct (zfill_hex_digits 8 n) as (Hne & Hall & _).
    apply is_word_spec. split; [exact Hne|]. now apply lower_hex_no_space.
Qed.

Lemma fmt_08x_inj n m : fmt_08x n = fmt_08x m -> n = m.
Proof.
  intros H. pose proof (int_16_fmt_08x n) as Hn. rewrite H, int_16_fmt_08x in Hn.
  congruence.
Qed.

(** ** Persistence: the flag buffers *)

Lemma hex_nibble_val n :
  0 <= n < 16 ->
  hex_val (hex_nibble n) = Some n /\ isspace (hex_nibble n) = false.
Proof.
  intros H. destruct n as [|p|p]; try lia; [split; reflexivity|].
  do 4 (destruct p as [p|p|]; try lia; try (split; reflexivity)).
Qed.

Lemma unhexlify_hexlify b :
  Forall is_byte b -> unhexlify (hexlify b) = Ok b.
Proof.
  induction 1 as [|x b Hx Hb IH]; [reflexivity|]. unfold is_byte in Hx.
  cbn [hexlify unhexlify].
  destruct (hex_nibble_val (x / 16)) as [-> _];
    [split; [apply Z.div_pos; lia | apply Z.div_lt_upper_bound; lia]|].
  destruct (hex_nibble_val (x mod 16)) as [-> _]; [apply Z.mod_pos_bound; lia|].
  rewrite IH. f_equal. f_equal. pose proof (Z.div_mod x 16). lia.
Qed.

Lemma hexlify_no_space b :
  Forall is_byte b -> all_chars (fun c => negb (isspace c)) (hexlify b) = true.
Proof.
  induction 1 as [|x b Hx Hb IH]; [reflexivity|]. unfold is_byte in Hx.
  cbn [hexlify all_chars].
  destruct (hex_nibble_val (x / 16)) as [_ ->];
    [split; [apply Z.div_pos; lia | apply Z.div_lt_upper_bound; lia]|].
  destruct (hex_nibble_val (x mod 16)) as [_ ->]; [apply Z.mod_pos_bound; lia|].
  exact IH.
Qed.

Lemma hexlify_word b :
  Forall is_byte b -> b <> [] -> is_word (hexlify b) = true.
Proof.
  intros Hb Hne. apply is_word_spec. split; [|now apply hexlify_no_space].
  destruct b; [congruence|discriminate].
Qed.

Lemma py_slice_chunk {A} (fl : list A) i :
  0 <= i -> py_slice fl i (i + 32) = take 32 (drop (Z.to_nat i) fl).
Proof.
  intros Hi. unfold py_slice, py_clamp.
  destruct (Z.ltb_spec i 0); [lia|]. destruct (Z.ltb_spec (i + 32) 0); [lia|].
  destruct (Z_le_gt_dec (Z.of_nat (length fl)) i) as [Hge|Hlt].
  - rewrite !Z.min_r by lia.
    rewrite !drop_ge by lia. now rewrite !take_nil.
  - rewrite (Z.min_l i) by lia.
    destruct (Z_le_gt_dec (i + 32) (Z.of_nat (length fl))).
    + rewrite Z.min_l by lia. f_equal. lia.
    + rewrite Z.min_r by lia.
      rewrite !take_ge; [reflexivity|rewrite length_drop; lia..].
Qed.

Lemma put_flags_id ai a s :
  area_list s !! ai = Some a -> put_flags ai (FLAGS a) s = s.
Proof.
  intros H. unfold put_flags, set_area_list. rewrite H.
  replace (set_FLAGS (FLAGS a) a) with a by now destruct a.
  rewrite list_insert_id by exact H. now destruct s.
Qed.

Lemma put_flags_lookup ai a fl s :
  area_list s !! ai = Some a ->
  area_list (put_flags ai fl s) !! ai = Some (set_FLAGS fl a).
Proof.
  intros H. unfold put_flags. simpl. rewrite H.
  apply list_lookup_insert_eq. now apply lookup_lt_Some in H.
Qed.

Lemma put_flags_twice ai a fl1 fl2 s :
  area_list s !! ai = Some a ->
  put_flags ai fl2 (put_flags ai fl1 s) = put_flags ai fl2 s.
Proof.
  intros H. unfold put_flags, set_area_list. simpl. rewrite H.
  rewrite list_lookup_insert_eq by (eapply lookup_lt_Some; eauto).
  now rewrite list_insert_insert_eq.
Qed.

Lemma store_slice_ok ai i l a s :
  area_list s !! ai = Some a ->
  store_slice ai i l s = (Ok tt, put_flags ai (py_setslice (FLAGS a) i l) s).
Proof.
  intros H. unfold store_slice, modify, put_flags, set_area_list. now rewrite H.
Qed.

Lemma readlines_blank rest : readlines (nl +:+ rest) = nl :: readlines rest.
Proof. exact (readlines_line EmptyString rest eq_refl). Qed.

Lemma readlines_line2 w j rest :
  all_chars (fun c => negb (Ascii.eqb c LF)) w = true ->
  all_chars (fun c => negb (Ascii.eqb c LF)) j = true ->
  readlines (w +:+ " " +:+ j +:+ nl +:+ rest)
  = (w +:+ " " +:+ j +:+ nl) :: readlines rest.
Proof.
  intros Hw Hj.
  replace (w +:+ " " +:+ j +:+ nl +:+ rest) with ((w +:+ " " +:+ j) +:+ nl +:+ rest)
    by now rewrite !append_assoc.
  rewrite readlines_line by (rewrite !all_chars_app, Hw, Hj; reflexivity).
  now rewrite !append_assoc.
Qed.

Lemma word_no_LF w :
  is_word w = true -> all_chars (fun c => negb (Ascii.eqb c LF)) w = true.
Proof. intros H. apply no_space_no_LF. now apply is_word_spec in H. Qed.

Lemma lift_ok {S A} (r : result A) (a : A) (s : S) :
  r = Ok a -> lift r s = (Ok a, s).
Proof. now intros ->. Qed.

(** The inner loop of [load_areas] reads back what the inner loop of
    [save_areas] wrote for a buffer of bytes [fl], up to and including the
    blank line, into a buffer of the same length. *)
Lemma load_chunks_ok fl ai rest :
  Forall is_byte fl ->
  forall (n : nat) iS (iL : nat) s1 a,
    (length fl - iL < n)%nat -> 0 <= iS ->
    drop (Z.to_nat iS) fl = drop iL fl -> (iL <= length fl)%nat ->
    area_list s1 !! ai = Some a -> length (FLAGS a) = length fl ->
    take iL (FLAGS a) = take iL fl ->
    load_chunks (readlines (save_chunks n fl iS +:+ nl +:+ rest)) ai iL s1
    = (Ok (readlines rest), put_flags ai fl s1).
Proof.
  intros Hb. induction n as [|n IH];
    intros iS iL s1 a Hn HiS Hdrop HiL Hai Hlen Htake; [lia|].
  cbn [save_chunks]. rewrite py_slice_chunk by lia. rewrite Hdrop.
  destruct (take 32 (drop iL fl)) as [|c0 cs] eqn:Ec.
  - assert (Hend : iL = length fl).
    { assert (length (take 32 (drop iL fl)) = 0%nat) by now rewrite Ec.
      rewrite length_take, length_drop in H. lia. }
    change (EmptyString +:+ nl +:+ rest) with (nl +:+ rest).
    rewrite readlines_blank. cbn [load_chunks].
    change (rstrip nl) with EmptyString. cbn [String.eqb].
    assert (FLAGS a = fl) as <-.
    { rewrite <- (take_ge (FLAGS a) iL), <- (take_ge fl iL) by lia. exact Htake. }
    now rewrite (put_flags_id ai a s1 Hai).
  - set (chunk := c0 :: cs) in *.
    assert (Hcb : Forall is_byte chunk)
      by (rewrite <- Ec; now apply Forall_take, Forall_drop).
    assert (Hcl : length chunk = Nat.min 32 (length fl - iL))
      by (rewrite <- Ec; unfold chunk; rewrite length_take, length_drop; reflexivity).
    assert (Hc1 : (1 <= length chunk)%nat) by (unfold chunk; simpl; lia).
    assert (Hw : is_word (hexlify chunk) = true)
      by (apply hexlify_word; [exact Hcb|discriminate]).
    replace ((hexlify chunk +:+ nl +:+ save_chunks n fl (iS + 32)) +:+ nl +:+ rest)
      with (hexlify chunk +:+ nl +:+ (save_chunks n fl (iS + 32) +:+ nl +:+ rest))
      by now rewrite !append_assoc.
    rewrite readlines_line by now apply word_no_LF.
    cbn [load_chunks]. rewrite (rstrip_word_line _ Hw).
    destruct (String.eqb_spec (hexlify chunk) EmptyString) as [E|_].
    { apply is_word_spec in Hw. tauto. }
    rewrite (bind_ok _ _ _ _ _ (lift_ok _ _ s1 (unhexlify_hexlify chunk Hcb))).
    rewrite (bind_ok _ _ _ _ _ (store_slice_ok ai iL chunk a s1 Hai)).
    set (F := py_setslice (FLAGS a) iL chunk).
    rewrite (IH (iS + 32) (iL + length chunk)%nat (put_flags ai F s1) (set_FLAGS F a)).
    + now rewrite (put_flags_twice ai a F fl s1 Hai).
    + lia.
    + lia.
    + replace (Z.to_nat (iS + 32)) with (Z.to_nat iS + 32)%nat by lia.
      rewrite <- drop_drop, Hdrop, drop_drop.
      destruct (le_lt_dec 32 (length fl - iL)).
      * f_equal. lia.
      * rewrite !drop_ge by lia. reflexivity.
    + lia.
    + now apply put_flags_lookup.
    + unfold F, py_setslice. cbn [FLAGS set_FLAGS].
      rewrite !length_app, length_take, length_drop. lia.
    + unfold F, py_setslice. cbn [FLAGS set_FLAGS]. rewrite app_assoc.
      rewrite take_app_length' by (rewrite length_app, length_take; lia).
      rewrite Htake, <- take_take_drop. f_equal.
      rewrite Hcl. rewrite <- Ec.
      destruct (le_lt_dec 32 (length fl - iL)).
      * now rewrite Nat.min_l by lia.
      * rewrite Nat.min_r by lia. rewrite !take_ge; [reflexivity|rewrite length_drop; lia..].
Qed.

Lemma int_16_bounds a :
  ints_16 (split (fmt_08x (START a) +:+ " " +:+ fmt_08x (END a) +:+ nl))
  = Ok [START a; END a].
Proof.
  rewrite split_line2 by apply fmt_08x_word. cbn [ints_16].
  now rewrite !int_16_fmt_08x.
Qed.

Lemma check_bounds_ok a b :
  START b = START a -> END b = END a -> check_bounds b [START a; END a] = Ok tt.
Proof.
  intros H1 H2. unfold check_bounds.
  change (py_index [START a; END a] 0) with (Ok (START a)).
  change (py_index [START a; END a] 1) with (Ok (END a)).
  now rewrite H1, H2, !Z.eqb_refl.
Qed.

Lemma put_flags_drop ai fl s :
  drop (S ai) (area_list (put_flags ai fl s)) = drop (S ai) (area_list s).
Proof.
  unfold put_flags. simpl. destruct (area_list s !! ai); [|reflexivity].
  apply drop_insert_lt. lia.
Qed.

Lemma put_flags_take ai fl s :
  take ai (area_list (put_flags ai fl s)) = take ai (area_list s).
Proof.
  unfold put_flags. simpl. destruct (area_list s !! ai); [|reflexivity].
  apply take_insert_ge. lia.
Qed.

Lemma put_flags_length ai fl s :
  length (area_list (put_flags ai fl s)) = length (area_list s).
Proof.
  unfold put_flags. simpl. destruct (area_list s !! ai); [|reflexivity].
  apply length_insert.
Qed.

(** The loop of [load_areas] from the area at position [ai] on, over what
    [save_areas] wrote for areas of the same bounds and sizes. *)
Lemma load_areas_from_ok saved : forall todo ai s1,
  Forall (fun a => Forall is_byte (FLAGS a)) saved ->
  Forall2 (fun a b => START b = START a /\ END b = END a /\
                      length (FLAGS b) = length (FLAGS a)) saved todo ->
  drop ai (area_list s1) = todo ->
  exists s2,
    load_areas_from todo ai (readlines (writes (map save_area saved))) s1
    = (Ok tt, s2) /\
    labels s2 = labels s1 /\ comments s2 = comments s1 /\
    xrefs s2 = xrefs s1 /\ arg_props s2 = arg_props s1 /\
    last_area s2 = last_area s1 /\
    take ai (area_list s2) = take ai (area_list s1) /\
    Forall2 (fun a c => FLAGS c = FLAGS a /\ START c = START a /\ END c = END a)
            saved (drop ai (area_list s2)).
Proof.
  induction saved as [|a saved IH]; intros todo ai s1 Hb Hsh Hdrop.
  - apply Forall2_nil_inv_l in Hsh as ->. exists s1.
    rewrite Hdrop. repeat (split; [reflexivity|]). constructor.
  - apply Forall2_cons_inv_l in Hsh as (b & todo' & (HS & HE & HL) & Hsh & ->).
    apply Forall_cons in Hb as [Hba Hb].
    assert (Hai : area_list s1 !! ai = Some b).
    { rewrite <- (Nat.add_0_r ai), <- lookup_drop, Hdrop. reflexivity. }
    cbn [map writes foldr]. fold (writes (map save_area saved)).
    unfold save_area at 1.
    replace ((fmt_08x (START a) +:+ " " +:+ fmt_08x (END a) +:+ nl
              +:+ save_chunks (S (length (FLAGS a))) (FLAGS a) 0 +:+ nl)
             +:+ writes (map save_area saved))
      with (fmt_08x (START a) +:+ " " +:+ fmt_08x (END a) +:+ nl
            +:+ (save_chunks (S (length (FLAGS a))) (FLAGS a) 0 +:+ nl
                 +:+ writes (map save_area saved)))
      by now rewrite !append_assoc.
    rewrite readlines_line2 by (apply word_no_LF, fmt_08x_word).
    cbn [load_areas_from].
    rewrite (bind_ok _ _ _ _ _ (lift_ok _ _ s1 (int_16_bounds a))).
    rewrite (bind_ok _ _ _ _ _ (lift_ok _ _ s1 (check_bounds_ok a b HS HE))).
    rewrite (bind_ok _ _ _ _ _
               (load_chunks_ok (FLAGS a) ai (writes (map save_area saved)) Hba
                  (S (length (FLAGS a))) 0 0 s1 b ltac:(lia) ltac:(lia) eq_refl
                  ltac:(lia) Hai HL eq_refl)).
    destruct (IH todo' (S ai) (put_flags ai (FLAGS a) s1) Hb Hsh)
      as (s2 & E & Hl & Hc & Hx & Hp & Hla & Htk & Hfl).
    { rewrite put_flags_drop. replace (S ai) with (ai + 1)%nat by lia.
      rewrite <- (drop_drop _ 1 ai), Hdrop. reflexivity. }
    exists s2. split; [exact E|].
    repeat (split; [assumption|]).
    assert (Hai2 : area_list s2 !! ai = Some (set_FLAGS (FLAGS a) b)).
    { rewrite <- (lookup_take_lt _ (S ai)) by lia. rewrite Htk.
      rewrite lookup_take_lt by lia. now apply put_flags_lookup. }
    split.
    + apply (f_equal (take ai)) in Htk. rewrite !take_take in Htk.
      rewrite !Nat.min_l in Htk by lia. now rewrite Htk, put_flags_take.
    + rewrite (drop_S _ _ _ Hai2). constructor; [|exact Hfl].
      simpl. auto.
Qed.

(** ** Persistence: the label table *)

Lemma map_fmap {A B} (f : A -> B) l : map f l = f <$> l.
Proof. induction l as [|x l IH]; simpl; [reflexivity|now rewrite IH]. Qed.

Lemma dict_get_set {V} k (v : V) d a :
  dict_get a (dict_set k v d) = if (k =? a) then Some v else dict_get a d.
Proof.
  induction d as [|[k' v'] d IH]; simpl.
  - reflexivity.
  - destruct (Z.eqb_spec k' k) as [->|Hne]; simpl.
    + now destruct (Z.eqb_spec k a).
    + rewrite IH. destruct (Z.eqb_spec k' a) as [->|]; [|reflexivity].
      destruct (Z.eqb_spec k a); [congruence|reflexivity].
Qed.

Lemma dict_get_None {V} a (d : list (Z * V)) :
  dict_get a d = None <-> a ∉ map fst d.
Proof.
  rewrite map_fmap. induction d as [|[k v] d IH]; simpl.
  - split; [intros _; apply not_elem_of_nil|reflexivity].
  - rewrite not_elem_of_cons. destruct (Z.eqb_spec k a) as [->|Hne].
    + split; [discriminate|tauto].
    + rewrite IH. split; [intros ?; split; [congruence|assumption]|tauto].
Qed.

(** Entries written one after the other, all taken from the same table,
    leave the table's own view of their keys. *)
Lemma dict_get_foldl {V} (d0 : list (Z * V)) items : forall acc a,
  (forall e, e ∈ items -> dict_get e.1 d0 = Some e.2) ->
  dict_get a (foldl (fun d e => dict_set e.1 e.2 d) acc items)
  = if decide (a ∈ map fst items) then dict_get a d0 else dict_get a acc.
Proof.
  rewrite map_fmap.
  induction items as [|[k v] items IH]; intros acc a Hin; simpl.
  - destruct (decide (a ∈ [])) as [H|_]; [|reflexivity].
    now apply not_elem_of_nil in H.
  - rewrite IH by (intros e He; apply Hin; now right).
    rewrite dict_get_set.
    destruct (decide (a ∈ items.*1)) as [Hi|Hi];
      destruct (decide (a ∈ _ :: _)) as [Hc|Hc]; try reflexivity.
    + exfalso. apply Hc. now right.
    + apply elem_of_cons in Hc as [->|?]; [|contradiction].
      rewrite Z.eqb_refl. symmetry. apply (Hin (k, v)). now left.
    + destruct (Z.eqb_spec k a) as [->|]; [|reflexivity].
      exfalso. apply Hc. now left.
Qed.

Lemma sorted_labels_elem d e :
  e ∈ sorted_labels d -> dict_get e.1 d = Some e.2.
Proof.
  unfold sorted_labels. rewrite list_elem_of_omap. intros (k & _ & Hk).
  destruct (dict_get k d) as [v|] eqn:E; [|discriminate].
  simpl in Hk. injection Hk as <-. exact E.
Qed.

Lemma sorted_labels_keys d a :
  a ∈ map fst (sorted_labels d) <-> a ∈ map fst d.
Proof.
  unfold sorted_labels. rewrite !map_fmap, !list_elem_of_fmap. split.
  - intros ([k v] & -> & He). apply list_elem_of_omap in He as (k' & Hk' & E).
    rewrite merge_sort_Permutation in Hk'.
    destruct (dict_get k' d); [|discriminate]. simpl in E. injection E as <- <-.
    now apply list_elem_of_fmap in Hk'.
  - intros (e & -> & He).
    destruct (dict_get e.1 d) as [v|] eqn:E.
    + exists (e.1, v). split; [reflexivity|]. apply list_elem_of_omap.
      exists e.1. split.
      * rewrite merge_sort_Permutation. apply list_elem_of_fmap. now exists e.
      * now rewrite E.
    + apply dict_get_None in E. exfalso. apply E. rewrite map_fmap.
      apply list_elem_of_fmap. now exists e.
Qed.

(** The label of one entry is read back from its line. *)
Lemma load_label_line e rest s1 :
  match e.2 with LInt n => n = e.1 | LStr w => is_word w = true end ->
  load_labels_lines (readlines (save_label e +:+ rest)) s1
  = load_labels_lines (readlines rest) (set_labels (dict_set e.1 e.2) s1).
Proof.
  destruct e as [k [n|w]]; intros H; simpl in H; unfold save_label;
    cbn [fst snd].
  - subst n. rewrite Z.eqb_refl.
    rewrite append_assoc, readlines_line by apply word_no_LF, fmt_08x_word.
    cbn [load_labels_lines]. rewrite split_line1 by apply fmt_08x_word.
    change (py_index [fmt_08x k] 0) with (Ok (fmt_08x k)).
    rewrite (bind_ok _ _ _ _ _ (lift_ok _ _ s1 eq_refl)).
    rewrite (bind_ok _ _ _ _ _ (lift_ok _ _ s1 (int_16_fmt_08x k))).
    reflexivity.
  - replace ((fmt_08x k +:+ " " +:+ w +:+ nl) +:+ rest)
      with (fmt_08x k +:+ " " +:+ w +:+ nl +:+ rest) by now rewrite !append_assoc.
    rewrite readlines_line2 by (apply word_no_LF; (apply fmt_08x_word || exact H)).
    cbn [load_labels_lines]. rewrite split_line2 by (apply fmt_08x_word || exact H).
    change (py_index [fmt_08x k; w] 0) with (Ok (fmt_08x k)).
    rewrite (bind_ok _ _ _ _ _ (lift_ok _ _ s1 eq_refl)).
    rewrite (bind_ok _ _ _ _ _ (lift_ok _ _ s1 (int_16_fmt_08x k))).
    reflexivity.
Qed.

Lemma load_labels_lines_app items : forall s1 rest,
  (forall e, e ∈ items ->
     match e.2 with LInt n => n = e.1 | LStr w => is_word w = true end) ->
  load_labels_lines (readlines (writes (map save_label items) +:+ rest)) s1
  = load_labels_lines (readlines rest)
      (set_labels (fun d => foldl (fun d e => dict_set e.1 e.2 d) d items) s1).
Proof.
  induction items as [|e items IH]; intros s1 rest H.
  - now destruct s1.
  - cbn [map writes foldr]. fold (writes (map save_label items)).
    rewrite append_assoc, load_label_line by (apply H; now left).
    rewrite IH by (intros e' He'; apply H; now right). reflexivity.
Qed.

Lemma load_labels_lines_ok items s1 :
  (forall e, e ∈ items ->
     match e.2 with LInt n => n = e.1 | LStr w => is_word w = true end) ->
  load_labels_lines (readlines (writes (map save_label items))) s1
  = (Ok tt, set_labels (fun d => foldl (fun d e => dict_set e.1 e.2 d) d items) s1).
Proof.
  intros H. rewrite <- (append_nil_r (writes (map save_label items))).
  now rewrite load_labels_lines_app.
Qed.

(** ** Persistence: what is read back *)

Lemma Forall2_map_eq {A B} (f : A -> B) (l1 l2 : list A) :
  Forall2 (fun a c => f c = f a) l1 l2 -> map f l2 = map f l1.
Proof. induction 1 as [|a c l1 l2 H _ IH]; simpl; [reflexivity|now rewrite H, IH]. Qed.

(** X1.  [save_areas] then [load_areas]: when the flag buffers of [s] hold
    bytes and [s0] has areas of the same bounds with buffers of the same
    lengths, loading what [save_areas] wrote for [s] into [s0] ends without
    an exception and leaves in [s0] exactly the flag buffers of [s]; the
    bounds of the areas, their contents and every table of [s0] stay as
    they were. *)
Theorem load_areas_save_areas s s0 :
  Forall (fun a => Forall is_byte (FLAGS a)) (area_list s) ->
  Forall2 (fun a b => START b = START a /\ END b = END a /\
                      length (FLAGS b) = length (FLAGS a))
          (area_list s) (area_list s0) ->
  exists s1,
    load_areas (save_areas s) s0 = (Ok tt, s1) /\
    map FLAGS (area_list s1) = map FLAGS (area_list s) /\
    map START (area_list s1) = map START (area_list s0) /\
    map END (area_list s1) = map END (area_list s0) /\
    labels s1 = labels s0 /\ comments s1 = comments s0 /\
    xrefs s1 = xrefs s0 /\ arg_props s1 = arg_props s0.
Proof.
  intros Hb Hsh. unfold load_areas, save_areas.
  rewrite (bind_ok _ _ _ _ _ (eq_refl : get s0 = (Ok s0, s0))).
  destruct (load_areas_from_ok (area_list s) (area_list s0) 0 s0 Hb Hsh eq_refl)
    as (s1 & E & Hl & Hc & Hx & Hp & _ & _ & Hfl).
  exists s1. split; [exact E|]. rewrite drop_0 in Hfl.
  rewrite (Forall2_map_eq FLAGS (area_list s) (area_list s1))
    by (eapply Forall2_impl; [exact Hfl|]; simpl; tauto).
  rewrite (Forall2_map_eq START (area_list s) (area_list s1))
    by (eapply Forall2_impl; [exact Hfl|]; simpl; tauto).
  rewrite (Forall2_map_eq END (area_list s) (area_list s1))
    by (eapply Forall2_impl; [exact Hfl|]; simpl; tauto).
  rewrite (Forall2_map_eq START (area_list s) (area_list s0))
    by (eapply Forall2_impl; [exact Hsh|]; simpl; tauto).
  rewrite (Forall2_map_eq END (area_list s) (area_list s0))
    by (eapply Forall2_impl; [exact Hsh|]; simpl; tauto).
  now repeat split.
Qed.

Lemma load_areas_save_areas_witness :
  exists s1,
    load_areas (save_areas AS_data_unit) AS_0_3 = (Ok tt, s1) /\
    map FLAGS (area_list s1) = map FLAGS (area_list AS_data_unit) /\
    map START (area_list s1) = map START (area_list AS_0_3) /\
    map END (area_list s1) = map END (area_list AS_0_3) /\
    labels s1 = labels AS_0_3 /\ comments s1 = comments AS_0_3 /\
    xrefs s1 = xrefs AS_0_3 /\ arg_props s1 = arg_props AS_0_3.
Proof.
  apply (load_areas_save_areas AS_data_unit AS_0_3).
  - change (area_list AS_data_unit)
      with [mk_area 0 3 EmptyString [0; 0; 0; 0] [DATA; DATA_CONT; 0; 0]].
    repeat (apply List.Forall_cons || apply List.Forall_nil);
      unfold is_byte, DATA, DATA_CONT; simpl; lia.
  - change (area_list AS_data_unit)
      with [mk_area 0 3 EmptyString [0; 0; 0; 0] [DATA; DATA_CONT; 0; 0]].
    change (area_list AS_0_3)
      with [mk_area 0 3 EmptyString [0; 0; 0; 0] [0; 0; 0; 0]].
    repeat constructor.
Defined.

(** X2.  [save_labels] then [load_labels]: when every label of [s] is a word
    (not empty, no white space) or the marker of the auto label of its own
    address, loading what [save_labels] wrote into any address space ends
    without an exception; afterwards every address labelled in [s] has the
    label it has in [s], every other address keeps the label it had, and
    nothing but the label table has changed. *)
Theorem load_labels_save_labels s s0 :
  (forall ea l, dict_get ea (labels s) = Some l ->
     match l with LInt n => n = ea | LStr w => is_word w = true end) ->
  exists s1,
    load_labels (save_labels s) s0 = (Ok tt, s1) /\
    (forall ea, dict_get ea (labels s1)
                = match dict_get ea (labels s) with
                  | Some l => Some l
                  | None => dict_get ea (labels s0)
                  end) /\
    area_list s1 = area_list s0 /\ comments s1 = comments s0 /\
    xrefs s1 = xrefs s0 /\ arg_props s1 = arg_props s0.
Proof.
  intros Hok. unfold load_labels, save_labels.
  rewrite load_labels_lines_ok.
  2:{ intros e He. apply sorted_labels_elem in He. now apply (Hok e.1 e.2). }
  eexists. split; [reflexivity|]. split; [|now repeat split].
  intros ea. cbn [labels set_labels].
  rewrite (dict_get_foldl (labels s)) by apply sorted_labels_elem.
  destruct (decide (ea ∈ map fst (sorted_labels (labels s)))) as [Hin|Hin].
  - apply (proj1 (sorted_labels_keys _ _)) in Hin.
    destruct (dict_get ea (labels s)) eqn:E; [reflexivity|].
    apply dict_get_None in E. contradiction.
  - rewrite sorted_labels_keys in Hin. apply dict_get_None in Hin. now rewrite Hin.
Qed.

Lemma load_labels_save_labels_witness :
  exists s1,
    load_labels (save_labels AS_labels) AS_0_3 = (Ok tt, s1) /\
    (forall ea, dict_get ea (labels s1)
                = match dict_get ea (labels AS_labels) with
                  | Some l => Some l
                  | None => dict_get ea (labels AS_0_3)
                  end) /\
    area_list s1 = area_list AS_0_3 /\ comments s1 = comments AS_0_3 /\
    xrefs s1 = xrefs AS_0_3 /\ arg_props s1 = arg_props AS_0_3.
Proof.
  apply (load_labels_save_labels AS_labels AS_0_3).
  intros ea l. change (labels AS_labels) with [(1, LInt 1); (2, LStr "foo")].
  cbn [dict_get]. destruct (Z.eqb_spec 1 ea) as [<-|_]; [now intros [= <-]|].
  destruct (Z.eqb_spec 2 ea) as [<-|_]; [now intros [= <-]|discriminate].
Defined.

(** ** Persistence: tables kept as maps *)

Lemma sorted_keys_elem {V} (d : gmap Z V) k :
  k ∈ sorted_keys d <-> is_Some (d !! k).
Proof.
  unfold sorted_keys. rewrite merge_sort_Permutation, map_fmap.
  rewrite list_elem_of_fmap. split.
  - intros ([k' v] & -> & H). apply elem_of_map_to_list in H. now exists v.
  - intros [v H]. exists (k, v). split; [reflexivity|]. now apply elem_of_map_to_list.
Qed.

Lemma sorted_keys_NoDup {V} (d : gmap Z V) : NoDup (sorted_keys d).
Proof.
  unfold sorted_keys. rewrite merge_sort_Permutation, map_fmap.
  apply NoDup_fst_map_to_list.
Qed.

Lemma sorted_items_elem {V} (d : gmap Z V) e :
  e ∈ sorted_items d <-> d !! e.1 = Some e.2.
Proof.
  unfold sorted_items. rewrite list_elem_of_omap. split.
  - intros (k & _ & Hk). destruct (d !! k) as [v|] eqn:E; [|discriminate].
    simpl in Hk. injection Hk as <-. exact E.
  - intros H. exists e.1. split.
    + apply sorted_keys_elem. now exists e.2.
    + rewrite H. now destruct e.
Qed.

Lemma sorted_items_keys {V} (d : gmap Z V) : (sorted_items d).*1 = sorted_keys d.
Proof.
  unfold sorted_items.
  assert (H : forall k, k ∈ sorted_keys d -> is_Some (d !! k))
    by (intros k; apply sorted_keys_elem).
  induction (sorted_keys d) as [|k l IH]; [reflexivity|]. simpl.
  destruct (H k ltac:(now left)) as [v ->]. simpl. f_equal.
  apply IH. intros k' Hk'. apply H. now right.
Qed.

Lemma sorted_items_nil {V} (d : gmap Z V) : sorted_items d = [] -> d = ∅.
Proof.
  intros H. apply map_empty. intros k. destruct (d !! k) as [v|] eqn:E; [|reflexivity].
  assert (Hin : (k, v) ∈ sorted_items d) by now apply sorted_items_elem.
  rewrite H in Hin. now apply not_elem_of_nil in Hin.
Qed.

(** Entries of one map written one after the other into another. *)
Lemma foldl_insert_lookup {V} (m : gmap Z V) items : forall (acc : gmap Z V) a,
  (forall e, e ∈ items -> m !! e.1 = Some e.2) ->
  foldl (fun t e => <[e.1 := e.2]> t) acc items !! a
  = if decide (a ∈ items.*1) then m !! a else acc !! a.
Proof.
  induction items as [|[k v] items IH]; intros acc a Hin; simpl.
  - destruct (decide (a ∈ [])) as [H|_]; [|reflexivity].
    now apply not_elem_of_nil in H.
  - rewrite IH by (intros e He; apply Hin; now right).
    destruct (decide (a ∈ items.*1)) as [Hi|Hi];
      destruct (decide (a ∈ _ :: _)) as [Hc|Hc]; try reflexivity.
    + exfalso. apply Hc. now right.
    + apply elem_of_cons in Hc as [->|?]; [|contradiction].
      rewrite lookup_insert_eq. symmetry. apply (Hin (k, v)). now left.
    + rewrite lookup_insert_ne; [reflexivity|]. intros ->. apply Hc. now left.
Qed.

Lemma foldl_insert_sorted_items {V} (m acc : gmap Z V) a :
  foldl (fun t e => <[e.1 := e.2]> t) acc (sorted_items m) !! a
  = match m !! a with Some v => Some v | None => acc !! a end.
Proof.
  rewrite (foldl_insert_lookup m) by (intros e; apply sorted_items_elem).
  rewrite sorted_items_keys.
  destruct (decide (a ∈ sorted_keys m)) as [H|H].
  - apply sorted_keys_elem in H as [v ->]. reflexivity.
  - destruct (m !! a) as [v|] eqn:E; [|reflexivity].
    exfalso. apply H, sorted_keys_elem. now exists v.
Qed.

(** ** Persistence: the cross-references *)

Lemma load_xref_lines_ok items : forall s1 addr rest,
  (forall e, e ∈ items -> is_word e.2 = true) ->
  load_xrefs_lines (readlines (writes (map save_xref items) +:+ nl +:+ rest))
    (Some addr) s1
  = load_xrefs_lines (readlines rest) None
      (set_xrefs (fun x => foldl (xref_ins addr) x items) s1).
Proof.
  induction items as [|[k t] items IH]; intros s1 addr rest H.
  - change (writes (map save_xref []) +:+ nl +:+ rest) with (nl +:+ rest).
    rewrite readlines_blank. cbn [load_xrefs_lines].
    change (rstrip nl) with EmptyString. cbn [String.eqb]. now destruct s1.
  - assert (Ht : is_word t = true) by (apply (H (k, t)); now left).
    cbn [map writes foldr]. fold (writes (map save_xref items)).
    unfold save_xref at 1. cbn [fst snd].
    rewrite !append_assoc.
    rewrite readlines_line2 by (apply word_no_LF; (apply fmt_08x_word || exact Ht)).
    cbn [load_xrefs_lines].
    replace (fmt_08x k +:+ " " +:+ t +:+ nl) with ((fmt_08x k +:+ " ") +:+ t +:+ nl)
      by now rewrite !append_assoc.
    rewrite (rstrip_line _ _ Ht), append_assoc.
    destruct (String.eqb_spec (fmt_08x k +:+ " " +:+ t) EmptyString) as [E|_].
    { pose proof (fmt_08x_word k) as Hw. apply is_word_spec in Hw as [Hne _].
      destruct (fmt_08x k); [congruence|discriminate]. }
    rewrite split_words2 by (apply fmt_08x_word || exact Ht).
    rewrite (bind_ok _ _ _ _ _ (lift_ok _ _ s1 (eq_refl : unpack2 [fmt_08x k; t] = Ok (fmt_08x k, t)))).
    cbn [fst snd].
    rewrite (bind_ok _ _ _ _ _ (lift_ok _ _ s1 (int_16_fmt_08x k))).
    rewrite (bind_ok _ _ _ _ _
               (eq_refl : modify (set_xrefs (fun x =>
                            <[addr := <[k := t]> (default ∅ (x !! addr))]> x)) s1
                          = (Ok tt, _))).
    rewrite IH by (intros e He; apply H; now right). reflexivity.
Qed.

Lemma load_xref_blocks_app blocks : forall s1 rest,
  (forall b, b ∈ blocks -> forall e, e ∈ sorted_items b.2 -> is_word e.2 = true) ->
  load_xrefs_lines (readlines (writes (map save_xref_block blocks) +:+ rest)) None s1
  = load_xrefs_lines (readlines rest) None
      (set_xrefs (fun x => foldl (fun x b => foldl (xref_ins b.1) x (sorted_items b.2))
                            x blocks) s1).
Proof.
  induction blocks as [|[k xr] blocks IH]; intros s1 rest H.
  - now destruct s1.
  - cbn [map writes foldr]. fold (writes (map save_xref_block blocks)).
    unfold save_xref_block at 1. cbn [fst snd].
    rewrite !append_assoc.
    rewrite readlines_line by apply word_no_LF, fmt_08x_word.
    cbn [load_xrefs_lines]. rewrite rstrip_word_line by apply fmt_08x_word.
    destruct (String.eqb_spec (fmt_08x k) EmptyString) as [E|_].
    { pose proof (fmt_08x_word k) as Hw. apply is_word_spec in Hw. tauto. }
    rewrite (bind_ok _ _ _ _ _ (lift_ok _ _ s1 (int_16_fmt_08x k))).
    rewrite load_xref_lines_ok by (apply (H (k, xr)); now left).
    rewrite IH by (intros b Hb; apply H; now right). reflexivity.
Qed.

Lemma load_xref_blocks_ok blocks s1 :
  (forall b, b ∈ blocks -> forall e, e ∈ sorted_items b.2 -> is_word e.2 = true) ->
  load_xrefs_lines (readlines (writes (map save_xref_block blocks))) None s1
  = (Ok tt,
     set_xrefs (fun x => foldl (fun x b => foldl (xref_ins b.1) x (sorted_items b.2))
                           x blocks) s1).
Proof.
  intros H. rewrite <- (append_nil_r (writes (map save_xref_block blocks))).
  now rewrite load_xref_blocks_app.
Qed.

Lemma xref_block_fold addr items : forall x,
  items <> [] ->
  foldl (xref_ins addr) x items
  = <[addr := foldl (fun t e => <[e.1 := e.2]> t) (default ∅ (x !! addr)) items]> x.
Proof.
  induction items as [|e items IH]; intros x Hne; [congruence|].
  cbn [foldl]. destruct items as [|e' items'].
  - reflexivity.
  - rewrite IH by discriminate. unfold xref_ins.
    rewrite lookup_insert_eq. cbn [default]. now rewrite insert_insert_eq.
Qed.

Lemma sorted_items_empty {V} : sorted_items (∅ : gmap Z V) = [].
Proof.
  destruct (sorted_items (∅ : gmap Z V)) as [|e l] eqn:E; [reflexivity|].
  assert (H : e ∈ sorted_items (∅ : gmap Z V)) by (rewrite E; now left).
  apply sorted_items_elem in H. now rewrite lookup_empty in H.
Qed.

(** The blocks of a table read one after the other into a table that has
    none of their addresses: an empty block leaves no entry. *)
Lemma xref_blocks_lookup (m : gmap Z (gmap Z string)) blocks : forall x0 a,
  (forall b, b ∈ blocks -> m !! b.1 = Some b.2) ->
  NoDup blocks.*1 -> (forall b, b ∈ blocks -> x0 !! b.1 = None) ->
  foldl (fun x b => foldl (xref_ins b.1) x (sorted_items b.2)) x0 blocks !! a
  = if decide (a ∈ blocks.*1)
    then match m !! a with
         | Some xr => if decide (xr = ∅) then None else Some xr
         | None => None
         end
    else x0 !! a.
Proof.
  induction blocks as [|[k xr] blocks IH]; intros x0 a Hm Hnd Hx0.
  - simpl. destruct (decide (a ∈ [])) as [H|_]; [|reflexivity].
    now apply not_elem_of_nil in H.
  - cbn [foldl fst snd]. rewrite fmap_cons in Hnd. cbn [fst] in Hnd.
    rewrite fmap_cons. cbn [fst].
    apply NoDup_cons in Hnd as [Hk Hnd].
    pose proof (Hm (k, xr) ltac:(now left)) as Hmk. cbn [fst snd] in Hmk.
    pose proof (Hx0 (k, xr) ltac:(now left)) as Hk0. cbn [fst] in Hk0.
    assert (Hx1 : foldl (xref_ins k) x0 (sorted_items xr)
                  = if decide (xr = ∅) then x0 else <[k := xr]> x0).
    { destruct (decide (xr = ∅)) as [->|Hne].
      - now rewrite sorted_items_empty.
      - rewrite xref_block_fold
          by (intros E; apply Hne; now apply sorted_items_nil).
        f_equal. rewrite Hk0. cbn [default].
        apply map_eq. intros i. rewrite foldl_insert_sorted_items.
        rewrite lookup_empty. now destruct (xr !! i). }
    rewrite Hx1, IH; [| |exact Hnd|].
    + destruct (decide (a ∈ blocks.*1)) as [Hi|Hi];
        destruct (decide (a ∈ k :: blocks.*1)) as [Hc|Hc]; try reflexivity.
      * exfalso. apply Hc. now right.
      * apply elem_of_cons in Hc as [->|?]; [|contradiction].
        rewrite Hmk. destruct (decide (xr = ∅)); [exact Hk0|].
        now rewrite lookup_insert_eq.
      * destruct (decide (xr = ∅)); [reflexivity|].
        rewrite lookup_insert_ne; [reflexivity|]. intros ->. apply Hc. now left.
    + intros b Hb. apply Hm. now right.
    + intros b Hb. destruct (decide (xr = ∅)); [apply Hx0; now right|].
      rewrite lookup_insert_ne; [apply Hx0; now right|].
      intros ->. apply Hk. apply list_elem_of_fmap. now exists b.
Qed.

(** X3.  [save_xrefs] then [load_xrefs], into an address space without
    cross-references: when every tag is a word, the loading ends without an
    exception, and an address gets back its set of cross-references exactly
    when that set is not empty; an address whose set is empty (as
    [del_xref] leaves it) has no entry afterwards.  Nothing but the
    cross-reference table changes. *)
Theorem load_xrefs_save_xrefs s s0 :
  (forall to_ea xr from_ea t,
     xrefs s !! to_ea = Some xr -> xr !! from_ea = Some t -> is_word t = true) ->
  xrefs s0 = ∅ ->
  exists s1,
    load_xrefs (save_xrefs s) s0 = (Ok tt, s1) /\
    (forall to_ea,
       xrefs s1 !! to_ea
       = match xrefs s !! to_ea with
         | Some xr => if decide (xr = ∅) then None else Some xr
         | None => None
         end) /\
    area_list s1 = area_list s0 /\ labels s1 = labels s0 /\
    comments s1 = comments s0 /\ arg_props s1 = arg_props s0.
Proof.
  intros Hw H0. unfold load_xrefs, save_xrefs.
  rewrite load_xref_blocks_ok.
  2:{ intros b Hb e He. apply sorted_items_elem in Hb, He.
      now apply (Hw b.1 b.2 e.1 e.2). }
  eexists. split; [reflexivity|]. split; [|now repeat split].
  intros a. cbn [xrefs set_xrefs].
  rewrite (xref_blocks_lookup (xrefs s)).
  - rewrite sorted_items_keys.
    destruct (decide (a ∈ sorted_keys (xrefs s))) as [H|H]; [reflexivity|].
    rewrite H0, lookup_empty.
    destruct (xrefs s !! a) as [xr|] eqn:E; [|reflexivity].
    exfalso. apply H, sorted_keys_elem. now exists xr.
  - intros b. apply sorted_items_elem.
  - rewrite sorted_items_keys. apply sorted_keys_NoDup.
  - intros b _. now rewrite H0, lookup_empty.
Qed.

Lemma load_xrefs_save_xrefs_witness :
  exists s1,
    load_xrefs (save_xrefs AS_scenario) AS_0_3 = (Ok tt, s1) /\
    (forall to_ea,
       xrefs s1 !! to_ea
       = match xrefs AS_scenario !! to_ea with
         | Some xr => if decide (xr = ∅) then None else Some xr
         | None => None
         end) /\
    area_list s1 = area_list AS_0_3 /\ labels s1 = labels AS_0_3 /\
    comments s1 = comments AS_0_3 /\ arg_props s1 = arg_props AS_0_3.
Proof.
  apply (load_xrefs_save_xrefs AS_scenario AS_0_3).
  - change (xrefs AS_scenario) with (<[1 := <[3 := "j"]> ∅]> (∅ : gmap Z (gmap Z string))).
    intros to_ea xr from_ea t H1 H2.
    apply lookup_insert_Some in H1 as [[_ <-]|[_ H1]];
      [|now rewrite lookup_empty in H1].
    apply lookup_insert_Some in H2 as [[_ <-]|[_ H2]];
      [reflexivity|now rewrite lookup_empty in H2].
  - reflexivity.
Defined.

(** X4.  [load_xrefs] on a cross-reference line with three fields (a tag
    with white space in it, say): the unpacking of the line raises
    [ValueError], and the table is as it was before the block. *)
Theorem load_xrefs_three_fields to_ea w1 w2 w3 rest s0 :
  is_word w1 = true -> is_word w2 = true -> is_word w3 = true ->
  load_xrefs (fmt_08x to_ea +:+ nl
              +:+ w1 +:+ " " +:+ w2 +:+ " " +:+ w3 +:+ nl +:+ rest) s0
  = (Raise ValueError, s0).
Proof.
  intros H1 H2 H3. unfold load_xrefs.
  rewrite readlines_line by apply word_no_LF, fmt_08x_word.
  cbn [load_xrefs_lines]. rewrite rstrip_word_line by apply fmt_08x_word.
  destruct (String.eqb_spec (fmt_08x to_ea) EmptyString) as [E|_].
  { pose proof (fmt_08x_word to_ea) as Hw. apply is_word_spec in Hw. tauto. }
  rewrite (bind_ok _ _ _ _ _ (lift_ok _ _ s0 (int_16_fmt_08x to_ea))).
  assert (Hj : all_chars (fun c => negb (Ascii.eqb c LF)) (w2 +:+ " " +:+ w3) = true).
  { now rewrite !all_chars_app, (word_no_LF w2 H2), (word_no_LF w3 H3). }
  replace (w1 +:+ " " +:+ w2 +:+ " " +:+ w3 +:+ nl +:+ rest)
    with (w1 +:+ " " +:+ (w2 +:+ " " +:+ w3) +:+ nl +:+ rest)
    by now rewrite !append_assoc.
  rewrite readlines_line2 by (apply word_no_LF, H1 || exact Hj).
  cbn [load_xrefs_lines].
  replace (w1 +:+ " " +:+ (w2 +:+ " " +:+ w3) +:+ nl)
    with ((w1 +:+ " " +:+ w2 +:+ " ") +:+ w3 +:+ nl) by now rewrite !append_assoc.
  rewrite (rstrip_line _ _ H3), !append_assoc.
  destruct (String.eqb_spec (w1 +:+ " " +:+ w2 +:+ " " +:+ w3) EmptyString) as [E|_].
  { apply is_word_spec in H1 as [Hne _]. destruct w1; [congruence|discriminate]. }
  rewrite split_word by (exact H1 || reflexivity).
  change (" " +:+ w2 +:+ " " +:+ w3) with (String " " (w2 +:+ " " +:+ w3)).
  rewrite split_space by reflexivity. rewrite split_words2 by assumption.
  reflexivity.
Qed.

Lemma load_xrefs_three_fields_witness :
  load_xrefs (fmt_08x 1 +:+ nl
              +:+ "00000002" +:+ " " +:+ "a" +:+ " " +:+ "b" +:+ nl +:+ nl) AS_0_3
  = (Raise ValueError, AS_0_3).
Proof.
  apply (load_xrefs_three_fields 1 "00000002" "a" "b" nl AS_0_3); reflexivity.
Defined.

(** X5.  [load_labels] reads the second field of a line as the label and
    ignores what follows: a label saved with white space in it comes back
    cut at the first blank. *)
Theorem load_labels_cuts_label ea w1 w2 s0 :
  is_word w1 = true -> is_word w2 = true ->
  load_labels (save_labels (set_labels (fun _ => [(ea, LStr (w1 +:+ " " +:+ w2))]) s0)) s0
  = (Ok tt, set_labels (dict_set ea (LStr w1)) s0).
Proof.
  intros H1 H2. unfold load_labels, save_labels. cbn [labels set_labels].
  unfold sorted_labels. cbn [map fst merge_sort].
  change (merge_sort Z.le [ea]) with [ea]. cbn [omap list_omap dict_get].
  rewrite Z.eqb_refl. cbn [fmap option_fmap option_map omap list_omap map writes foldr].
  unfold save_label. cbn [fst snd]. rewrite append_nil_r.
  assert (Hj : all_chars (fun c => negb (Ascii.eqb c LF)) (w1 +:+ " " +:+ w2) = true).
  { now rewrite !all_chars_app, (word_no_LF w1 H1), (word_no_LF w2 H2). }
  rewrite <- (append_nil_r (fmt_08x ea +:+ " " +:+ (w1 +:+ " " +:+ w2) +:+ nl)).
  rewrite !append_assoc.
  replace (fmt_08x ea +:+ " " +:+ w1 +:+ " " +:+ w2 +:+ nl +:+ EmptyString)
    with (fmt_08x ea +:+ " " +:+ (w1 +:+ " " +:+ w2) +:+ nl +:+ EmptyString)
    by now rewrite !append_assoc.
  rewrite readlines_line2 by (apply word_no_LF, fmt_08x_word || exact Hj).
  cbn [readlines load_labels_lines].
  rewrite split_word by (apply fmt_08x_word || reflexivity).
  change (" " +:+ (w1 +:+ " " +:+ w2) +:+ nl) with (String " " ((w1 +:+ " " +:+ w2) +:+ nl)).
  rewrite split_space by reflexivity. rewrite !append_assoc.
  rewrite split_line2 by assumption.
  change (py_index [fmt_08x ea; w1; w2] 0) with (Ok (fmt_08x ea)).
  rewrite (bind_ok _ _ _ _ _ (lift_ok _ _ s0 eq_refl)).
  rewrite (bind_ok _ _ _ _ _ (lift_ok _ _ s0 (int_16_fmt_08x ea))).
  reflexivity.
Qed.

Lemma load_labels_cuts_label_witness :
  load_labels (save_labels (set_labels (fun _ => [(1, LStr ("a" +:+ " " +:+ "b"))]) AS_0_3))
    AS_0_3
  = (Ok tt, set_labels (dict_set 1 (LStr "a")) AS_0_3).
Proof. apply (load_labels_cuts_label 1 "a" "b" AS_0_3); reflexivity. Defined.

(** X6.  [load_labels] on a well-formed label file followed by a blank line:
    every label is loaded, then [vals[0]] on the blank line raises
    [IndexError]. *)
Theorem load_labels_blank_line s rest s0 :
  (forall ea l, dict_get ea (labels s) = Some l ->
     match l with LInt n => n = ea | LStr w => is_word w = true end) ->
  load_labels (save_labels s +:+ nl +:+ rest) s0
  = (Raise IndexError, (load_labels (save_labels s) s0).2).
Proof.
  intros Hok.
  assert (H : forall e, e ∈ sorted_labels (labels s) ->
                match e.2 with LInt n => n = e.1 | LStr w => is_word w = true end).
  { intros e He. apply sorted_labels_elem in He. now apply (Hok e.1 e.2). }
  unfold load_labels, save_labels.
  rewrite load_labels_lines_app, load_labels_lines_ok by exact H.
  rewrite readlines_blank. reflexivity.
Qed.

Lemma load_labels_blank_line_witness :
  load_labels (save_labels AS_labels +:+ nl +:+ nl) AS_0_3
  = (Raise IndexError, (load_labels (save_labels AS_labels) AS_0_3).2).
Proof.
  apply (load_labels_blank_line AS_labels nl AS_0_3).
  intros ea l. change (labels AS_labels) with [(1, LInt 1); (2, LStr "foo")].
  cbn [dict_get]. destruct (Z.eqb_spec 1 ea) as [<-|_]; [now intros [= <-]|].
  destruct (Z.eqb_spec 2 ea) as [<-|_]; [now intros [= <-]|discriminate].
Defined.

(** X7.  [load_xrefs] ends at the first blank line that is not the end of a
    block, without an exception: what follows a well-formed file and a
    blank line is not read. *)
Theorem load_xrefs_stops_at_blank_line s rest s0 :
  (forall to_ea xr from_ea t,
     xrefs s !! to_ea = Some xr -> xr !! from_ea = Some t -> is_word t = true) ->
  load_xrefs (save_xrefs s +:+ nl +:+ rest) s0 = load_xrefs (save_xrefs s) s0.
Proof.
  intros Hw.
  assert (H : forall b, b ∈ sorted_items (xrefs s) ->
                forall e, e ∈ sorted_items b.2 -> is_word e.2 = true).
  { intros b Hb e He. apply sorted_items_elem in Hb, He.
    now apply (Hw b.1 b.2 e.1 e.2). }
  unfold load_xrefs, save_xrefs.
  rewrite load_xref_blocks_app, load_xref_blocks_ok by exact H.
  rewrite readlines_blank. reflexivity.
Qed.

Lemma load_xrefs_stops_at_blank_line_witness :
  load_xrefs (save_xrefs AS_scenario +:+ nl +:+ "junk") AS_0_3
  = load_xrefs (save_xrefs AS_scenario) AS_0_3.
Proof.
  apply (load_xrefs_stops_at_blank_line AS_scenario "junk" AS_0_3).
  change (xrefs AS_scenario) with (<[1 := <[3 := "j"]> ∅]> (∅ : gmap Z (gmap Z string))).
  intros to_ea xr from_ea t H1 H2.
  apply lookup_insert_Some in H1 as [[_ <-]|[_ H1]];
    [|now rewrite lookup_empty in H1].
  apply lookup_insert_Some in H2 as [[_ <-]|[_ H2]];
    [reflexivity|now rewrite lookup_empty in H2].
Defined.

(** ** Persistence: JSON strings and the comments *)

Lemma scanstring_escape c x :
  scanstring (json_escape c +:+ x) = cons_fst c (scanstring x).
Proof. destruct c as [[] [] [] [] [] [] [] []]; reflexivity. Qed.

Lemma json_escape_printable c : all_chars is_printable (json_escape c) = true.
Proof. destruct c as [[] [] [] [] [] [] [] []]; reflexivity. Qed.

Lemma scanstring_escape_all x rest :
  scanstring (json_escape_all x +:+ String dquote rest) = Some (x, rest).
Proof.
  induction x as [|c x IH].
  - reflexivity.
  - cbn [json_escape_all]. rewrite append_assoc, scanstring_escape, IH. reflexivity.
Qed.

Lemma json_escape_all_printable x : all_chars is_printable (json_escape_all x) = true.
Proof.
  induction x as [|c x IH]; [reflexivity|]. cbn [json_escape_all].
  now rewrite all_chars_app, json_escape_printable, IH.
Qed.

Lemma json_dumps_str_printable x : all_chars is_printable (json_dumps_str x) = true.
Proof.
  unfold json_dumps_str. cbn [all_chars].
  now rewrite all_chars_app, json_escape_all_printable.
Qed.

Lemma printable_no_LF x :
  all_chars is_printable x = true ->
  all_chars (fun c => negb (Ascii.eqb c LF)) x = true.
Proof.
  apply all_chars_impl. intros c Hc.
  destruct (Ascii.eqb_spec c LF) as [->|]; [discriminate|reflexivity].
Qed.

(** [json.loads] reads back what [json.dumps] made of a string, with white
    space behind it. *)
Lemma json_loads_dumps_str x ws :
  json_ws ws = EmptyString -> json_loads_str (json_dumps_str x +:+ ws) = Ok x.
Proof.
  intros Hws. unfold json_loads_str, json_dumps_str.
  change (String dquote (json_escape_all x +:+ String dquote EmptyString) +:+ ws)
    with (String dquote ((json_escape_all x +:+ String dquote EmptyString) +:+ ws)).
  cbn [json_ws]. change (json_space dquote) with false. cbn iota.
  change (Ascii.eqb dquote dquote) with true. cbn iota.
  rewrite append_assoc. change (String dquote EmptyString +:+ ws) with (String dquote ws).
  rewrite scanstring_escape_all, Hws. reflexivity.
Qed.

Lemma load_comment_line e rest s1 :
  load_comments_lines (readlines (save_comment e +:+ rest)) s1
  = load_comments_lines (readlines rest)
      (set_comments (fun t => <[e.1 := e.2]> t) s1).
Proof.
  destruct e as [k c]. unfold save_comment. cbn [fst snd].
  rewrite !append_assoc.
  rewrite readlines_line2
    by (apply word_no_LF, fmt_08x_word || apply printable_no_LF, json_dumps_str_printable).
  cbn [load_comments_lines].
  rewrite (split1_line (fmt_08x k) (json_dumps_str c +:+ nl) (fmt_08x_word k) eq_refl).
  rewrite (bind_ok _ _ _ _ _ (lift_ok _ _ s1 (eq_refl : unpack2 [fmt_08x k; json_dumps_str c +:+ nl] = Ok (_, _)))).
  cbn [fst snd].
  rewrite (bind_ok _ _ _ _ _ (lift_ok _ _ s1 (int_16_fmt_08x k))).
  rewrite (bind_ok _ _ _ _ _ (lift_ok _ _ s1 (json_loads_dumps_str c nl eq_refl))).
  reflexivity.
Qed.

Lemma load_comments_lines_app items : forall s1 rest,
  load_comments_lines (readlines (writes (map save_comment items) +:+ rest)) s1
  = load_comments_lines (readlines rest)
      (set_comments (fun t => foldl (fun t e => <[e.1 := e.2]> t) t items) s1).
Proof.
  induction items as [|e items IH]; intros s1 rest.
  - now destruct s1.
  - cbn [map writes foldr]. fold (writes (map save_comment items)).
    rewrite append_assoc, load_comment_line, IH. reflexivity.
Qed.

(** X8.  [save_comments] then [load_comments], for any comments at all:
    the loading ends without an exception; every address with a comment
    in [s] has that comment afterwards, whatever characters it holds,
    every other address keeps the comment it had, and nothing but the
    comment table changes. *)
Theorem load_comments_save_comments s s0 :
  exists s1,
    load_comments (save_comments s) s0 = (Ok tt, s1) /\
    (forall ea, comments s1 !! ea
                = match comments s !! ea with
                  | Some c => Some c
                  | None => comments s0 !! ea
                  end) /\
    area_list s1 = area_list s0 /\ labels s1 = labels s0 /\
    xrefs s1 = xrefs s0 /\ arg_props s1 = arg_props s0.
Proof.
  unfold load_comments, save_comments.
  rewrite <- (append_nil_r (writes _)), load_comments_lines_app.
  eexists. split; [reflexivity|]. split; [|now repeat split].
  intros ea. cbn [comments set_comments]. apply foldl_insert_sorted_items.
Qed.

(** ** Persistence: decimal numbers *)

Lemma digit_facts c :
  is_digit c = true ->
  isspace c = false /\ Ascii.eqb c "-" = false /\ Ascii.eqb c "+" = false /\
  is_printable c = true /\ json_space c = false.
Proof.
  intros H.
  assert (Hc : exists n, (48 <= n <= 57)%N /\ c = ascii_of_N n).
  { exists (N_of_ascii c). unfold is_digit in H.
    apply andb_true_iff in H as [H1 H2]. apply N.leb_le in H1, H2.
    split; [lia|]. now rewrite ascii_N_embedding. }
  destruct Hc as (n & Hn & ->).
  assert (n = 48 \/ n = 49 \/ n = 50 \/ n = 51 \/ n = 52 \/ n = 53 \/ n = 54 \/
          n = 55 \/ n = 56 \/ n = 57)%N as Hcase by lia.
  repeat destruct Hcase as [->|Hcase]; try subst n; repeat split; reflexivity.
Qed.

Lemma dec_string_of_uint d :
  all_chars is_digit (DecimalString.NilEmpty.string_of_uint d) = true.
Proof. induction d; simpl; auto. Qed.

Lemma span_digits_app ds rest :
  all_chars is_digit ds = true ->
  match rest with String r _ => is_digit r = false | EmptyString => True end ->
  span_digits (ds +:+ rest) = (ds, rest).
Proof.
  intros Hd Hr. induction ds as [|c ds IH].
  - destruct rest as [|r rest]; [reflexivity|]. cbn. now rewrite Hr.
  - cbn [all_chars] in Hd. apply andb_true_iff in Hd as [Hc Hd].
    cbn. rewrite Hc, (IH Hd). reflexivity.
Qed.

(** The digits of a positive number do not start with 0. *)
Lemma to_uint_no_leading_zero p u : Pos.to_uint p <> Decimal.D0 u.
Proof.
  intros E.
  assert (Hn : Decimal.unorm (Pos.to_uint p) = Pos.to_uint p).
  { rewrite <- (DecimalPos.Unsigned.to_of (Pos.to_uint p)).
    now rewrite DecimalPos.Unsigned.of_to. }
  rewrite E, DecimalFacts.unorm_D0 in Hn.
  destruct u as [|u|u|u|u|u|u|u|u|u|u].
  - apply (DecimalPos.Unsigned.to_uint_nonzero p). exact E.
  - pose proof (DecimalFacts.nb_digits_unorm (Decimal.D0 u) ltac:(discriminate)) as H.
    rewrite Hn in H. simpl in H. lia.
  - pose proof (DecimalFacts.nb_digits_unorm (Decimal.D1 u) ltac:(discriminate)) as H.
    rewrite Hn in H. simpl in H. lia.
  - pose proof (DecimalFacts.nb_digits_unorm (Decimal.D2 u) ltac:(discriminate)) as H.
    rewrite Hn in H. simpl in H. lia.
  - pose proof (DecimalFacts.nb_digits_unorm (Decimal.D3 u) ltac:(discriminate)) as H.
    rewrite Hn in H. simpl in H. lia.
  - pose proof (DecimalFacts.nb_digits_unorm (Decimal.D4 u) ltac:(discriminate)) as H.
    rewrite Hn in H. simpl in H. lia.
  - pose proof (DecimalFacts.nb_digits_unorm (Decimal.D5 u) ltac:(discriminate)) as H.
    rewrite Hn in H. simpl in H. lia.
  - pose proof (DecimalFacts.nb_digits_unorm (Decimal.D6 u) ltac:(discriminate)) as H.
    rewrite Hn in H. simpl in H. lia.
  - pose proof (DecimalFacts.nb_digits_unorm (Decimal.D7 u) ltac:(discriminate)) as H.
    rewrite Hn in H. simpl in H. lia.
  - pose proof (DecimalFacts.nb_digits_unorm (Decimal.D8 u) ltac:(discriminate)) as H.
    rewrite Hn in H. simpl in H. lia.
  - pose proof (DecimalFacts.nb_digits_unorm (Decimal.D9 u) ltac:(discriminate)) as H.
    rewrite Hn in H. simpl in H. lia.
Qed.

(** The shape of [str(n)]: digits that stand for [|n|], not empty, without
    a leading 0 unless they are ["0"], behind a minus sign when [n < 0]. *)
Lemma str_int_shape z :
  exists ds u,
    str_int z = (if (z <? 0) then "-" else EmptyString) +:+ ds /\
    all_chars is_digit ds = true /\
    DecimalString.NilEmpty.uint_of_string ds = Some u /\
    Z.of_N (N.of_uint u) = Z.abs z /\
    match ds with
    | String c ds' => Ascii.eqb c "0" && negb (String.eqb ds' EmptyString) = false
    | EmptyString => False
    end.
Proof.
  unfold str_int. destruct z as [|p|p]; cbn [Z.to_int Z.ltb Z.compare].
  - exists "0"%string, (Decimal.D0 Decimal.Nil). now repeat split.
  - exists (DecimalString.NilEmpty.string_of_uint (Pos.to_uint p)), (Pos.to_uint p).
    pose proof (DecimalPos.Unsigned.to_uint_nonnil p) as Hnn.
    split; [|split; [apply dec_string_of_uint|split; [apply DecimalString.NilEmpty.usu|split]]].
    + cbn. destruct (Pos.to_uint p); [congruence|reflexivity..].
    + unfold N.of_uint. now rewrite DecimalPos.Unsigned.of_to.
    + pose proof (to_uint_no_leading_zero p) as Hz.
      destruct (Pos.to_uint p); cbn; try reflexivity; [congruence|].
      exfalso. now apply (Hz u).
  - exists (DecimalString.NilEmpty.string_of_uint (Pos.to_uint p)), (Pos.to_uint p).
    pose proof (DecimalPos.Unsigned.to_uint_nonnil p) as Hnn.
    split; [|split; [apply dec_string_of_uint|split; [apply DecimalString.NilEmpty.usu|split]]].
    + cbn. destruct (Pos.to_uint p); [congruence|reflexivity..].
    + unfold N.of_uint. now rewrite DecimalPos.Unsigned.of_to.
    + pose proof (to_uint_no_leading_zero p) as Hz.
      destruct (Pos.to_uint p); cbn; try reflexivity; [congruence|].
      exfalso. now apply (Hz u).
Qed.

Lemma signed_abs z : signed (z <? 0) (Z.abs z) = z.
Proof. unfold signed. destruct (Z.ltb_spec z 0); lia. Qed.

Lemma digits_no_space ds :
  all_chars is_digit ds = true -> all_chars (fun c => negb (isspace c)) ds = true.
Proof.
  apply all_chars_impl. intros c Hc. now rewrite (proj1 (digit_facts c Hc)).
Qed.

(** [int(x)] reads back [str(n)]. *)
Lemma int_10_str_int z : int_10 (str_int z) = Ok z.
Proof.
  destruct (str_int_shape z) as (ds & u & -> & Hd & Hu & Hv & Hz).
  unfold int_10.
  destruct ds as [|c ds]; [contradiction|].
  pose proof Hd as Hd'. cbn [all_chars] in Hd'. apply andb_true_iff in Hd' as [Hc _].
  destruct (digit_facts c Hc) as (Hsp & Hm & Hp & _).
  assert (Hns : all_chars (fun c => negb (isspace c))
                  ((if z <? 0 then "-" else EmptyString) +:+ String c ds) = true).
  { rewrite all_chars_app, (digits_no_space _ Hd). now destruct (z <? 0). }
  rewrite lstrip_word, (rstrip_no_space _ Hns).
  2:{ destruct (z <? 0); [reflexivity|]. cbn. now rewrite Hsp. }
  assert (Hsign : strip_sign ((if z <? 0 then "-" else EmptyString) +:+ String c ds)
                  = (z <? 0, String c ds)).
  { destruct (z <? 0); [reflexivity|]. cbn. now rewrite Hm, Hp. }
  rewrite Hsign, Hu, Hv, signed_abs. reflexivity.
Qed.

Lemma str_int_inj n m : str_int n = str_int m -> n = m.
Proof.
  intros H. pose proof (int_10_str_int n) as Hn. rewrite H, int_10_str_int in Hn.
  congruence.
Qed.

Lemma json_digits_ok neg ds u rest :
  all_chars is_digit ds = true ->
  match ds with
  | String c ds' => Ascii.eqb c "0" && negb (String.eqb ds' EmptyString) = false
  | EmptyString => False
  end ->
  DecimalString.NilEmpty.uint_of_string ds = Some u ->
  ends_number rest = true ->
  json_digits neg (ds +:+ rest) = Some (signed neg (Z.of_N (N.of_uint u)), rest).
Proof.
  intros Hd Hz Hu Hr. unfold json_digits.
  rewrite span_digits_app; [|exact Hd|].
  2:{ destruct rest as [|r rest]; [exact I|]. cbn in Hr.
      apply negb_true_iff in Hr. now repeat (apply orb_false_iff in Hr as [Hr _]). }
  destruct ds as [|c ds]; [contradiction|]. rewrite Hz, Hu.
  destruct rest as [|r rest]; [reflexivity|]. cbn in Hr.
  apply negb_true_iff in Hr.
  apply orb_false_iff in Hr as [Hr H4]. apply orb_false_iff in Hr as [Hr H3].
  apply orb_false_iff in Hr as [_ H2]. now rewrite H2, H3, H4.
Qed.

(** An integer of a document is read back, up to what stands behind it. *)
Lemma json_int_str_int z rest :
  ends_number rest = true -> json_int (str_int z +:+ rest) = Some (z, rest).
Proof.
  intros Hr.
  destruct (str_int_shape z) as (ds & u & -> & Hd & Hu & Hv & Hz).
  rewrite <- (signed_abs z) at 2. rewrite <- Hv.
  unfold json_int. rewrite append_assoc. destruct (z <? 0).
  - change ("-" +:+ ds +:+ rest) with (String "-" (ds +:+ rest)). cbn iota.
    change (Ascii.eqb "-" "-") with true. cbn iota.
    now apply json_digits_ok.
  - change (EmptyString +:+ ds +:+ rest) with (ds +:+ rest).
    destruct ds as [|c ds]; [contradiction|].
    change (String c ds +:+ rest) with (String c (ds +:+ rest)). cbn iota.
    pose proof Hd as Hd'. cbn [all_chars] in Hd'. apply andb_true_iff in Hd' as [Hc _].
    destruct (digit_facts c Hc) as (_ & -> & _).
    change (String c (ds +:+ rest)) with (String c ds +:+ rest).
    now apply json_digits_ok.
Qed.

(** ** Persistence: JSON objects and the argument properties *)

Lemma sdict_set_new {V} k (v : V) acc :
  k ∉ acc.*1 -> sdict_set k v acc = acc ++ [(k, v)].
Proof.
  induction acc as [|[k' v'] acc IH]; intros H; [reflexivity|].
  rewrite fmap_cons in H. apply not_elem_of_cons in H as [Hne H]. cbn [fst] in Hne.
  cbn [sdict_set]. destruct (String.eqb_spec k' k) as [->|_]; [congruence|].
  rewrite (IH H). reflexivity.
Qed.

Lemma json_ws_id x :
  match x with String c _ => json_space c = false | EmptyString => True end ->
  json_ws x = x.
Proof. destruct x as [|c x]; [reflexivity|]. cbn. now intros ->. Qed.

Lemma json_dumps_str_app x y :
  json_dumps_str x +:+ y = String dquote (json_escape_all x +:+ String dquote y).
Proof.
  unfold json_dumps_str.
  change (String dquote (json_escape_all x +:+ String dquote EmptyString) +:+ y)
    with (String dquote ((json_escape_all x +:+ String dquote EmptyString) +:+ y)).
  now rewrite append_assoc.
Qed.

Lemma ends_value_cases tail :
  ends_value tail = true ->
  exists t, tail = String "," t \/ tail = String "}" t.
Proof.
  destruct tail as [|c t]; [discriminate|]. cbn. intros H. exists t.
  apply orb_true_iff in H as [H|H]; apply Ascii.eqb_eq in H; subst; auto.
Qed.

Section Members.
Context {K V W : Type}.
Variable f : K -> string.
Variable vt : V -> string.
Variable pv : string -> option (W * string).
Variable g : V -> W.
Hypothesis Hpv : forall v r, ends_value r = true -> pv (vt v +:+ r) = Some (g v, r).
Hypothesis Hst : forall v r, json_ws (vt v +:+ r) = vt v +:+ r.

Local Abbreviation member := (json_member (fun k => json_dumps_str (f k)) vt).

(** One round of [json_members] over a member and what stands behind it. *)
Lemma json_member_step n kv tail acc :
  ends_value tail = true ->
  json_members pv (S n) (member kv +:+ tail) acc
  = match tail with
    | String c t =>
        if Ascii.eqb c ","
        then json_members pv n (json_ws t) (sdict_set (f kv.1) (g kv.2) acc)
        else Some (sdict_set (f kv.1) (g kv.2) acc, t)
    | EmptyString => None
    end.
Proof.
  intros Ht. destruct kv as [k v]. unfold json_member. cbn [fst snd].
  rewrite !append_assoc, json_dumps_str_app. cbn [json_members].
  change (Ascii.eqb dquote dquote) with true. cbn iota.
  rewrite scanstring_escape_all.
  change (": " +:+ vt v +:+ tail) with (String ":" (String " " (vt v +:+ tail))).
  cbn [json_ws]. change (json_space ":") with false. cbn iota.
  cbn [json_ws]. change (json_space " ") with true. cbn iota.
  rewrite Hst, (Hpv v tail Ht).
  destruct (ends_value_cases tail Ht) as (t & [->| ->]); reflexivity.
Qed.

Lemma json_members_ok items : forall acc rest n,
  items <> [] -> NoDup (acc.*1 ++ (f <$> items.*1)) -> (length items <= n)%nat ->
  json_members pv n (String.concat ", " (map member items) +:+ "}" +:+ rest) acc
  = Some (acc ++ map (fun kv => (f kv.1, g kv.2)) items, rest).
Proof.
  induction items as [|kv items IH]; intros acc rest n Hne Hnd Hn; [congruence|].
  destruct n as [|n]; [simpl in Hn; lia|].
  assert (Hk : f kv.1 ∉ acc.*1).
  { rewrite !fmap_cons in Hnd. apply NoDup_app in Hnd as (_ & Hd & _).
    intros Hin. apply (Hd _ Hin). now left. }
  assert (Hnd' : NoDup ((acc ++ [(f kv.1, g kv.2)]).*1 ++ (f <$> items.*1))).
  { rewrite fmap_app, <- app_assoc. rewrite !fmap_cons in Hnd. exact Hnd. }
  destruct items as [|kv' items].
  - cbn [map String.concat]. rewrite json_member_step by reflexivity.
    cbn iota. change (Ascii.eqb "}" ",") with false. cbn iota.
    now rewrite sdict_set_new.
  - change (String.concat ", " (map member (kv :: kv' :: items)))
      with (member kv +:+ ", " +:+ String.concat ", " (map member (kv' :: items))).
    rewrite !append_assoc.
    rewrite json_member_step by reflexivity.
    change (", " +:+ String.concat ", " (map member (kv' :: items)) +:+ "}" +:+ rest)
      with (String "," (String " " (String.concat ", " (map member (kv' :: items))
                                    +:+ "}" +:+ rest))).
    cbn iota. change (Ascii.eqb "," ",") with true. cbn iota.
    cbn [json_ws]. change (json_space " ") with true. cbn iota.
    rewrite json_ws_id.
    2:{ destruct items; cbn [map String.concat]; unfold json_member;
          rewrite !append_assoc, json_dumps_str_app; reflexivity. }
    rewrite sdict_set_new by exact Hk.
    rewrite IH; [|discriminate|exact Hnd'|cbn [length] in *; lia].
    now rewrite <- app_assoc.
Qed.

Lemma length_append a b :
  String.length (a +:+ b) = (String.length a + String.length b)%nat.
Proof. induction a as [|c a IH]; cbn; [reflexivity|now rewrite IH]. Qed.

Lemma length_suffix a b : (String.length b <= String.length (a +:+ b))%nat.
Proof. rewrite length_append. lia. Qed.

Lemma length_members items tail :
  (length items <= String.length (String.concat ", " (map member items) +:+ tail))%nat.
Proof.
  induction items as [|kv items IH]; [simpl; lia|].
  destruct items as [|kv' items].
  - cbn [map String.concat]. unfold json_member.
    rewrite !append_assoc, json_dumps_str_app. cbn. lia.
  - change (String.concat ", " (map member (kv :: kv' :: items)))
      with (member kv +:+ ", " +:+ String.concat ", " (map member (kv' :: items))).
    rewrite !append_assoc. unfold json_member at 1.
    rewrite !append_assoc, json_dumps_str_app.
    cbn [String.length]. change (length (kv :: kv' :: items)) with (S (length (kv' :: items))).
    apply le_n_S. etransitivity; [exact IH|].
    set (C := String.concat ", " (map member (kv' :: items)) +:+ tail).
    replace (json_escape_all (f kv.1) +:+ String dquote (": " +:+ vt kv.2 +:+ ", " +:+ C))
      with ((json_escape_all (f kv.1) +:+ String dquote (": " +:+ vt kv.2 +:+ ", ")) +:+ C).
    + apply length_suffix.
    + rewrite append_assoc. f_equal.
      change (String dquote (": " +:+ vt kv.2 +:+ ", ") +:+ C)
        with (String dquote ((": " +:+ vt kv.2 +:+ ", ") +:+ C)).
      now rewrite !append_assoc.
Qed.

(** [json_object] reads back an object whose keys are distinct. *)
Lemma json_object_ok items rest :
  NoDup (f <$> items.*1) ->
  json_object pv (json_dumps_object (fun k => json_dumps_str (f k)) vt items +:+ rest)
  = Some (map (fun kv => (f kv.1, g kv.2)) items, rest).
Proof.
  intros Hnd. unfold json_dumps_object, json_object. rewrite !append_assoc.
  change ("{" +:+ String.concat ", " (map member items) +:+ "}" +:+ rest)
    with (String "{" (String.concat ", " (map member items) +:+ "}" +:+ rest)).
  cbn iota. destruct items as [|kv items].
  - reflexivity.
  - pose proof (length_members (kv :: items) ("}" +:+ rest)) as Hlen.
    pose proof (json_members_ok (kv :: items) [] rest
                  (String.length (String.concat ", " (map member (kv :: items))
                                  +:+ "}" +:+ rest))
                  ltac:(discriminate) Hnd Hlen) as Hm.
    revert Hm Hlen.
    assert (Hq : exists y, String.concat ", " (map member (kv :: items)) +:+ "}" +:+ rest
                           = String dquote y).
    { destruct items; cbn [map String.concat]; unfold json_member;
        rewrite !append_assoc, json_dumps_str_app; eauto. }
    destruct Hq as (y & ->). intros Hm _.
    cbn [json_ws]. change (json_space dquote) with false. cbn iota. exact Hm.
Qed.

End Members.

Lemma ends_value_number r : ends_value r = true -> ends_number r = true.
Proof. intros H. destruct (ends_value_cases r H) as (t & [->| ->]); reflexivity. Qed.

Lemma json_ws_str_int z r : json_ws (str_int z +:+ r) = str_int z +:+ r.
Proof.
  destruct (str_int_shape z) as (ds & u & -> & Hd & _ & _ & Hz).
  apply json_ws_id. destruct (z <? 0); [reflexivity|].
  destruct ds as [|c ds]; [contradiction|]. cbn.
  cbn [all_chars] in Hd. apply andb_true_iff in Hd as [Hc _].
  now destruct (digit_facts c Hc) as (_ & _ & _ & _ & ->).
Qed.

Lemma map_pair_id {A B} (l : list (A * B)) : map (fun kv => (kv.1, kv.2)) l = l.
Proof. induction l as [|[a b] l IH]; simpl; [reflexivity|now rewrite IH]. Qed.

(** The object of the properties of one argument is read back. *)
Lemma json_object_props (props : gmap string Z) rest :
  json_object json_int
    (json_dumps_object json_dumps_str str_int (map_to_list props) +:+ rest)
  = Some (map_to_list props, rest).
Proof.
  pose proof (json_object_ok (fun k : string => k) str_int json_int (fun v => v)
                (fun v r H => json_int_str_int v r (ends_value_number r H))
                json_ws_str_int (map_to_list props) rest) as H.
  rewrite list_fmap_id, map_pair_id in H. apply H. apply NoDup_fst_map_to_list.
Qed.

Lemma json_object_args (args : gmap Z (gmap string Z)) rest :
  json_object (json_object json_int) (json_dumps_props args +:+ rest)
  = Some (map (fun kv => (str_int kv.1, map_to_list kv.2)) (map_to_list args), rest).
Proof.
  unfold json_dumps_props.
  apply (json_object_ok str_int
           (fun props : gmap string Z =>
              json_dumps_object json_dumps_str str_int (map_to_list props))
           (json_object json_int) map_to_list).
  - intros props r _. apply json_object_props.
  - intros props r. apply json_ws_id. reflexivity.
  - apply NoDup_fmap_2; [|apply NoDup_fst_map_to_list].
    intros x y. apply str_int_inj.
Qed.

Lemma json_loads_dumps_props args :
  json_loads_props (json_dumps_props args +:+ nl)
  = Ok (map (fun kv => (str_int kv.1, map_to_list kv.2)) (map_to_list args)).
Proof.
  unfold json_loads_props.
  rewrite (json_ws_id (json_dumps_props args +:+ nl)) by reflexivity.
  rewrite json_object_args. reflexivity.
Qed.

Lemma int_keys_ok (l : list (Z * gmap string Z)) : forall acc,
  int_keys (map (fun kv => (str_int kv.1, map_to_list kv.2)) l) acc
  = Ok (foldl (fun t kv => <[kv.1 := kv.2]> t) acc l).
Proof.
  induction l as [|[k v] l IH]; intros acc; [reflexivity|].
  cbn [map int_keys fst snd foldl]. rewrite int_10_str_int, list_to_map_to_list.
  apply IH.
Qed.

Lemma foldl_insert_map_to_list {V} (m : gmap Z V) :
  foldl (fun t kv => <[kv.1 := kv.2]> t) ∅ (map_to_list m) = m.
Proof.
  apply map_eq. intros a.
  rewrite (foldl_insert_lookup m)
    by (intros [k v] H; now apply elem_of_map_to_list in H).
  destruct (decide (a ∈ (map_to_list m).*1)) as [H|H]; [reflexivity|].
  rewrite lookup_empty. destruct (m !! a) as [v|] eqn:E; [|reflexivity].
  exfalso. apply H. apply list_elem_of_fmap. exists (a, v).
  split; [reflexivity|]. now apply elem_of_map_to_list.
Qed.

Lemma str_int_printable z : all_chars is_printable (str_int z) = true.
Proof.
  destruct (str_int_shape z) as (ds & u & -> & Hd & _).
  rewrite all_chars_app. apply andb_true_iff. split; [now destruct (z <? 0)|].
  revert Hd. apply all_chars_impl. intros c Hc.
  now destruct (digit_facts c Hc) as (_ & _ & _ & -> & _).
Qed.

Lemma json_dumps_object_printable {K V} (key : K -> string) (value : V -> string) items :
  (forall k, all_chars is_printable (key k) = true) ->
  (forall v, all_chars is_printable (value v) = true) ->
  all_chars is_printable (json_dumps_object key value items) = true.
Proof.
  intros Hk Hv. unfold json_dumps_object. rewrite !all_chars_app.
  assert (H : all_chars is_printable
                (String.concat ", " (map (json_member key value) items)) = true).
  { induction items as [|kv items IH]; [reflexivity|].
    assert (Hm : all_chars is_printable (json_member key value kv) = true)
      by (unfold json_member; now rewrite !all_chars_app, Hk, Hv).
    destruct items as [|kv' items]; [exact Hm|].
    change (String.concat ", " (map (json_member key value) (kv :: kv' :: items)))
      with (json_member key value kv +:+ ", "
            +:+ String.concat ", " (map (json_member key value) (kv' :: items))).
    now rewrite !all_chars_app, Hm, IH. }
  now rewrite H.
Qed.

Lemma json_dumps_props_printable args :
  all_chars is_printable (json_dumps_props args) = true.
Proof.
  unfold json_dumps_props. apply json_dumps_object_printable.
  - intros k. apply json_dumps_str_printable.
  - intros props. apply json_dumps_object_printable.
    + apply json_dumps_str_printable.
    + apply str_int_printable.
Qed.

Lemma load_arg_prop_line e rest s1 :
  load_arg_props_lines (readlines (save_arg_prop e +:+ rest)) s1
  = load_arg_props_lines (readlines rest)
      (set_arg_props (fun t => <[e.1 := e.2]> t) s1).
Proof.
  destruct e as [k args]. unfold save_arg_prop. cbn [fst snd].
  rewrite !append_assoc.
  rewrite readlines_line2
    by (apply word_no_LF, fmt_08x_word || apply printable_no_LF, json_dumps_props_printable).
  cbn [load_arg_props_lines].
  rewrite (split1_line (fmt_08x k) (json_dumps_props args +:+ nl) (fmt_08x_word k) eq_refl).
  rewrite (bind_ok _ _ _ _ _ (lift_ok _ _ s1 (eq_refl : unpack2 [fmt_08x k; json_dumps_props args +:+ nl] = Ok (_, _)))).
  cbn [fst snd].
  rewrite (bind_ok _ _ _ _ _ (lift_ok _ _ s1 (int_16_fmt_08x k))).
  rewrite (bind_ok _ _ _ _ _ (lift_ok _ _ s1 (json_loads_dumps_props args))).
  rewrite (bind_ok _ _ _ _ _ (lift_ok _ _ s1 (int_keys_ok (map_to_list args) ∅))).
  rewrite foldl_insert_map_to_list. reflexivity.
Qed.

Lemma load_arg_props_lines_app items : forall s1 rest,
  load_arg_props_lines (readlines (writes (map save_arg_prop items) +:+ rest)) s1
  = load_arg_props_lines (readlines rest)
      (set_arg_props (fun t => foldl (fun t e => <[e.1 := e.2]> t) t items) s1).
Proof.
  induction items as [|e items IH]; intros s1 rest.
  - now destruct s1.
  - cbn [map writes foldr]. fold (writes (map save_arg_prop items)).
    rewrite append_assoc, load_arg_prop_line, IH. reflexivity.
Qed.

(** X9.  [save_arg_props] then [load_arg_props], for any table of argument
    properties: the loading ends without an exception; every address with
    properties in [s] has them afterwards (every argument number, every
    property name, every value), every other address keeps what it had,
    and nothing but the table of argument properties changes. *)
Theorem load_arg_props_save_arg_props s s0 :
  exists s1,
    load_arg_props (save_arg_props s) s0 = (Ok tt, s1) /\
    (forall ea, arg_props s1 !! ea
                = match arg_props s !! ea with
                  | Some p => Some p
                  | None => arg_props s0 !! ea
                  end) /\
    area_list s1 = area_list s0 /\ labels s1 = labels s0 /\
    comments s1 = comments s0 /\ xrefs s1 = xrefs s0.
Proof.
  unfold load_arg_props, save_arg_props.
  rewrite <- (append_nil_r (writes _)), load_arg_props_lines_app.
  eexists. split; [reflexivity|]. split; [|now repeat split].
  intros ea. cbn [arg_props set_arg_props]. apply foldl_insert_sorted_items.
Qed.

(** * The address space: readers, writers and tables *)

(** X10.  Outside every area, [get_byte], [get_bytes] and [get_flags] raise
    [InvalidAddrException] with the address, [is_valid_addr] answers
    [False], and the address space is left as it was (also its cached
    area). *)
Theorem readers_raise_outside_areas s addr :
  (forall j b, area_list s !! j = Some b -> in_area b addr = false) ->
  get_byte addr s = (Raise (InvalidAddrException addr), s) /\
  (forall sz, get_bytes addr sz s = (Raise (InvalidAddrException addr), s)) /\
  get_flags addr s = (Raise (InvalidAddrException addr), s) /\
  is_valid_addr addr s = (Ok false, s).
Proof.
  intros Hout.
  destruct (addr2area_sound s addr) as (r & s' & Hrun & _ & Hr).
  destruct r as [[off i]|].
  - destruct Hr as (a & Hi & Hin & _). rewrite (Hout i a Hi) in Hin. discriminate.
  - destruct Hr as [_ ->].
    unfold get_byte, get_bytes, get_flags, is_valid_addr.
    repeat split; intros; now rewrite (bind_ok _ _ _ _ _ Hrun).
Qed.

Lemma readers_raise_outside_areas_witness :
  get_byte 16 AS_0_3 = (Raise (InvalidAddrException 16), AS_0_3) /\
  (forall sz, get_bytes 16 sz AS_0_3 = (Raise (InvalidAddrException 16), AS_0_3)) /\
  get_flags 16 AS_0_3 = (Raise (InvalidAddrException 16), AS_0_3) /\
  is_valid_addr 16 AS_0_3 = (Ok false, AS_0_3).
Proof.
  apply (readers_raise_outside_areas AS_0_3 16).
  intros [|j] b H; [|discriminate]. injection H as <-. reflexivity.
Defined.

Lemma get_data_loop_overrun (n : nat) : forall s off ai a i val,
  area_list s !! ai = Some a -> 0 <= off -> 0 <= i ->
  (Z.to_nat (off + i) <= length (BYTES a))%nat ->
  (length (BYTES a) < Z.to_nat (off + i) + n)%nat ->
  get_data_loop n (Some (off, ai)) i val s = (Raise IndexError, s).
Proof.
  induction n as [|n IH]; intros s off ai a i val Hai Hoff Hi Hle Hgt; [lia|].
  cbn [get_data_loop].
  rewrite (bind_ok _ _ _ _ _ (deref_some s off ai a Hai)).
  destruct (BYTES a !! Z.to_nat (off + i)) as [b|] eqn:Eb.
  - rewrite (bind_ok _ _ _ _ _
               (lift_ok _ _ s (py_index_ok (BYTES a) (off + i) b ltac:(lia) Eb))).
    apply lookup_lt_Some in Eb.
    apply (IH s off ai a (i + 1)); auto; lia.
  - assert (E : py_index (BYTES a) (off + i) = Raise IndexError).
    { unfold py_index. destruct (Z.ltb_spec (off + i) 0); [lia|].
      destruct (Z.ltb_spec (off + i) 0); [lia|]. now rewrite Eb. }
    unfold mbind, M_bind, bind, lift. now rewrite E.
Qed.

(** X11.  [get_data] inside an area: when the [sz] bytes from [addr] on lie
    in the area of [addr], the answer is their little-endian value. *)
Theorem get_data_in_area s addr sz ai a :
  non_overlapping (area_list s) -> area_list s !! ai = Some a -> wf_area a ->
  Forall (fun b => 0 <= b < 256) (BYTES a) ->
  0 <= sz -> START a <= addr -> addr + sz - 1 <= END a ->
  (get_data addr sz s).1 =
    Ok (le_value (take (Z.to_nat sz) (drop (Z.to_nat (addr - START a)) (BYTES a)))).
Proof. apply get_data_little_endian. Qed.

Lemma get_data_in_area_witness :
  (get_data 1 4 AS_call_ret).1 = Ok 5.
Proof.
  apply (get_data_in_area AS_call_ret 1 4 0
           (mk_area 0 15 EmptyString [1; 5; 0; 0; 0; 2; 0; 0; 0; 0; 0; 0; 0; 0; 0; 0]
                    (replicate 16 0%Z))).
  - intros [|i] [|j] a b addr Hi Hj; simpl in *; try discriminate; auto.
  - reflexivity.
  - split; reflexivity.
  - repeat (apply List.Forall_cons || apply List.Forall_nil); lia.
  - lia.
  - simpl; lia.
  - simpl; lia.
Defined.

(** X12.  [get_data] does not read past its area: when [addr] lies in an
    area but the [sz] bytes from it on do not all lie there, [IndexError] is
    raised (also when the next area follows at once). *)
Theorem get_data_past_end s addr sz ai a :
  non_overlapping (area_list s) -> area_list s !! ai = Some a -> wf_area a ->
  START a <= addr <= END a -> END a < addr + sz - 1 ->
  (get_data addr sz s).1 = Raise IndexError.
Proof.
  intros Hno Hai [Hlen _] Hin Hpast. unfold get_data.
  destruct (addr2area_in s addr ai a Hno Hai) as (s1 & Hrun & Hal & _).
  { apply in_area_iff. lia. }
  rewrite (bind_ok _ _ _ _ _ Hrun).
  rewrite (get_data_loop_overrun (Z.to_nat sz) s1 (addr - START a) ai a 0 0);
    [reflexivity|now rewrite Hal|lia..].
Qed.

Lemma get_data_past_end_witness :
  (get_data 18 4 AS_two_areas).1 = Raise IndexError.
Proof.
  apply (get_data_past_end AS_two_areas 18 4 1
           (mk_area 16 19 EmptyString [0; 0; 0; 0] [0; 0; 0; 0])).
  - intros [|[|i]] [|[|j]] a b addr Hi Hj Ha Hb; simpl in *;
      try discriminate; auto;
      injection Hi as <-; injection Hj as <-;
      unfold in_area in *; simpl in *; lia.
  - reflexivity.
  - split; reflexivity.
  - simpl; lia.
  - simpl; lia.
Defined.

Lemma py_slice_take {A} (l : list A) i k :
  0 <= i -> 0 <= k ->
  py_slice l i (i + k) = take (Z.to_nat k) (drop (Z.to_nat i) l).
Proof.
  intros Hi Hk. unfold py_slice, py_clamp.
  destruct (Z.ltb_spec i 0); [lia|]. destruct (Z.ltb_spec (i + k) 0); [lia|].
  destruct (Z_le_gt_dec (Z.of_nat (length l)) i) as [Hge|Hlt].
  - rewrite !Z.min_r by lia. rewrite !drop_ge by lia. now rewrite !take_nil.
  - rewrite (Z.min_l i) by lia.
    destruct (Z_le_gt_dec (i + k) (Z.of_nat (length l))).
    + rewrite Z.min_l by lia. f_equal. lia.
    + rewrite Z.min_r by lia.
      rewrite !take_ge; [reflexivity|rewrite length_drop; lia..].
Qed.

(** X13.  [get_bytes] inside an area never raises: it answers the bytes
    from [addr] to the end of the area, at most [sz] of them, so fewer than
    asked for when the area ends before. *)
Theorem get_bytes_in_area s addr sz ai a :
  non_overlapping (area_list s) -> area_list s !! ai = Some a -> wf_area a ->
  START a <= addr <= END a -> 0 <= sz ->
  exists bs,
    (get_bytes addr sz s).1 = Ok bs /\
    bs = take (Z.to_nat sz) (drop (Z.to_nat (addr - START a)) (BYTES a)) /\
    Z.of_nat (length bs) = Z.min sz (END a - addr + 1).
Proof.
  intros Hno Hai [Hlen _] Hin Hsz. unfold get_bytes.
  destruct (addr2area_in s addr ai a Hno Hai) as (s1 & Hrun & Hal & _).
  { apply in_area_iff. lia. }
  rewrite (bind_ok _ _ _ _ _ Hrun).
  rewrite (bind_ok _ _ _ _ _ (deref_some s1 _ ai a ltac:(now rewrite Hal))).
  eexists. split; [reflexivity|]. rewrite py_slice_take by lia.
  split; [reflexivity|]. rewrite length_take, length_drop. lia.
Qed.

Lemma get_bytes_in_area_witness :
  exists bs,
    (get_bytes 14 4 AS_call_ret).1 = Ok bs /\
    bs = take (Z.to_nat 4) (drop (Z.to_nat (14 - 0))
           [1; 5; 0; 0; 0; 2; 0; 0; 0; 0; 0; 0; 0; 0; 0; 0]) /\
    Z.of_nat (length bs) = Z.min 4 (15 - 14 + 1).
Proof.
  apply (get_bytes_in_area AS_call_ret 14 4 0
           (mk_area 0 15 EmptyString [1; 5; 0; 0; 0; 2; 0; 0; 0; 0; 0; 0; 0; 0; 0; 0]
                    (replicate 16 0%Z))).
  - intros [|i] [|j] a b addr Hi Hj; simpl in *; try discriminate; auto.
  - reflexivity.
  - split; reflexivity.
  - simpl; lia.
  - lia.
Defined.

(** ** Fresh areas and the flag writers *)

(** X14.  A new area starts out zeroed and undefined: for an address of
    [start .. end] that no older area holds, after [add_area] the address is
    valid, its byte reads 0 and its flag reads [UNK]. *)
Theorem add_area_fresh s start end_ props addr :
  (forall j b, area_list s !! j = Some b -> in_area b addr = false) ->
  start <= addr <= end_ ->
  exists s1,
    add_area start end_ props s = (Ok (length (area_list s)), s1) /\
    (is_valid_addr addr s1).1 = Ok true /\
    (get_byte addr s1).1 = Ok 0 /\
    (get_flags addr s1).1 = Ok UNK.
Proof.
  intros Hout Hin. unfold add_area, bytearray.
  destruct (Z.ltb_spec (end_ - start + 1) 0) as [|Hsz]; [lia|].
  set (buf := replicate (Z.to_nat (end_ - start + 1)) 0).
  set (new := mk_area start end_ props buf buf).
  set (s1 := set_area_list _ s). exists s1. split; [reflexivity|].
  assert (Hal : area_list s1 = area_list s ++ [new]) by reflexivity.
  assert (Hnew : in_area new addr = true) by (apply in_area_iff; simpl; lia).
  destruct (addr2area_sound s1 addr) as (r & s2 & Hrun & (Hal2 & _) & Hr).
  destruct r as [[off i]|].
  - destruct Hr as (a & Hi & Ha & -> & _).
    assert (a = new) as ->.
    { rewrite Hal in Hi. apply lookup_app_Some in Hi as [Hi|[_ Hi]].
      - rewrite (Hout i a Hi) in Ha. discriminate.
      - apply list_lookup_singleton_Some in Hi as [_ ->]. reflexivity. }
    assert (Hbuf : buf !! Z.to_nat (addr - START new) = Some 0).
    { apply lookup_replicate_2. simpl. lia. }
    assert (Hd : deref (Some (addr - START new, i)) s2
                 = (Ok (addr - START new, i, new), s2))
      by (apply deref_some; now rewrite Hal2).
    unfold is_valid_addr, get_byte, get_flags.
    rewrite !(bind_ok _ _ _ _ _ Hrun), !(bind_ok _ _ _ _ _ Hd).
    split; [reflexivity|].
    unfold lift. change (BYTES new) with buf. change (FLAGS new) with buf.
    rewrite (py_index_ok buf (addr - START new) 0); [|simpl; lia|exact Hbuf].
    now split.
  - destruct Hr as [Hnone _].
    rewrite (Hnone (length (area_list s)) new) in Hnew; [discriminate|].
    rewrite Hal. apply list_lookup_middle. reflexivity.
Qed.

Lemma add_area_fresh_witness :
  exists s1,
    add_area 16 19 EmptyString AS_0_3 = (Ok (length (area_list AS_0_3)), s1) /\
    (is_valid_addr 17 s1).1 = Ok true /\
    (get_byte 17 s1).1 = Ok 0 /\
    (get_flags 17 s1).1 = Ok UNK.
Proof.
  apply (add_area_fresh AS_0_3 16 19 EmptyString 17).
  - intros [|j] b H; [|discriminate]. injection H as <-. reflexivity.
  - lia.
Defined.

Lemma get_flags_at s b ai a f :
  non_overlapping (area_list s) -> area_list s !! ai = Some a ->
  START a <= b <= END a -> FLAGS a !! Z.to_nat (b - START a) = Some f ->
  (get_flags b s).1 = Ok f.
Proof.
  intros Hno Hai Hin Hf. unfold get_flags.
  destruct (addr2area_in s b ai a Hno Hai) as (s2 & Hr & Hal & _).
  { apply in_area_iff. lia. }
  rewrite (bind_ok _ _ _ _ _ Hr).
  rewrite (bind_ok _ _ _ _ _ (deref_some s2 _ ai a ltac:(now rewrite Hal))).
  unfold lift. now rewrite (py_index_ok (FLAGS a) (b - START a) f ltac:(lia) Hf).
Qed.

Lemma get_flags_at_inv s b ai a f :
  non_overlapping (area_list s) -> area_list s !! ai = Some a ->
  START a <= b <= END a -> (get_flags b s).1 = Ok f ->
  FLAGS a !! Z.to_nat (b - START a) = Some f.
Proof.
  intros Hno Hai Hin. unfold get_flags.
  destruct (addr2area_in s b ai a Hno Hai) as (s2 & Hr & Hal & _).
  { apply in_area_iff. lia. }
  rewrite (bind_ok _ _ _ _ _ Hr).
  rewrite (bind_ok _ _ _ _ _ (deref_some s2 _ ai a ltac:(now rewrite Hal))).
  unfold lift, py_index. destruct (Z.ltb_spec (b - START a) 0); [lia|].
  destruct (Z.ltb_spec (b - START a) 0); [lia|].
  cbn [fst]. destruct (FLAGS a !! Z.to_nat (b - START a)); [congruence|discriminate].
Qed.

(** A unit whose head flag is none of [CODE], [DATA] and [STR] has size 1. *)
Lemma get_unit_size_other s b ai a f :
  non_overlapping (area_list s) -> area_list s !! ai = Some a ->
  START a <= b <= END a -> FLAGS a !! Z.to_nat (b - START a) = Some f ->
  f <> CODE -> f <> DATA -> f <> STR ->
  (get_unit_size b s).1 = Ok 1.
Proof.
  intros Hno Hai Hin Hf H1 H2 H3. unfold get_unit_size.
  destruct (addr2area_in s b ai a Hno Hai) as (s2 & Hr & Hal & _).
  { apply in_area_iff. lia. }
  rewrite (bind_ok _ _ _ _ _ Hr).
  rewrite (bind_ok _ _ _ _ _ (deref_some s2 _ ai a ltac:(now rewrite Hal))).
  rewrite (bind_ok _ _ _ _ _
             (lift_ok _ _ s2 (py_index_ok (FLAGS a) (b - START a) f ltac:(lia) Hf))).
  destruct (Z.eqb_spec f CODE); [tauto|].
  destruct (Z.eqb_spec f DATA); [tauto|].
  destruct (Z.eqb_spec f STR); [tauto|]. reflexivity.
Qed.

Lemma set_flags_loop_ok (n : nat) : forall ai off i v s a,
  area_list s !! ai = Some a -> 0 <= off + i -> 0 <= v < 256 ->
  off + i + Z.of_nat n <= Z.of_nat (length (FLAGS a)) ->
  exists s' a',
    set_flags_loop n ai off i v s = (Ok tt, s') /\
    area_list s' !! ai = Some a' /\
    (forall k : nat, off + i <= Z.of_nat k < off + i + Z.of_nat n ->
                     FLAGS a' !! k = Some v) /\
    (forall k : nat, Z.of_nat k < off + i \/ off + i + Z.of_nat n <= Z.of_nat k ->
                     FLAGS a' !! k = FLAGS a !! k).
Proof.
  induction n as [|n IH]; intros ai off i v s a Ha H0 Hv Hlen; cbn [set_flags_loop].
  - exists s, a. repeat split; auto. intros; lia.
  - rewrite (bind_ok _ _ _ _ _ (store_flag_ok s ai a (off + i) v Ha ltac:(lia) Hv)).
    set (a1 := set_FLAGS (<[Z.to_nat (off + i) := v]> (FLAGS a)) a).
    set (s1 := set_area_list _ s).
    assert (Ha1 : area_list s1 !! ai = Some a1).
    { subst s1. simpl. apply list_lookup_insert_eq. now apply lookup_lt_Some in Ha. }
    destruct (IH ai off (i + 1) v s1 a1 Ha1 ltac:(lia) Hv) as
      (s' & a' & Hrun & Ha' & Hin & Hout).
    { subst a1; simpl. rewrite length_insert. lia. }
    exists s', a'. split; [exact Hrun|]. split; [exact Ha'|]. split.
    + intros k Hk. destruct (decide (Z.of_nat k = off + i)) as [E|E].
      * rewrite Hout by lia. subst a1; simpl.
        replace k with (Z.to_nat (off + i)) by lia.
        apply list_lookup_insert_eq. lia.
      * apply Hin. lia.
    + intros k Hk. rewrite Hout by lia. subst a1; simpl.
      apply list_lookup_insert_ne. lia.
Qed.

(** X15.  [make_undefined(addr, n)], with [addr .. addr + n - 1] in one
    area and [n >= 1], returns whatever the flags were; afterwards every
    byte of the range has flag [UNK] and is a unit of size 1. *)
Theorem make_undefined_resets s addr n ai a :
  non_overlapping (area_list s) -> area_list s !! ai = Some a -> wf_area a ->
  1 <= n -> START a <= addr -> addr + n - 1 <= END a ->
  exists s',
    make_undefined addr n s = (Ok tt, s') /\
    forall b, addr <= b < addr + n ->
      (get_flags b s').1 = Ok UNK /\ (get_unit_size b s').1 = Ok 1.
Proof.
  intros Hno Hai [_ Hwf] Hn Hlo Hhi.
  pose proof (set_flags_frame s addr n ai a UNK UNK Hno Hai Hn ltac:(lia)) as Hfr.
  fold (make_undefined addr n) in Hfr.
  assert (Hrun : exists s' a',
            make_undefined addr n s = (Ok tt, s') /\
            area_list s' !! ai = Some a' /\
            forall k : nat, addr - START a <= Z.of_nat k < addr - START a + n ->
                            FLAGS a' !! k = Some UNK).
  { unfold make_undefined, set_flags.
    destruct (addr2area_in s addr ai a Hno Hai) as (s0 & Hr & Hal & _).
    { apply in_area_iff. lia. }
    rewrite (bind_ok _ _ _ _ _ Hr).
    assert (Hai0 : area_list s0 !! ai = Some a) by now rewrite Hal.
    rewrite (bind_ok _ _ _ _ _ (deref_some s0 _ ai a Hai0)).
    set (off := addr - START a).
    assert (Hu : 0 <= UNK < 256) by (unfold UNK; lia).
    rewrite (bind_ok _ _ _ _ _ (store_flag_ok s0 ai a off UNK Hai0 ltac:(lia) Hu)).
    set (a1 := set_FLAGS (<[Z.to_nat off := UNK]> (FLAGS a)) a).
    set (s1 := set_area_list _ s0).
    assert (Ha1 : area_list s1 !! ai = Some a1).
    { subst s1. simpl. apply list_lookup_insert_eq. now apply lookup_lt_Some in Hai0. }
    destruct (set_flags_loop_ok (Z.to_nat (n - 1)) ai (off + 1) 0 UNK s1 a1 Ha1
                ltac:(lia) Hu) as (s' & a' & Hloop & Ha' & Hwin & Hout).
    { subst a1; simpl. rewrite length_insert. lia. }
    exists s', a'. split; [exact Hloop|]. split; [exact Ha'|].
    intros k Hk. destruct (decide (Z.of_nat k = off)) as [E|E].
    - rewrite Hout by lia. subst a1; simpl.
      replace k with (Z.to_nat off) by lia. apply list_lookup_insert_eq. lia.
    - apply Hwin. lia. }
  destruct Hrun as (s' & a' & Hrun & Hai' & Hwin).
  rewrite Hrun in Hfr. cbn [snd] in Hfr.
  exists s'. split; [exact Hrun|]. intros b Hb.
  pose proof (frame_non_overlapping _ _ _ _ _ Hfr Hno) as Hno'.
  pose proof Hfr as (_ & _ & _ & _ & _ & Hareas).
  destruct (Hareas ai a Hai) as (a'' & Hai'' & HS & HE & _).
  replace a'' with a' in * by congruence.
  assert (Hf : FLAGS a' !! Z.to_nat (b - START a') = Some UNK)
    by (apply Hwin; lia).
  split.
  - apply (get_flags_at s' b ai a' UNK Hno' Hai'); [lia|exact Hf].
  - apply (get_unit_size_other s' b ai a' UNK Hno' Hai'); [lia|exact Hf|..];
      discriminate.
Qed.

Lemma make_undefined_resets_witness :
  exists s',
    make_undefined 0 2 AS_data_unit = (Ok tt, s') /\
    forall b, 0 <= b < 0 + 2 ->
      (get_flags b s').1 = Ok UNK /\ (get_unit_size b s').1 = Ok 1.
Proof.
  apply (make_undefined_resets AS_data_unit 0 2 0
           (mk_area 0 3 EmptyString [0; 0; 0; 0] [DATA; DATA_CONT; 0; 0])).
  - intros [|i] [|j] a b addr Hi Hj; simpl in *; try discriminate; auto.
  - reflexivity.
  - split; reflexivity.
  - lia.
  - simpl; lia.
  - simpl; lia.
Defined.

Lemma frame_wf_area ai lo hi s s' a a' :
  flags_changed_within ai lo hi s s' ->
  area_list s !! ai = Some a -> area_list s' !! ai = Some a' ->
  wf_area a -> wf_area a'.
Proof.
  intros (_ & _ & _ & _ & _ & Hareas) Hai Hai' [Hb Hf].
  destruct (Hareas ai a Hai) as (b & Hb' & HS & HE & _ & HB & Hlen & _).
  replace b with a' in * by congruence.
  split; [rewrite HB|rewrite Hlen]; congruence.
Qed.

Lemma lor_byte x y : 0 <= x < 256 -> 0 <= y < 256 -> 0 <= Z.lor x y < 256.
Proof.
  intros Hx Hy.
  assert (H0 : 0 <= Z.lor x y) by (apply Z.lor_nonneg; lia).
  split; [exact H0|].
  assert (Hlog : forall z, 0 <= z < 256 -> Z.log2 z < 8).
  { intros z Hz. destruct (Z.eq_dec z 0) as [->|]; [reflexivity|].
    apply Z.log2_lt_pow2; lia. }
  destruct (Z.eq_dec (Z.lor x y) 0) as [->|Hne]; [lia|].
  apply (proj2 (Z.log2_lt_pow2 (Z.lor x y) 8 ltac:(lia))).
  rewrite Z.log2_lor by lia.
  apply Z.max_lub_lt; apply Hlog; lia.
Qed.

(** [flags[k] |= fl] on a byte. *)
Lemma or_flag_byte s ai a k x fl :
  area_list s !! ai = Some a -> 0 <= k ->
  FLAGS a !! Z.to_nat k = Some x -> 0 <= x < 256 -> 0 <= fl < 256 ->
  or_flag ai k fl s =
    (Ok tt, set_area_list
              (fun l => <[ai := set_FLAGS (<[Z.to_nat k := Z.lor x fl]> (FLAGS a)) a]> l) s).
Proof.
  intros Ha Hk Hx Hxb Hfl. unfold or_flag.
  rewrite (bind_ok _ _ _ _ _ (load_flag_ok s ai a k x Ha Hk Hx)).
  apply store_flag_ok; auto.
  - apply lookup_lt_Some in Hx. lia.
  - now apply lor_byte.
Qed.

(** The loop of [make_code]/[make_data] over any window of bytes. *)
Lemma or_flags_loop_byte (n : nat) : forall ai off i fl s a,
  area_list s !! ai = Some a -> 0 <= off + 1 + i -> 0 <= fl < 256 ->
  (forall k : nat, off + 1 + i <= Z.of_nat k < off + 1 + i + Z.of_nat n ->
                   exists x, FLAGS a !! k = Some x /\ 0 <= x < 256) ->
  exists s' a',
    or_flags_loop n ai off i fl s = (Ok tt, s') /\
    area_list s' !! ai = Some a' /\
    (forall k : nat, off + 1 + i <= Z.of_nat k < off + 1 + i + Z.of_nat n ->
                     FLAGS a' !! k = (fun x => Z.lor x fl) <$> FLAGS a !! k) /\
    (forall k : nat, Z.of_nat k < off + 1 + i \/
                     off + 1 + i + Z.of_nat n <= Z.of_nat k ->
                     FLAGS a' !! k = FLAGS a !! k).
Proof.
  induction n as [|n IH]; intros ai off i fl s a Ha H0 Hfl Hb; cbn [or_flags_loop].
  - exists s, a. repeat split; auto. intros; lia.
  - destruct (Hb (Z.to_nat (off + 1 + i)) ltac:(lia)) as (x & Hx & Hxb).
    rewrite (bind_ok _ _ _ _ _ (or_flag_byte s ai a _ x fl Ha H0 Hx Hxb Hfl)).
    set (a1 := set_FLAGS (<[Z.to_nat (off + 1 + i) := Z.lor x fl]> (FLAGS a)) a).
    set (s1 := set_area_list _ s).
    assert (Ha1 : area_list s1 !! ai = Some a1).
    { subst s1. simpl. apply list_lookup_insert_eq. now apply lookup_lt_Some in Ha. }
    destruct (IH ai off (i + 1) fl s1 a1 Ha1 ltac:(lia) Hfl) as
      (s' & a' & Hrun & Ha' & Hin & Hout).
    { intros k Hk'. subst a1; simpl.
      rewrite list_lookup_insert_ne by lia. apply Hb. lia. }
    exists s', a'. split; [exact Hrun|]. split; [exact Ha'|]. split.
    + intros k Hk'. destruct (decide (Z.of_nat k = off + 1 + i)) as [E|E].
      * rewrite Hout by lia. subst a1; simpl.
        replace k with (Z.to_nat (off + 1 + i)) by lia.
        rewrite Hx. apply list_lookup_insert_eq. apply lookup_lt_Some in Hx. exact Hx.
      * rewrite Hin by lia. subst a1; simpl.
        now rewrite list_lookup_insert_ne by lia.
    + intros k Hk'. rewrite Hout by lia. subst a1; simpl.
      apply list_lookup_insert_ne. lia.
Qed.

(** The shared body of [make_code] and [make_data] on an area whose flag
    buffer holds bytes: it returns, and or-s [h] into the first flag and [c]
    into the others. *)
Lemma or_writer_ok s addr n ai a h c :
  non_overlapping (area_list s) -> area_list s !! ai = Some a -> wf_area a ->
  Forall is_byte (FLAGS a) -> 0 <= h < 256 -> 0 <= c < 256 ->
  1 <= n -> START a <= addr -> addr + n - 1 <= END a ->
  exists s' a',
    (addr2area addr ≫= fun r => deref r ≫= fun '(off, ai, _) =>
       or_flag ai off h;; or_flags_loop (Z.to_nat (n - 1)) ai off 0 c) s
      = (Ok tt, s') /\
    flags_changed_within ai (addr - START a) (addr - START a + n) s s' /\
    non_overlapping (area_list s') /\
    area_list s' !! ai = Some a' /\ START a' = START a /\ END a' = END a /\
    length (FLAGS a') = length (FLAGS a) /\
    (forall k : nat,
       FLAGS a' !! k =
         if decide (Z.of_nat k = addr - START a)
         then (fun x => Z.lor x h) <$> FLAGS a !! k
         else if decide (addr - START a < Z.of_nat k < addr - START a + n)
              then (fun x => Z.lor x c) <$> FLAGS a !! k
              else FLAGS a !! k).
Proof.
  intros Hno Hai [_ Hwf] Hbytes Hh Hc Hn Hlo Hhi.
  pose proof (or_writer_frame s addr n ai a h c Hno Hai Hn ltac:(lia)) as Hfr.
  assert (Hbyte : forall k : nat, (k < length (FLAGS a))%nat ->
            exists x, FLAGS a !! k = Some x /\ 0 <= x < 256).
  { intros k Hk. destruct (lookup_lt_is_Some_2 _ _ Hk) as [x Hx].
    exists x. split; [exact Hx|].
    exact (proj1 (Forall_lookup _ _) Hbytes k x Hx). }
  destruct (addr2area_in s addr ai a Hno Hai) as (s0 & Hr & Hal & _).
  { apply in_area_iff. lia. }
  rewrite (bind_ok _ _ _ _ _ Hr) in *.
  assert (Hai0 : area_list s0 !! ai = Some a) by now rewrite Hal.
  rewrite (bind_ok _ _ _ _ _ (deref_some s0 _ ai a Hai0)) in *.
  set (off := addr - START a) in *.
  destruct (Hbyte (Z.to_nat off) ltac:(lia)) as (x & Hx & Hxb).
  rewrite (bind_ok _ _ _ _ _ (or_flag_byte s0 ai a off x h Hai0 ltac:(lia) Hx Hxb Hh))
    in *.
  set (a1 := set_FLAGS (<[Z.to_nat off := Z.lor x h]> (FLAGS a)) a) in *.
  set (s1 := set_area_list _ s0) in *.
  assert (Ha1 : area_list s1 !! ai = Some a1).
  { subst s1. simpl. apply list_lookup_insert_eq. now apply lookup_lt_Some in Hai0. }
  destruct (or_flags_loop_byte (Z.to_nat (n - 1)) ai off 0 c s1 a1 Ha1
              ltac:(lia) Hc) as (s' & a' & Hloop & Ha' & Hwin & Hout).
  { intros k Hk. subst a1; simpl. rewrite list_lookup_insert_ne by lia.
    apply Hbyte. lia. }
  rewrite Hloop in *. cbn [snd] in Hfr.
  pose proof Hfr as (_ & _ & _ & _ & _ & Hareas).
  destruct (Hareas ai a Hai) as (a'' & Hai'' & HS & HE & _ & _ & Hlen & _).
  replace a'' with a' in * by congruence.
  exists s', a'. split; [reflexivity|]. split; [exact Hfr|].
  split; [exact (frame_non_overlapping _ _ _ _ _ Hfr Hno)|].
  split; [exact Ha'|]. split; [exact HS|]. split; [exact HE|].
  split; [exact Hlen|]. intros k.
  destruct (decide (Z.of_nat k = off)) as [E|E].
  - rewrite Hout by lia. subst a1; simpl.
    replace k with (Z.to_nat off) by lia. rewrite Hx.
    apply list_lookup_insert_eq. lia.
  - destruct (decide (off < Z.of_nat k < off + n)) as [E2|E2].
    + rewrite Hwin by lia. subst a1; simpl.
      now rewrite list_lookup_insert_ne by lia.
    + destruct (Z_lt_ge_dec (Z.of_nat k) off).
      * rewrite Hout by lia. subst a1; simpl.
        now rewrite list_lookup_insert_ne by lia.
      * rewrite Hout by lia. subst a1; simpl.
        now rewrite list_lookup_insert_ne by lia.
Qed.

(** X16.  [make_code] and [make_data] add to the flags, they do not
    replace them: on an area whose flag buffer holds bytes, with
    [addr .. addr + n - 1] inside it and [n >= 1], both return, and a byte of
    the range that had flag [f] has [f | CODE] (or [f | DATA]) at [addr] and
    [f | CODE_CONT] (or [f | DATA_CONT]) behind it. *)
Theorem make_code_make_data_or_flags s addr n ai a :
  non_overlapping (area_list s) -> area_list s !! ai = Some a -> wf_area a ->
  Forall is_byte (FLAGS a) ->
  1 <= n -> START a <= addr -> addr + n - 1 <= END a ->
  exists sc sd,
    make_code addr n s = (Ok tt, sc) /\
    make_data addr n s = (Ok tt, sd) /\
    forall b f, addr <= b < addr + n -> (get_flags b s).1 = Ok f ->
      (get_flags b sc).1 = Ok (Z.lor f (if b =? addr then CODE else CODE_CONT)) /\
      (get_flags b sd).1 = Ok (Z.lor f (if b =? addr then DATA else DATA_CONT)).
Proof.
  intros Hno Hai Hwf Hbytes Hn Hlo Hhi.
  destruct (or_writer_ok s addr n ai a CODE CODE_CONT Hno Hai Hwf Hbytes
              ltac:(unfold CODE; lia) ltac:(unfold CODE_CONT; lia) Hn Hlo Hhi)
    as (sc & ac & Hc & _ & Hnoc & Haic & HSc & HEc & _ & Hfc).
  destruct (or_writer_ok s addr n ai a DATA DATA_CONT Hno Hai Hwf Hbytes
              ltac:(unfold DATA; lia) ltac:(unfold DATA_CONT; lia) Hn Hlo Hhi)
    as (sd & ad & Hd & _ & Hnod & Haid & HSd & HEd & _ & Hfd).
  exists sc, sd. split; [exact Hc|]. split; [exact Hd|].
  intros b f Hb Hf.
  apply (get_flags_at_inv s b ai a f Hno Hai ltac:(lia)) in Hf.
  split.
  - apply (get_flags_at sc b ai ac _ Hnoc Haic); [lia|].
    rewrite HSc, Hfc, Hf.
    destruct (Z.eqb_spec b addr) as [->|Hne].
    + rewrite decide_True by lia. reflexivity.
    + rewrite decide_False by lia. rewrite decide_True by lia. reflexivity.
  - apply (get_flags_at sd b ai ad _ Hnod Haid); [lia|].
    rewrite HSd, Hfd, Hf.
    destruct (Z.eqb_spec b addr) as [->|Hne].
    + rewrite decide_True by lia. reflexivity.
    + rewrite decide_False by lia. rewrite decide_True by lia. reflexivity.
Qed.

Lemma make_code_make_data_or_flags_witness :
  exists sc sd,
    make_code 0 2 AS_data_unit = (Ok tt, sc) /\
    make_data 0 2 AS_data_unit = (Ok tt, sd) /\
    forall b f, 0 <= b < 0 + 2 -> (get_flags b AS_data_unit).1 = Ok f ->
      (get_flags b sc).1 = Ok (Z.lor f (if b =? 0 then CODE else CODE_CONT)) /\
      (get_flags b sd).1 = Ok (Z.lor f (if b =? 0 then DATA else DATA_CONT)).
Proof.
  apply (make_code_make_data_or_flags AS_data_unit 0 2 0
           (mk_area 0 3 EmptyString [0; 0; 0; 0] [DATA; DATA_CONT; 0; 0])).
  - intros [|i] [|j] a b addr Hi Hj; simpl in *; try discriminate; auto.
  - reflexivity.
  - split; reflexivity.
  - repeat (apply List.Forall_cons || apply List.Forall_nil);
      unfold is_byte, DATA, DATA_CONT; lia.
  - lia.
  - simpl; lia.
  - simpl; lia.
Defined.

(** ** Units of data, undoing and repeating a flag writer *)

(** [set_flags] on a window inside one area. *)
Lemma set_flags_ok s addr n ai a h c :
  non_overlapping (area_list s) -> area_list s !! ai = Some a -> wf_area a ->
  0 <= h < 256 -> 0 <= c < 256 ->
  1 <= n -> START a <= addr -> addr + n - 1 <= END a ->
  exists s' a',
    set_flags addr n h c s = (Ok tt, s') /\
    flags_changed_within ai (addr - START a) (addr - START a + n) s s' /\
    area_list s' !! ai = Some a' /\
    (forall k : nat,
       FLAGS a' !! k =
         if decide (Z.of_nat k = addr - START a) then Some h
         else if decide (addr - START a < Z.of_nat k < addr - START a + n)
              then Some c
              else FLAGS a !! k).
Proof.
  intros Hno Hai [_ Hwf] Hh Hc Hn Hlo Hhi.
  pose proof (set_flags_frame s addr n ai a h c Hno Hai Hn ltac:(lia)) as Hfr.
  unfold set_flags in *.
  destruct (addr2area_in s addr ai a Hno Hai) as (s0 & Hr & Hal & _).
  { apply in_area_iff. lia. }
  rewrite (bind_ok _ _ _ _ _ Hr) in *.
  assert (Hai0 : area_list s0 !! ai = Some a) by now rewrite Hal.
  rewrite (bind_ok _ _ _ _ _ (deref_some s0 _ ai a Hai0)) in *.
  set (off := addr - START a) in *.
  rewrite (bind_ok _ _ _ _ _ (store_flag_ok s0 ai a off h Hai0 ltac:(lia) Hh)) in *.
  set (a1 := set_FLAGS (<[Z.to_nat off := h]> (FLAGS a)) a) in *.
  set (s1 := set_area_list _ s0) in *.
  assert (Ha1 : area_list s1 !! ai = Some a1).
  { subst s1. simpl. apply list_lookup_insert_eq. now apply lookup_lt_Some in Hai0. }
  destruct (set_flags_loop_ok (Z.to_nat (n - 1)) ai (off + 1) 0 c s1 a1 Ha1
              ltac:(lia) Hc) as (s' & a' & Hloop & Ha' & Hwin & Hout).
  { subst a1; simpl. rewrite length_insert. lia. }
  rewrite Hloop in *. cbn [snd] in Hfr.
  exists s', a'. split; [reflexivity|]. split; [exact Hfr|]. split; [exact Ha'|].
  intros k. destruct (decide (Z.of_nat k = off)) as [E|E].
  - rewrite Hout by lia. subst a1; simpl.
    replace k with (Z.to_nat off) by lia. apply list_lookup_insert_eq. lia.
  - destruct (decide (off < Z.of_nat k < off + n)) as [E2|E2].
    + apply Hwin. lia.
    + rewrite Hout by lia. subst a1; simpl.
      now rewrite list_lookup_insert_ne by lia.
Qed.

(** A writer that stays in its window and leaves the flag buffer of its
    area as it was has changed nothing but the cache. *)
Lemma frame_same_flags ai lo hi s s' :
  flags_changed_within ai lo hi s s' ->
  (forall a a', area_list s !! ai = Some a -> area_list s' !! ai = Some a' ->
                FLAGS a' = FLAGS a) ->
  same_but_cache s s'.
Proof.
  intros (L & C & X & P & N & H) Hfl. repeat split; auto.
  apply list_eq. intros j.
  destruct (area_list s !! j) as [b|] eqn:Hb.
  - destruct (H j b Hb) as (b' & Hb' & HS & HE & HP & HB & _ & Hne & _).
    rewrite Hb'. f_equal.
    assert (HF : FLAGS b' = FLAGS b).
    { destruct (decide (j = ai)) as [->|Hj]; [now apply Hfl|now apply Hne]. }
    destruct b, b'. simpl in *. congruence.
  - apply lookup_ge_None in Hb. apply lookup_ge_None. lia.
Qed.

(** [get_unit_size] counts the continuation flags behind a head, up to the
    first other flag. *)
Lemma get_unit_size_run s addr n ai a h :
  non_overlapping (area_list s) -> area_list s !! ai = Some a -> wf_area a ->
  1 <= n -> START a <= addr -> addr + n <= END a ->
  h = CODE \/ h = DATA \/ h = STR ->
  FLAGS a !! Z.to_nat (addr - START a) = Some h ->
  (forall b, addr < b < addr + n ->
             FLAGS a !! Z.to_nat (b - START a) = Some (cont_of h)) ->
  FLAGS a !! Z.to_nat (addr + n - START a) <> Some (cont_of h) ->
  exists s', get_unit_size addr s = (Ok n, s') /\ same_but_cache s s'.
Proof.
  intros Hno Hai [_ Hwf] Hn Hlo Hhi Hcase Hh Hrun Hnext. unfold get_unit_size.
  destruct (addr2area_in s addr ai a Hno Hai) as (s2 & Hr & Hsame).
  { apply in_area_iff. lia. }
  pose proof Hsame as (Hal & _). exists s2. split; [|exact Hsame].
  rewrite (bind_ok _ _ _ _ _ Hr).
  rewrite (bind_ok _ _ _ _ _ (deref_some s2 _ ai a ltac:(now rewrite Hal))).
  rewrite (bind_ok _ _ _ _ _
             (lift_ok _ _ s2 (py_index_ok (FLAGS a) (addr - START a) h
                                ltac:(lia) Hh))).
  assert (Hlt : (Z.to_nat (addr + n - START a) < length (FLAGS a))%nat) by lia.
  destruct (lookup_lt_is_Some_2 _ _ Hlt) as [x Hx].
  assert (Hscan : forall f, f = cont_of h ->
            scan_flags (FLAGS a) f (addr - START a + 1) 1 = Ok n).
  { intros f ->.
    rewrite (scan_flags_run (FLAGS a) (cont_of h) (addr - START a + 1) 1
               (Z.to_nat (n - 1)) x).
    - f_equal. lia.
    - lia.
    - intros i Hi.
      replace (addr - START a + 1 + Z.of_nat i)
        with ((addr + 1 + Z.of_nat i) - START a) by lia.
      apply Hrun. lia.
    - replace (addr - START a + 1 + Z.of_nat (Z.to_nat (n - 1)))
        with (addr + n - START a) by lia.
      exact Hx.
    - intros ->. now apply Hnext. }
  destruct Hcase as [->|[->| ->]]; cbn [Z.eqb CODE DATA STR Pos.eqb orb];
    unfold lift; now rewrite Hscan.
Qed.

(** X17.  The unit that [make_data] makes: with [addr .. addr + n] in one
    area, [n >= 1], the flags of [addr .. addr + n - 1] equal to [UNK] and
    the flag at [addr + n] not [DATA_CONT], [make_data(addr, n)] returns
    and [get_unit_size(addr)] is [n] afterwards. *)
Theorem make_data_unit_size s addr n ai a :
  non_overlapping (area_list s) -> area_list s !! ai = Some a -> wf_area a ->
  Forall is_byte (FLAGS a) ->
  1 <= n -> START a <= addr -> addr + n <= END a ->
  (forall b, addr <= b < addr + n ->
             FLAGS a !! Z.to_nat (b - START a) = Some UNK) ->
  FLAGS a !! Z.to_nat (addr + n - START a) <> Some DATA_CONT ->
  exists s',
    make_data addr n s = (Ok tt, s') /\
    (get_unit_size addr s').1 = Ok n.
Proof.
  intros Hno Hai Hwf Hbytes Hn Hlo Hhi Hunk Hnext.
  destruct (or_writer_ok s addr n ai a DATA DATA_CONT Hno Hai Hwf Hbytes
              ltac:(unfold DATA; lia) ltac:(unfold DATA_CONT; lia) Hn Hlo
              ltac:(lia))
    as (s' & a' & Hrun & Hfr & Hno' & Hai' & HS & HE & Hlen & Hfl).
  exists s'. split; [exact Hrun|].
  pose proof (frame_wf_area _ _ _ _ _ _ _ Hfr Hai Hai' Hwf) as Hwf'.
  destruct (get_unit_size_run s' addr n ai a' DATA Hno' Hai' Hwf' Hn
              ltac:(lia) ltac:(lia) ltac:(auto)) as (s2 & -> & _);
    [| | |reflexivity].
  - rewrite HS, Hfl, decide_True by lia. now rewrite (Hunk addr) by lia.
  - intros b Hb. rewrite HS, Hfl, decide_False by lia.
    rewrite decide_True by lia. now rewrite Hunk by lia.
  - rewrite HS, Hfl, decide_False by lia. rewrite decide_False by lia.
    exact Hnext.
Qed.

Lemma make_data_unit_size_witness :
  exists s',
    make_data 0 2 AS_0_3 = (Ok tt, s') /\
    (get_unit_size 0 s').1 = Ok 2.
Proof.
  apply (make_data_unit_size AS_0_3 0 2 0
           (mk_area 0 3 EmptyString [0; 0; 0; 0] [0; 0; 0; 0])).
  - intros [|i] [|j] a b addr Hi Hj; simpl in *; try discriminate; auto.
  - reflexivity.
  - split; reflexivity.
  - repeat (apply List.Forall_cons || apply List.Forall_nil); unfold is_byte; lia.
  - lia.
  - simpl; lia.
  - simpl; lia.
  - intros b Hb. simpl.
    assert (b = 0 \/ b = 1) as [-> | ->] by lia; reflexivity.
  - simpl. discriminate.
Defined.

(** X18.  [make_undefined] undoes [make_code] and [make_data] on bytes that
    were undefined: when the flags of [addr .. addr + n - 1] are [UNK],
    [make_code(addr, n)] (or [make_data]) followed by
    [make_undefined(addr, n)] returns and leaves every area, flag and table
    as it was. *)
Theorem make_undefined_undoes s addr n ai a :
  non_overlapping (area_list s) -> area_list s !! ai = Some a -> wf_area a ->
  Forall is_byte (FLAGS a) ->
  1 <= n -> START a <= addr -> addr + n - 1 <= END a ->
  (forall b, addr <= b < addr + n ->
             FLAGS a !! Z.to_nat (b - START a) = Some UNK) ->
  exists sc sd,
    (make_code addr n;; make_undefined addr n) s = (Ok tt, sc) /\
    (make_data addr n;; make_undefined addr n) s = (Ok tt, sd) /\
    same_but_cache s sc /\ same_but_cache s sd.
Proof.
  intros Hno Hai Hwf Hbytes Hn Hlo Hhi Hunk.
  assert (Hgen : forall h c, 0 <= h < 256 -> 0 <= c < 256 ->
    exists s2,
      ((addr2area addr ≫= fun r => deref r ≫= fun '(off, ai, _) =>
          or_flag ai off h;; or_flags_loop (Z.to_nat (n - 1)) ai off 0 c);;
       make_undefined addr n) s = (Ok tt, s2) /\ same_but_cache s s2).
  { intros h c Hh Hc.
    destruct (or_writer_ok s addr n ai a h c Hno Hai Hwf Hbytes Hh Hc Hn Hlo Hhi)
      as (s1 & a1 & Hrun & Hfr1 & Hno1 & Hai1 & HS & HE & Hlen & _).
    rewrite (bind_ok _ _ _ _ _ Hrun).
    assert (Hwf1 : wf_area a1).
    { pose proof Hfr1 as (_ & _ & _ & _ & _ & Hareas).
      destruct (Hareas ai a Hai) as (a'' & Hai'' & _ & _ & _ & HB & _).
      replace a'' with a1 in * by congruence.
      destruct Hwf as [Hb Hf]. split; [rewrite HB|rewrite Hlen]; congruence. }
    destruct (set_flags_ok s1 addr n ai a1 UNK UNK Hno1 Hai1 Hwf1
                ltac:(unfold UNK; lia) ltac:(unfold UNK; lia) Hn
                ltac:(lia) ltac:(lia))
      as (s2 & a2 & Hrun2 & Hfr2 & Hai2 & Hfl2).
    exists s2. split; [exact Hrun2|]. rewrite HS in Hfr2.
    apply (frame_same_flags ai (addr - START a) (addr - START a + n));
      [exact (frame_trans _ _ _ _ _ _ Hfr1 Hfr2)|].
    intros b b' Hb Hb'.
    replace b with a by congruence. replace b' with a2 by congruence.
    apply list_eq. intros k. rewrite Hfl2, HS.
    pose proof Hfr1 as (_ & _ & _ & _ & _ & Hareas).
    destruct (Hareas ai a Hai) as (a'' & Hai'' & _ & _ & _ & _ & _ & _ & Hout).
    replace a'' with a1 in * by congruence.
    destruct (decide (Z.of_nat k = addr - START a)) as [E|E].
    - replace k with (Z.to_nat (addr - START a)) by lia.
      symmetry. apply Hunk. lia.
    - destruct (decide (addr - START a < Z.of_nat k < addr - START a + n)).
      + replace k with (Z.to_nat ((START a + Z.of_nat k) - START a)) by lia.
        symmetry. apply Hunk. lia.
      + apply Hout. lia. }
  destruct (Hgen CODE CODE_CONT ltac:(unfold CODE; lia) ltac:(unfold CODE_CONT; lia))
    as (sc & Hc & Hsc).
  destruct (Hgen DATA DATA_CONT ltac:(unfold DATA; lia) ltac:(unfold DATA_CONT; lia))
    as (sd & Hd & Hsd).
  exists sc, sd. auto.
Qed.

Lemma make_undefined_undoes_witness :
  exists sc sd,
    (make_code 1 2;; make_undefined 1 2) AS_0_3 = (Ok tt, sc) /\
    (make_data 1 2;; make_undefined 1 2) AS_0_3 = (Ok tt, sd) /\
    same_but_cache AS_0_3 sc /\ same_but_cache AS_0_3 sd.
Proof.
  apply (make_undefined_undoes AS_0_3 1 2 0
           (mk_area 0 3 EmptyString [0; 0; 0; 0] [0; 0; 0; 0])).
  - intros [|i] [|j] a b addr Hi Hj; simpl in *; try discriminate; auto.
  - reflexivity.
  - split; reflexivity.
  - repeat (apply List.Forall_cons || apply List.Forall_nil); unfold is_byte; lia.
  - lia.
  - simpl; lia.
  - simpl; lia.
  - intros b Hb. simpl.
    assert (b = 1 \/ b = 2) as [-> | ->] by lia; reflexivity.
Defined.

Lemma lor_idem x y : Z.lor (Z.lor x y) y = Z.lor x y.
Proof. now rewrite <- Z.lor_assoc, Z.lor_diag. Qed.

(** X19.  [make_code] and [make_data] are idempotent: on an area whose flag
    buffer holds bytes, a second call with the same arguments returns and
    changes no area, flag or table. *)
Theorem make_code_make_data_idempotent s addr n ai a :
  non_overlapping (area_list s) -> area_list s !! ai = Some a -> wf_area a ->
  Forall is_byte (FLAGS a) ->
  1 <= n -> START a <= addr -> addr + n - 1 <= END a ->
  exists sc sc' sd sd',
    make_code addr n s = (Ok tt, sc) /\ make_code addr n sc = (Ok tt, sc') /\
    same_but_cache sc sc' /\
    make_data addr n s = (Ok tt, sd) /\ make_data addr n sd = (Ok tt, sd') /\
    same_but_cache sd sd'.
Proof.
  intros Hno Hai Hwf Hbytes Hn Hlo Hhi.
  assert (Hgen : forall h c, 0 <= h < 256 -> 0 <= c < 256 ->
    let w := addr2area addr ≫= fun r => deref r ≫= fun '(off, ai, _) =>
               or_flag ai off h;; or_flags_loop (Z.to_nat (n - 1)) ai off 0 c in
    exists s1 s2, w s = (Ok tt, s1) /\ w s1 = (Ok tt, s2) /\ same_but_cache s1 s2).
  { intros h c Hh Hc w. subst w.
    destruct (or_writer_ok s addr n ai a h c Hno Hai Hwf Hbytes Hh Hc Hn Hlo Hhi)
      as (s1 & a1 & Hrun & Hfr1 & Hno1 & Hai1 & HS & HE & Hlen & Hfl1).
    pose proof Hfr1 as (_ & _ & _ & _ & _ & Hareas).
    destruct (Hareas ai a Hai) as (a'' & Hai'' & _ & _ & _ & HB & _).
    replace a'' with a1 in * by congruence.
    assert (Hwf1 : wf_area a1).
    { destruct Hwf as [Hb Hf]. split; [rewrite HB|rewrite Hlen]; congruence. }
    assert (Hbytes1 : Forall is_byte (FLAGS a1)).
    { apply Forall_lookup. intros k y Hy. rewrite Hfl1 in Hy.
      destruct (FLAGS a !! k) as [x|] eqn:Hx;
        [|repeat destruct (decide _); discriminate].
      pose proof (proj1 (Forall_lookup _ _) Hbytes k x Hx) as Hxb.
      unfold is_byte in *.
      repeat destruct (decide _); cbn in Hy; injection Hy as <-;
        auto using lor_byte. }
    destruct (or_writer_ok s1 addr n ai a1 h c Hno1 Hai1 Hwf1 Hbytes1 Hh Hc Hn
                ltac:(lia) ltac:(lia))
      as (s2 & a2 & Hrun2 & Hfr2 & _ & Hai2 & _ & _ & _ & Hfl2).
    exists s1, s2. split; [exact Hrun|]. split; [exact Hrun2|].
    apply (frame_same_flags _ _ _ _ _ Hfr2).
    intros b b' Hb Hb'.
    replace b with a1 by congruence. replace b' with a2 by congruence.
    apply list_eq. intros k. rewrite Hfl2, HS, Hfl1.
    destruct (FLAGS a !! k) as [x|];
      repeat destruct (decide _); cbn; try reflexivity;
      now rewrite lor_idem. }
  destruct (Hgen CODE CODE_CONT ltac:(unfold CODE; lia) ltac:(unfold CODE_CONT; lia))
    as (sc & sc' & H1 & H2 & H3).
  destruct (Hgen DATA DATA_CONT ltac:(unfold DATA; lia) ltac:(unfold DATA_CONT; lia))
    as (sd & sd' & H4 & H5 & H6).
  exists sc, sc', sd, sd'. auto 10.
Qed.

Lemma make_code_make_data_idempotent_witness :
  exists sc sc' sd sd',
    make_code 0 2 AS_data_unit = (Ok tt, sc) /\
    make_code 0 2 sc = (Ok tt, sc') /\ same_but_cache sc sc' /\
    make_data 0 2 AS_data_unit = (Ok tt, sd) /\
    make_data 0 2 sd = (Ok tt, sd') /\ same_but_cache sd sd'.
Proof.
  apply (make_code_make_data_idempotent AS_data_unit 0 2 0
           (mk_area 0 3 EmptyString [0; 0; 0; 0] [DATA; DATA_CONT; 0; 0])).
  - intros [|i] [|j] a b addr Hi Hj; simpl in *; try discriminate; auto.
  - reflexivity.
  - split; reflexivity.
  - repeat (apply List.Forall_cons || apply List.Forall_nil);
      unfold is_byte, DATA, DATA_CONT; lia.
  - lia.
  - simpl; lia.
  - simpl; lia.
Defined.

Lemma adjust_offset_reverse_loop_head fl : forall (n : nat) off,
  0 <= off <= Z.of_nat n -> off < Z.of_nat (length fl) ->
  exists off',
    adjust_offset_reverse_loop n fl off = Ok off' /\ 0 <= off' <= off /\
    (forall k : nat, off' < Z.of_nat k <= off ->
                     exists x, fl !! k = Some x /\ is_cont x = true) /\
    (off' = 0 \/ exists x, fl !! Z.to_nat off' = Some x /\ is_cont x = false).
Proof.
  induction n as [|n IH]; intros off Hoff Hlt; cbn [adjust_offset_reverse_loop].
  - exists off. split; [reflexivity|]. split; [lia|]. split; [intros; lia|].
    left. lia.
  - destruct (Z.ltb_spec 0 off) as [Hpos|Hzero].
    + destruct (lookup_lt_is_Some_2 fl (Z.to_nat off) ltac:(lia)) as [f Hf].
      rewrite (py_index_ok fl off f ltac:(lia) Hf).
      change ((f =? CODE_CONT) || (f =? DATA_CONT)) with (is_cont f).
      destruct (is_cont f) eqn:Ec.
      * destruct (IH (off - 1) ltac:(lia) ltac:(lia)) as (off' & E & Hb & Hrun & Hh).
        exists off'. split; [exact E|]. split; [lia|]. split; [|exact Hh].
        intros k Hk. destruct (decide (Z.of_nat k = off)) as [Ek|Ek].
        -- exists f. replace k with (Z.to_nat off) by lia. auto.
        -- apply Hrun. lia.
      * exists off. split; [reflexivity|]. split; [lia|]. split; [intros; lia|].
        right. eauto.
    + exists off. split; [reflexivity|]. split; [lia|]. split; [intros; lia|].
      left. lia.
Qed.

(** X20.  [adjust_offset_reverse] walks back over continuation flags: for
    an offset inside the flag buffer it answers the nearest offset at or
    below it whose flag is not [CODE_CONT] or [DATA_CONT], and 0 when
    there is none (the flag at 0 is never read). *)
Theorem adjust_offset_reverse_head off a :
  0 <= off < Z.of_nat (length (FLAGS a)) ->
  exists off',
    adjust_offset_reverse off a = Ok off' /\ 0 <= off' <= off /\
    (forall k : nat, off' < Z.of_nat k <= off ->
                     exists x, FLAGS a !! k = Some x /\ is_cont x = true) /\
    (off' = 0 \/
     exists x, FLAGS a !! Z.to_nat off' = Some x /\ is_cont x = false).
Proof.
  intros Hoff. apply adjust_offset_reverse_loop_head; lia.
Qed.

Lemma adjust_offset_reverse_head_witness :
  exists off',
    adjust_offset_reverse 1 (mk_area 0 3 EmptyString [0; 0; 0; 0]
                                     [DATA; DATA_CONT; 0; 0]) = Ok off' /\
    0 <= off' <= 1 /\
    (forall k : nat, off' < Z.of_nat k <= 1 ->
       exists x, [DATA; DATA_CONT; 0; 0] !! k = Some x /\ is_cont x = true) /\
    (off' = 0 \/
     exists x, [DATA; DATA_CONT; 0; 0] !! Z.to_nat off' = Some x /\
               is_cont x = false).
Proof.
  apply (adjust_offset_reverse_head 1
           (mk_area 0 3 EmptyString [0; 0; 0; 0] [DATA; DATA_CONT; 0; 0])).
  simpl. lia.
Defined.

(** ** Operand properties, cross-references and labels *)

(** X21.  [get_arg_prop] after [set_arg_prop]: the property just set reads
    back, also when the address or the operand had no entry before, and
    every other property of every operand reads as it did. *)
Theorem get_arg_prop_set_arg_prop s ea arg_no prop v ea' arg_no' prop' :
  exists s1,
    set_arg_prop ea arg_no prop v s = (Ok tt, s1) /\
    (get_arg_prop ea' arg_no' prop' s1).1 =
      if decide (ea' = ea /\ arg_no' = arg_no /\ prop' = prop)
      then Ok (Some v)
      else (get_arg_prop ea' arg_no' prop' s).1.
Proof.
  eexists. split; [reflexivity|].
  unfold get_arg_prop, set_arg_prop, set_arg_props. unfold_M.
  cbn [fst snd arg_props].
  destruct (decide (ea' = ea)) as [->|Hea].
  - rewrite lookup_insert_eq. cbn [default from_option id].
    destruct (decide (arg_no' = arg_no)) as [->|Harg].
    + rewrite lookup_insert_eq. cbn [default from_option id].
      destruct (decide (prop' = prop)) as [->|Hprop].
      * rewrite lookup_insert_eq. now rewrite decide_True.
      * rewrite lookup_insert_ne by congruence. now rewrite decide_False by tauto.
    + rewrite lookup_insert_ne by congruence. now rewrite decide_False by tauto.
  - rewrite lookup_insert_ne by congruence. now rewrite decide_False by tauto.
Qed.

(** X22.  [add_xref] followed by [del_xref] with the same arguments
    returns; the source is gone from the references to [to_ea], the other
    sources and addresses are as before, and an address that had no
    references before is left with an empty table, not without one. *)
Theorem del_xref_add_xref s from_ea to_ea type :
  exists s2,
    (add_xref from_ea to_ea type;; del_xref from_ea to_ea type) s = (Ok tt, s2) /\
    (forall ea,
       (get_xrefs ea s2).1 =
         Ok (if decide (ea = to_ea)
             then Some (delete from_ea (default ∅ (xrefs s !! to_ea)))
             else xrefs s !! ea)) /\
    area_list s2 = area_list s /\ labels s2 = labels s /\
    comments s2 = comments s /\ arg_props s2 = arg_props s.
Proof.
  unfold add_xref, del_xref, get_xrefs. unfold_M. cbn [xrefs set_xrefs].
  rewrite lookup_insert_eq, lookup_insert_eq, String.eqb_refl.
  cbn [default from_option id].
  eexists. split; [reflexivity|]. split; [|now repeat split].
  intros ea. cbn [fst xrefs set_xrefs]. f_equal.
  destruct (decide (ea = to_ea)) as [->|Hne].
  - rewrite lookup_insert_eq. f_equal. apply delete_insert_eq.
  - now rewrite !lookup_insert_ne by congruence.
Qed.

(** X23.  One reference type is kept for a pair of addresses: a second
    [add_xref] for the pair replaces the type, after which [del_xref] with
    the first type fails its assertion and removes nothing. *)
Theorem add_xref_replaces_type s from_ea to_ea t1 t2 :
  t1 <> t2 ->
  exists s2 srcs,
    (add_xref from_ea to_ea t1;; add_xref from_ea to_ea t2) s = (Ok tt, s2) /\
    (get_xrefs to_ea s2).1 = Ok (Some srcs) /\ srcs !! from_ea = Some t2 /\
    del_xref from_ea to_ea t1 s2 = (Raise AssertionError, s2).
Proof.
  intros Hne.
  exists ((add_xref from_ea to_ea t1;; add_xref from_ea to_ea t2) s).2,
         (<[from_ea := t2]> (<[from_ea := t1]> (default ∅ (xrefs s !! to_ea)))).
  unfold add_xref, del_xref, get_xrefs. unfold_M. cbn [xrefs set_xrefs fst snd].
  rewrite !lookup_insert_eq. cbn [default from_option id].
  rewrite ?lookup_insert_eq.
  destruct (String.eqb_spec t2 t1) as [E|_]; [congruence|]. now repeat split.
Qed.

Lemma add_xref_replaces_type_witness :
  exists s2 srcs,
    (add_xref 0 2 "c";; add_xref 0 2 "j") AS_0_3 = (Ok tt, s2) /\
    (get_xrefs 2 s2).1 = Ok (Some srcs) /\ srcs !! 0 = Some "j" /\
    del_xref 0 2 "c" s2 = (Raise AssertionError, s2).
Proof.
  apply (add_xref_replaces_type AS_0_3 0 2 "c" "j"). discriminate.
Defined.

Lemma run_fst {S A} (m : M S A) s a :
  (m s).1 = Ok a -> exists s', m s = (Ok a, s').
Proof. destruct (m s) as [r s']. simpl. intros ->. now exists s'. Qed.

(** X24.  An auto label follows the flags, a made label does not: at an
    undefined address without a label, after [make_auto_label] and then
    [make_code] the label reads ["loc_"] and the address, while after
    [make_label] with an empty prefix and then [make_code] it still reads
    ["unk_"] and the address. *)
Theorem auto_label_follows_flags s ea n ai a :
  non_overlapping (area_list s) -> area_list s !! ai = Some a ->
  1 <= n -> START a <= ea <= END a ->
  (forall b, ea <= b < ea + n -> FLAGS a !! Z.to_nat (b - START a) = Some UNK) ->
  dict_get ea (labels s) = None ->
  ((make_auto_label ea;; make_code ea n;; get_label ea) s).1
    = Ok (Some ("loc_" +:+ fmt_08x ea)) /\
  ((make_label "" ea;; make_code ea n;; get_label ea) s).1
    = Ok (Some ("unk_" +:+ fmt_08x ea)).
Proof.
  intros Hno Hai Hn Hin Hunk Hlab. split.
  - assert (E1 : make_auto_label ea s
                 = (Ok tt, set_labels (dict_set ea (LInt ea)) s)).
    { unfold make_auto_label. unfold_M. now rewrite Hlab. }
    rewrite (bind_ok _ _ _ _ _ E1).
    set (s1 := set_labels _ s).
    destruct (make_code_unk s1 ea n ai a Hno Hai Hn Hin Hunk)
      as (s2 & a2 & E2 & Hfr & Hai2 & Hhead & _).
    rewrite (bind_ok _ _ _ _ _ E2).
    pose proof (frame_non_overlapping _ _ _ _ _ Hfr Hno) as Hno2.
    pose proof Hfr as (Hl & _ & _ & _ & _ & Hareas).
    destruct (Hareas ai a Hai) as (a'' & Hai'' & HS & HE & _).
    replace a'' with a2 in * by congruence.
    unfold get_label. rewrite (bind_ok _ _ _ _ _ (eq_refl : get s2 = (Ok s2, s2))).
    rewrite Hl. subst s1. cbn [labels set_labels].
    rewrite dict_get_set, Z.eqb_refl.
    destruct (run_fst _ _ _ (get_flags_at s2 ea ai a2 CODE Hno2 Hai2 ltac:(lia)
                               ltac:(now rewrite HS))) as (s3 & E3).
    unfold get_default_label_prefix.
    rewrite (bind_ok _ _ _ _ _ (bind_ok _ _ _ _ _ E3)). reflexivity.
  - destruct (run_fst _ _ _ (get_flags_at s ea ai a UNK Hno Hai Hin
                               ltac:(apply Hunk; lia))) as (s0 & E0).
    assert (Hs0 : same_but_cache s s0).
    { destruct (addr2area_sound s ea) as (r & s' & Hr & Hsame & Hcase).
      revert E0. unfold get_flags. rewrite (bind_ok _ _ _ _ _ Hr).
      destruct r as [[off i]|].
      - destruct Hcase as (b & Hb & _).
        pose proof Hsame as (Hal & _).
        rewrite (bind_ok _ _ _ _ _ (deref_some s' _ i b ltac:(now rewrite Hal))).
        unfold lift. intros [= _ <-]. exact Hsame.
      - discriminate. }
    pose proof Hs0 as (Hal0 & Hl0 & _).
    assert (E1 : make_label "" ea s
                 = (Ok tt, set_labels (dict_set ea (LStr ("unk_" +:+ fmt_08x ea))) s0)).
    { unfold make_label. rewrite (bind_ok _ _ _ _ _ (eq_refl : get s = (Ok s, s))).
      rewrite Hlab. change (String.eqb "" "") with true. cbv iota.
      unfold get_default_label_prefix.
      rewrite (bind_ok _ _ _ _ _ (bind_ok _ _ _ _ _ E0)). reflexivity. }
    rewrite (bind_ok _ _ _ _ _ E1).
    set (s1 := set_labels _ s0).
    assert (Hal1 : area_list s1 = area_list s) by exact Hal0.
    destruct (make_code_unk s1 ea n ai a ltac:(now rewrite Hal1)
                ltac:(now rewrite Hal1) Hn Hin Hunk)
      as (s2 & a2 & E2 & Hfr & _).
    rewrite (bind_ok _ _ _ _ _ E2).
    pose proof Hfr as (Hl & _).
    unfold get_label. rewrite (bind_ok _ _ _ _ _ (eq_refl : get s2 = (Ok s2, s2))).
    rewrite Hl. subst s1. cbn [labels set_labels].
    rewrite dict_get_set, Z.eqb_refl. reflexivity.
Qed.

Lemma auto_label_follows_flags_witness :
  ((make_auto_label 1;; make_code 1 2;; get_label 1) AS_0_3).1
    = Ok (Some ("loc_" +:+ fmt_08x 1)) /\
  ((make_label "" 1;; make_code 1 2;; get_label 1) AS_0_3).1
    = Ok (Some ("unk_" +:+ fmt_08x 1)).
Proof.
  apply (auto_label_follows_flags AS_0_3 1 2 0
           (mk_area 0 3 EmptyString [0; 0; 0; 0] [0; 0; 0; 0])).
  - intros [|i] [|j] a b addr Hi Hj; simpl in *; try discriminate; auto.
  - reflexivity.
  - lia.
  - simpl; lia.
  - intros b Hb. simpl.
    assert (b = 1 \/ b = 2) as [-> | ->] by lia; reflexivity.
  - reflexivity.
Defined.

(** ** Unique labels *)

Lemma append_inj_l a x y : a +:+ x = a +:+ y -> x = y.
Proof.
  induction a as [|c a IH]; [auto|]. cbn [String.append]. intros [= H]. auto.
Qed.

Lemma unique_candidate_inj label c c' :
  0 <= c -> 0 <= c' ->
  unique_candidate label c = unique_candidate label c' -> c = c'.
Proof.
  intros Hc Hc'. unfold unique_candidate.
  destruct (Z.ltb_spec 0 c) as [L1|L1], (Z.ltb_spec 0 c') as [L2|L2];
    intros E; try lia.
  - apply append_inj_l in E. cbn [String.append] in E.
    injection E as E. now apply str_int_inj.
  - rewrite <- (append_nil_r label) in E at 2. apply append_inj_l in E.
    discriminate.
  - rewrite <- (append_nil_r label) in E at 1. apply append_inj_l in E.
    discriminate.
Qed.

(** As many labels are in use as there are taken candidates. *)
Lemma candidates_bound label (existing : gset string) (N : nat) :
  (forall c, 0 <= c < Z.of_nat N -> unique_candidate label c ∈ existing) ->
  (N <= size existing)%nat.
Proof.
  intros Hin.
  set (l := (fun k : nat => unique_candidate label (Z.of_nat k)) <$> seq 0 N).
  assert (Hnd : NoDup l).
  { apply NoDup_fmap_2; [|apply NoDup_seq].
    intros j k H. apply unique_candidate_inj in H; lia. }
  assert (Hsub : l ⊆+ elements existing).
  { apply NoDup_submseteq; [exact Hnd|]. intros x Hx.
    apply list_elem_of_fmap in Hx as (k & -> & Hk).
    apply elem_of_seq in Hk. apply elem_of_elements, Hin. lia. }
  apply submseteq_length in Hsub.
  unfold l in Hsub. rewrite length_fmap, length_seq in Hsub. exact Hsub.
Qed.

Lemma make_unique_label_loop_ok ea label (existing : gset string) :
  forall (fuel : nat) cnt s,
    0 <= cnt ->
    (forall c, 0 <= c < cnt -> unique_candidate label c ∈ existing) ->
    (size existing < Z.to_nat cnt + fuel)%nat ->
    exists k,
      cnt <= k <= Z.of_nat (size existing) /\
      (unique_candidate label k ∉ existing) /\
      (forall c, 0 <= c < k -> unique_candidate label c ∈ existing) /\
      make_unique_label_loop fuel ea label existing cnt s
        = (Ok (unique_candidate label k),
           set_labels (dict_set ea (LStr (unique_candidate label k))) s).
Proof.
  induction fuel as [|fuel IH]; intros cnt s Hcnt Htaken Hfuel.
  - pose proof (candidates_bound label existing (Z.to_nat cnt)
                  ltac:(intros; apply Htaken; lia)). lia.
  - cbn [make_unique_label_loop].
    destruct (decide (unique_candidate label cnt ∈ existing)) as [Hin|Hout].
    + rewrite bool_decide_eq_true_2 by exact Hin.
      destruct (IH (cnt + 1) s ltac:(lia)) as (k & Hk & Hfree & Hbelow & Hrun).
      * intros c Hc. destruct (decide (c = cnt)) as [->|]; [exact Hin|].
        apply Htaken. lia.
      * lia.
      * exists k. split; [lia|]. auto.
    + rewrite bool_decide_eq_false_2 by exact Hout.
      exists cnt. split; [|split; [exact Hout|split; [exact Htaken|reflexivity]]].
      pose proof (candidates_bound label existing (Z.to_nat cnt)
                    ltac:(intros; apply Htaken; lia)). lia.
Qed.

(** X25.  [make_unique_label] ends and gives a label nobody has: when the
    label set of the address space can be computed, with as many rounds as
    there are labels plus one the loop returns [label], or [label_k] for
    the least [k >= 1] that makes it free; that string was not in the label
    set, it is stored for [ea], and [get_label(ea)] answers it. *)
Theorem make_unique_label_fresh s s0 ea label (existing : gset string)
    (fuel : nat) :
  get_label_set s = (Ok existing, s0) -> (size existing < fuel)%nat ->
  exists k s1,
    0 <= k <= Z.of_nat (size existing) /\
    make_unique_label fuel ea label s = (Ok (unique_candidate label k), s1) /\
    (unique_candidate label k ∉ existing) /\
    (forall c, 0 <= c < k -> unique_candidate label c ∈ existing) /\
    s1 = set_labels (dict_set ea (LStr (unique_candidate label k))) s0 /\
    get_label ea s1 = (Ok (Some (unique_candidate label k)), s1).
Proof.
  intros Hset Hfuel. unfold make_unique_label.
  rewrite (bind_ok _ _ _ _ _ Hset).
  destruct (make_unique_label_loop_ok ea label existing fuel 0 s0 ltac:(lia))
    as (k & Hk & Hfree & Hbelow & Hrun); [intros; lia|lia|].
  exists k, (set_labels (dict_set ea (LStr (unique_candidate label k))) s0).
  split; [lia|]. split; [exact Hrun|]. split; [exact Hfree|].
  split; [exact Hbelow|]. split; [reflexivity|].
  unfold get_label. unfold_M. cbn [labels set_labels].
  now rewrite dict_get_set, Z.eqb_refl.
Qed.

Lemma make_unique_label_fresh_witness :
  exists k s1,
    0 <= k <= Z.of_nat (size (list_to_set ["unk_00000001"; "foo"] : gset string)) /\
    make_unique_label 3 2 "foo" AS_labels = (Ok (unique_candidate "foo" k), s1) /\
    (unique_candidate "foo" k ∉ (list_to_set ["unk_00000001"; "foo"] : gset string)) /\
    (forall c, 0 <= c < k ->
       unique_candidate "foo" c ∈ (list_to_set ["unk_00000001"; "foo"] : gset string)) /\
    s1 = set_labels (dict_set 2 (LStr (unique_candidate "foo" k)))
           (get_label_set AS_labels).2 /\
    get_label 2 s1 = (Ok (Some (unique_candidate "foo" k)), s1).
Proof.
  apply (make_unique_label_fresh AS_labels (get_label_set AS_labels).2 2 "foo"
           (list_to_set ["unk_00000001"; "foo"]) 3).
  - reflexivity.
  - vm_compute. lia.
Defined.

(** ** The lines of a model *)

Lemma add_lines_snoc ls e m :
  add_lines (ls ++ [e]) m = add_line e.1 e.2 (add_lines ls m).
Proof. unfold add_lines. now rewrite foldl_app. Qed.

Lemma add_lines_inv ls t sub :
  let m := add_lines ls (Model_init t sub) in
  (_lines m).*1 = ls.*2 /\ _cnt m = Z.of_nat (length ls) /\ 0 <= _subcnt m /\
  forall addr,
    match _addr2line m !! (addr, -1) with
    | Some n =>
        0 <= n /\
        exists o, ls !! Z.to_nat n = Some (addr, o) /\ virtual o = false /\
          forall (j : nat) o', (Z.to_nat n < j)%nat ->
            ls !! j = Some (addr, o') -> virtual o' = true
    | None => forall (j : nat) o', ls !! j = Some (addr, o') -> virtual o' = true
    end.
Proof.
  induction ls as [|[a line] ls IH] using rev_ind.
  - cbn. repeat split; try lia. intros addr. rewrite lookup_empty.
    intros j o' H. now rewrite lookup_nil in H.
  - rewrite add_lines_snoc. cbn zeta in *.
    set (m := add_lines ls (Model_init t sub)) in *.
    destruct IH as (Hlines & Hcnt & Hsub & Hmap). cbn [fst snd].
    set (subcnt := if a =? _last_addr m then _subcnt m else 0).
    assert (Hsc : 0 <= subcnt) by (subst subcnt; destruct (a =? _last_addr m); lia).
    unfold add_line. fold subcnt. cbn [_lines _cnt _subcnt _addr2line].
    split; [now rewrite !fmap_app, Hlines|].
    split; [rewrite length_app; cbn [length]; lia|]. split; [lia|].
    intros addr.
    assert (Hold : (<[(a, subcnt) := _cnt m]> (_addr2line m)) !! (addr, -1)
                   = _addr2line m !! (addr, -1)).
    { apply lookup_insert_ne. intros [= _ E]. lia. }
    assert (Hkeep :
      (virtual line = true \/ addr <> a) ->
      match _addr2line m !! (addr, -1) with
      | Some n =>
          0 <= n /\
          exists o, (ls ++ [(a, line)]) !! Z.to_nat n = Some (addr, o) /\
            virtual o = false /\
            forall (j : nat) o', (Z.to_nat n < j)%nat ->
              (ls ++ [(a, line)]) !! j = Some (addr, o') -> virtual o' = true
      | None => forall (j : nat) o',
          (ls ++ [(a, line)]) !! j = Some (addr, o') -> virtual o' = true
      end).
    { intros Hcase. specialize (Hmap addr).
      assert (Hnew : forall (j : nat) o',
                (ls ++ [(a, line)]) !! j = Some (addr, o') ->
                ls !! j = Some (addr, o') \/ (addr = a /\ o' = line)).
      { intros j o' Hj. apply lookup_app_Some in Hj as [Hj|[_ Hj]]; [now left|].
        apply list_lookup_singleton_Some in Hj as [_ [= -> ->]]. now right. }
      destruct (_addr2line m !! (addr, -1)) as [n|].
      - destruct Hmap as (Hn & o & Ho & Hv & Hlast). split; [exact Hn|].
        exists o. split; [now apply lookup_app_l_Some|]. split; [exact Hv|].
        intros j o' Hj Hlk. destruct (Hnew j o' Hlk) as [Hl|[-> ->]].
        + now apply (Hlast j).
        + destruct Hcase; [auto|congruence].
      - intros j o' Hlk. destruct (Hnew j o' Hlk) as [Hl|[-> ->]].
        + now apply (Hmap j).
        + destruct Hcase; [auto|congruence]. }
    destruct (virtual line) eqn:Hv.
    + rewrite Hold. apply Hkeep. now left.
    + destruct (decide (addr = a)) as [->|Hne].
      * rewrite lookup_insert_eq. split; [lia|]. exists line.
        rewrite Hcnt, Nat2Z.id.
        split; [now apply list_lookup_middle|]. split; [exact Hv|].
        intros j o' Hj Hlk. apply lookup_lt_Some in Hlk.
        rewrite length_app in Hlk. cbn [length] in Hlk. lia.
      * rewrite lookup_insert_ne by congruence. rewrite Hold.
        apply Hkeep. now right.
Qed.

(** X26.  What [addr2line_no] means: after any sequence of [add_line]
    calls on a new model, the lines are the objects added, in order, and
    [addr2line_no(addr)] is the number of the last line added under [addr]
    that is not virtual, or [None] when every line added under [addr] is
    virtual. *)
Theorem addr2line_no_last_real_line ls t sub addr :
  let m := add_lines ls (Model_init t sub) in
  (_lines m).*1 = ls.*2 /\
  match addr2line_no addr m with
  | Some n =>
      0 <= n /\
      exists o, ls !! Z.to_nat n = Some (addr, o) /\ virtual o = false /\
        forall (j : nat) o', (Z.to_nat n < j)%nat ->
          ls !! j = Some (addr, o') -> virtual o' = true
  | None => forall (j : nat) o', ls !! j = Some (addr, o') -> virtual o' = true
  end.
Proof.
  destruct (add_lines_inv ls t sub) as (Hlines & _ & _ & Hmap).
  split; [exact Hlines|]. apply Hmap.
Qed.

(** ** Units at the end of an area, and areas of other bounds *)

(** X27.  A unit that reaches the last byte of its area has no size: when
    [addr] holds [CODE], [DATA] or [STR] and every byte behind it up to the
    end of the area holds the matching continuation flag, [get_unit_size]
    runs off the flag buffer and raises [IndexError]. *)
Theorem get_unit_size_at_area_end s addr ai a h :
  non_overlapping (area_list s) -> area_list s !! ai = Some a -> wf_area a ->
  START a <= addr <= END a ->
  FLAGS a !! Z.to_nat (addr - START a) = Some h ->
  h = CODE \/ h = DATA \/ h = STR ->
  (forall b, addr < b <= END a ->
             FLAGS a !! Z.to_nat (b - START a) = Some (cont_of h)) ->
  (get_unit_size addr s).1 = Raise IndexError.
Proof.
  intros Hno Hai [_ Hwf] Hin Hh Hcase Hrun. unfold get_unit_size.
  destruct (addr2area_in s addr ai a Hno Hai) as (s2 & Hr & Hal & _).
  { apply in_area_iff. lia. }
  rewrite (bind_ok _ _ _ _ _ Hr).
  rewrite (bind_ok _ _ _ _ _ (deref_some s2 _ ai a ltac:(now rewrite Hal))).
  rewrite (bind_ok _ _ _ _ _
             (lift_ok _ _ s2 (py_index_ok (FLAGS a) (addr - START a) h
                                ltac:(lia) Hh))).
  assert (Hover : forall f, f = cont_of h ->
            scan_flags (FLAGS a) f (addr - START a + 1) 1 = Raise IndexError).
  { intros f ->. unfold scan_flags.
    apply (while_flag_overrun (Z.to_nat (END a - addr))); [lia| |lia].
    intros i Hi.
    replace (addr - START a + 1 + Z.of_nat i)
      with ((addr + 1 + Z.of_nat i) - START a) by lia.
    apply Hrun. lia. }
  destruct Hcase as [->|[->| ->]]; cbn [Z.eqb CODE DATA STR Pos.eqb orb];
    unfold lift; cbn [fst]; now rewrite Hover.
Qed.

Lemma get_unit_size_at_area_end_witness :
  (get_unit_size 2 (make_data 2 2 AS_0_3).2).1 = Raise IndexError.
Proof.
  apply (get_unit_size_at_area_end (make_data 2 2 AS_0_3).2 2 0
           (mk_area 0 3 EmptyString [0; 0; 0; 0] [0; 0; DATA; DATA_CONT]) DATA).
  - intros [|i] [|j] a b addr Hi Hj; simpl in *; try discriminate; auto.
  - reflexivity.
  - split; reflexivity.
  - simpl; lia.
  - reflexivity.
  - auto.
  - intros b Hb. simpl in Hb. assert (b = 3) as -> by lia. reflexivity.
Defined.

(** X28.  [load_areas] checks the bounds before it stores a flag: a file
    saved from an address space whose first area has other bounds than the
    first area of the one being loaded fails the assertion, and the address
    space being loaded is left as it was. *)
Theorem load_areas_other_bounds s s0 a rest b rest0 :
  area_list s = a :: rest -> area_list s0 = b :: rest0 ->
  START b <> START a \/ END b <> END a ->
  load_areas (save_areas s) s0 = (Raise AssertionError, s0).
Proof.
  intros Hs Hs0 Hne. unfold load_areas, save_areas.
  rewrite (bind_ok _ _ _ _ _ (eq_refl : get s0 = (Ok s0, s0))).
  rewrite Hs, Hs0. cbn [map writes foldr]. fold (writes (map save_area rest)).
  unfold save_area at 1. rewrite !append_assoc.
  rewrite readlines_line2 by (apply word_no_LF, fmt_08x_word).
  cbn [load_areas_from].
  rewrite (bind_ok _ _ _ _ _ (lift_ok _ _ s0 (int_16_bounds a))).
  assert (E : check_bounds b [START a; END a] = Raise AssertionError).
  { unfold check_bounds.
    change (py_index [START a; END a] 0) with (Ok (START a)).
    change (py_index [START a; END a] 1) with (Ok (END a)). cbv beta iota.
    destruct (Z.eqb_spec (START b) (START a)); [|reflexivity].
    destruct (Z.eqb_spec (END b) (END a)); [|reflexivity]. lia. }
  unfold mbind, M_bind, bind, lift. now rewrite E.
Qed.

Lemma load_areas_other_bounds_witness :
  load_areas (save_areas AS_0_3) AS_0_4 = (Raise AssertionError, AS_0_4).
Proof.
  apply (load_areas_other_bounds AS_0_3 AS_0_4
           (mk_area 0 3 EmptyString [0; 0; 0; 0] [0; 0; 0; 0]) []
           (mk_area 0 4 EmptyString [0; 0; 0; 0; 0] [0; 0; 0; 0; 0]) []).
  - reflexivity.
  - reflexivity.
  - right. simpl. lia.
Defined.

(** ** Undefining a unit, and resolving a unique label *)

(** X29.  [undefine_unit] undoes [make_code] and [make_data] on undefined
    bytes: when the flags of [addr .. addr + n - 1] are [UNK] and no
    continuation flag stands at [addr + n], making the unit and then
    undefining the unit at [addr] returns and leaves every area, flag and
    table as it was. *)
Theorem undefine_unit_undoes s addr n ai a :
  non_overlapping (area_list s) -> area_list s !! ai = Some a -> wf_area a ->
  Forall is_byte (FLAGS a) ->
  1 <= n -> START a <= addr -> addr + n <= END a ->
  (forall b, addr <= b < addr + n ->
             FLAGS a !! Z.to_nat (b - START a) = Some UNK) ->
  FLAGS a !! Z.to_nat (addr + n - START a) <> Some CODE_CONT ->
  FLAGS a !! Z.to_nat (addr + n - START a) <> Some DATA_CONT ->
  exists sc sd,
    (make_code addr n;; undefine_unit addr) s = (Ok tt, sc) /\
    (make_data addr n;; undefine_unit addr) s = (Ok tt, sd) /\
    same_but_cache s sc /\ same_but_cache s sd.
Proof.
  intros Hno Hai Hwf Hbytes Hn Hlo Hhi Hunk Hnc Hnd.
  assert (Hgen : forall h, h = CODE \/ h = DATA ->
    exists s3,
      ((addr2area addr ≫= fun r => deref r ≫= fun '(off, ai, _) =>
          or_flag ai off h;;
          or_flags_loop (Z.to_nat (n - 1)) ai off 0 (cont_of h));;
       undefine_unit addr) s = (Ok tt, s3) /\ same_but_cache s s3).
  { intros h Hh.
    assert (Hhb : 0 <= h < 256) by (destruct Hh as [-> | ->]; vm_compute; split; congruence).
    assert (Hcb : 0 <= cont_of h < 256)
      by (destruct Hh as [-> | ->]; vm_compute; split; congruence).
    assert (Hnext : FLAGS a !! Z.to_nat (addr + n - START a) <> Some (cont_of h))
      by (destruct Hh as [-> | ->]; assumption).
    destruct (or_writer_ok s addr n ai a h (cont_of h) Hno Hai Hwf Hbytes Hhb Hcb
                Hn Hlo ltac:(lia))
      as (s1 & a1 & Hrun & Hfr1 & Hno1 & Hai1 & HS & HE & Hlen & Hfl1).
    rewrite (bind_ok _ _ _ _ _ Hrun).
    pose proof (frame_wf_area _ _ _ _ _ _ _ Hfr1 Hai Hai1 Hwf) as Hwf1.
    destruct (get_unit_size_run s1 addr n ai a1 h Hno1 Hai1 Hwf1 Hn
                ltac:(lia) ltac:(lia) ltac:(tauto))
      as (s2 & Hsz & Hsame).
    { rewrite HS, Hfl1, decide_True by lia. rewrite (Hunk addr) by lia.
      destruct Hh as [-> | ->]; reflexivity. }
    { intros b Hb. rewrite HS, Hfl1, decide_False by lia.
      rewrite decide_True by lia. rewrite Hunk by lia.
      destruct Hh as [-> | ->]; reflexivity. }
    { rewrite HS, Hfl1, decide_False by lia. rewrite decide_False by lia.
      exact Hnext. }
    unfold undefine_unit. rewrite (bind_ok _ _ _ _ _ Hsz).
    pose proof Hsame as (Hal2 & _).
    destruct (set_flags_ok s2 addr n ai a1 UNK UNK ltac:(now rewrite Hal2)
                ltac:(now rewrite Hal2) Hwf1
                ltac:(unfold UNK; lia) ltac:(unfold UNK; lia) Hn
                ltac:(lia) ltac:(lia))
      as (s3 & a3 & Hrun3 & Hfr3 & Hai3 & Hfl3).
    exists s3. split; [exact Hrun3|]. rewrite HS in Hfr3.
    apply (frame_same_flags ai (addr - START a) (addr - START a + n)).
    { eapply frame_trans; [exact Hfr1|].
      eapply frame_trans; [apply frame_same_but_cache, Hsame|exact Hfr3]. }
    intros b b' Hb Hb'.
    replace b with a by congruence. replace b' with a3 by congruence.
    apply list_eq. intros k. rewrite Hfl3, HS.
    pose proof Hfr1 as (_ & _ & _ & _ & _ & Hareas).
    destruct (Hareas ai a Hai) as (a'' & Hai'' & _ & _ & _ & _ & _ & _ & Hout).
    replace a'' with a1 in * by congruence.
    destruct (decide (Z.of_nat k = addr - START a)) as [E|E].
    - replace k with (Z.to_nat (addr - START a)) by lia.
      symmetry. apply Hunk. lia.
    - destruct (decide (addr - START a < Z.of_nat k < addr - START a + n)).
      + replace k with (Z.to_nat ((START a + Z.of_nat k) - START a)) by lia.
        symmetry. apply Hunk. lia.
      + apply Hout. lia. }
  destruct (Hgen CODE ltac:(now left)) as (sc & Hc & Hsc).
  destruct (Hgen DATA ltac:(now right)) as (sd & Hd & Hsd).
  exists sc, sd. auto.
Qed.

Lemma undefine_unit_undoes_witness :
  exists sc sd,
    (make_code 1 2;; undefine_unit 1) AS_0_3 = (Ok tt, sc) /\
    (make_data 1 2;; undefine_unit 1) AS_0_3 = (Ok tt, sd) /\
    same_but_cache AS_0_3 sc /\ same_but_cache AS_0_3 sd.
Proof.
  apply (undefine_unit_undoes AS_0_3 1 2 0
           (mk_area 0 3 EmptyString [0; 0; 0; 0] [0; 0; 0; 0])).
  - intros [|i] [|j] a b addr Hi Hj; simpl in *; try discriminate; auto.
  - reflexivity.
  - split; reflexivity.
  - repeat (apply List.Forall_cons || apply List.Forall_nil); unfold is_byte; lia.
  - lia.
  - simpl; lia.
  - simpl; lia.
  - intros b Hb. simpl.
    assert (b = 1 \/ b = 2) as [-> | ->] by lia; reflexivity.
  - simpl. discriminate.
  - simpl. discriminate.
Defined.

Lemma get_flags_inv s n fl s' :
  non_overlapping (area_list s) -> get_flags n s = (Ok fl, s') ->
  flags_at (area_list s) n = Some fl /\ same_but_cache s s'.
Proof.
  intros Hno. unfold get_flags, flags_at.
  destruct (addr2area_sound s n) as (r & s1 & Hrun & Hsame & Hr).
  rewrite (bind_ok _ _ _ _ _ Hrun). pose proof Hsame as (Hal & _).
  destruct r as [[off i]|]; [|discriminate].
  destruct Hr as (a & Hi & Ha & -> & _).
  rewrite (linear_scan_unique _ _ i a Hno Hi Ha).
  rewrite (bind_ok _ _ _ _ _ (deref_some s1 _ i a ltac:(now rewrite Hal))).
  unfold lift, py_index. apply in_area_iff in Ha.
  destruct (Z.ltb_spec (n - START a) 0); [lia|].
  destruct (Z.ltb_spec (n - START a) 0); [lia|].
  destruct (FLAGS a !! Z.to_nat (n - START a)); [|discriminate].
  intros [= -> <-]. auto.
Qed.

Lemma get_default_label_inv s ea n d s' :
  non_overlapping (area_list s) -> get_default_label n s = (Ok d, s') ->
  label_text (area_list s) (ea, LInt n) = Some d /\ same_but_cache s s'.
Proof.
  intros Hno H. unfold get_default_label, get_default_label_prefix in H.
  apply bind_inv in H as (p & s1 & H & H1).
  apply bind_inv in H as (fl & s2 & H & H2).
  apply mret_inv in H1 as [E1 E1']. apply mret_inv in H2 as [E2 E2']. subst.
  apply (get_flags_inv _ _ _ _ Hno) in H as [Hfl Hsame].
  split; [|exact Hsame]. unfold label_text. cbn [snd]. now rewrite Hfl.
Qed.

(** [label_strings] computes the text of every entry, and changes the
    cache only. *)
Lemma label_strings_texts (items : list (Z * label)) : forall s xs s',
  non_overlapping (area_list s) ->
  label_strings items s = (Ok xs, s') ->
  same_but_cache s s' /\
  Forall2 (fun e x => label_text (area_list s) e = Some x) items xs.
Proof.
  induction items as [|[ea [n|x]] items IH]; intros s xs s' Hno H;
    cbn [label_strings] in H.
  - apply mret_inv in H as [E E']. subst.
    split; [apply same_but_cache_refl|constructor].
  - apply bind_inv in H as (d & s1 & Hd & H).
    apply bind_inv in H as (xs' & s2 & Hxs & H).
    apply mret_inv in H as [E E']. subst.
    apply (get_default_label_inv _ ea _ _ _ Hno) in Hd as [Hd Hs1].
    pose proof Hs1 as (Hal1 & _).
    apply IH in Hxs as [Hs2 Hall]; [|now rewrite Hal1].
    split; [eapply same_but_cache_trans; eauto|].
    constructor; [exact Hd|]. now rewrite Hal1 in Hall.
  - apply bind_inv in H as (xs' & s2 & Hxs & H).
    apply mret_inv in H as [E E']. subst.
    apply IH in Hxs as [Hs2 Hall]; [|exact Hno].
    split; [exact Hs2|]. constructor; [reflexivity|exact Hall].
Qed.

Lemma dict_set_lookup {V} k (v : V) d :
  exists i : nat,
    dict_set k v d !! i = Some (k, v) /\
    forall (j : nat) e, (j < i)%nat -> dict_set k v d !! j = Some e ->
                        d !! j = Some e.
Proof.
  induction d as [|[k' v'] d (i & Hi & Hlt)]; cbn [dict_set].
  - exists 0%nat. split; [reflexivity|]. intros; lia.
  - destruct (Z.eqb_spec k' k) as [->|Hne].
    + exists 0%nat. split; [reflexivity|]. intros; lia.
    + exists (S i). split; [exact Hi|].
      intros [|j] e Hj He; [exact He|]. apply (Hlt j); [lia|exact He].
Qed.

Lemma dict_set_elem {V} k (v : V) d e :
  e ∈ dict_set k v d -> e = (k, v) \/ e ∈ d.
Proof.
  induction d as [|[k' v'] d IH]; cbn [dict_set].
  - intros H. apply list_elem_of_singleton in H. now left.
  - destruct (Z.eqb_spec k' k) as [->|Hne]; intros H;
      apply elem_of_cons in H as [->|H].
    + now left.
    + right. now right.
    + right. now left.
    + destruct (IH H); [now left|right; now right].
Qed.

(** X30.  The label that [make_unique_label] returns leads back to its
    address: with non-overlapping areas, when the label set can be
    computed and the loop is given as many rounds as there are labels plus
    one, [resolve_label] of the returned label answers [ea]. *)
Theorem resolve_label_make_unique_label s s0 ea label (existing : gset string)
    (fuel : nat) :
  non_overlapping (area_list s) ->
  get_label_set s = (Ok existing, s0) -> (size existing < fuel)%nat ->
  exists l s1 s2,
    make_unique_label fuel ea label s = (Ok l, s1) /\
    resolve_label l s1 = (Ok (Some ea), s2).
Proof.
  intros Hno Hset Hfuel. unfold make_unique_label.
  rewrite (bind_ok _ _ _ _ _ Hset).
  destruct (make_unique_label_loop_ok ea label existing fuel 0 s0 ltac:(lia))
    as (k & _ & Hfree & _ & Hrun); [intros; lia|lia|].
  set (l := unique_candidate label k) in *.
  unfold get_label_set in Hset.
  apply bind_inv in Hset as (s' & s1 & Hget & Hset).
  apply mret_inv in Hget as [E E']. subst s' s1.
  apply bind_inv in Hset as (xs & s1 & Hxs & Hset).
  apply mret_inv in Hset as [E E']. subst existing s1.
  apply label_strings_texts in Hxs as [(Hal & Hlab & _) Htexts]; [|exact Hno].
  destruct (dict_set_lookup ea (LStr l) (labels s)) as (i & Hi & Hbefore).
  set (s1 := set_labels (dict_set ea (LStr l)) s0) in *.
  assert (Hlab1 : labels s1 = dict_set ea (LStr l) (labels s))
    by (unfold s1; cbn [labels set_labels]; now rewrite Hlab).
  assert (Hal1 : area_list s1 = area_list s) by exact Hal.
  destruct (resolve_label_loop_first (labels s1) s1 l i (ea, LStr l))
    as (s2 & Hres & _).
  - now rewrite Hal1.
  - intros ea' n Hin. rewrite Hlab1 in Hin.
    apply dict_set_elem in Hin as [[=]|Hin]. rewrite Hal1.
    apply list_elem_of_lookup in Hin as [j Hj].
    destruct (Forall2_lookup_l _ _ _ _ _ Htexts Hj) as (x & _ & Hx).
    unfold label_text in Hx. cbn [snd] in Hx.
    destruct (flags_at (area_list s) n); [eauto|discriminate].
  - now rewrite Hlab1.
  - reflexivity.
  - intros j e' Hj He' Ht. rewrite Hlab1 in He'.
    apply (Hbefore j e' Hj) in He'. rewrite Hal1 in Ht.
    destruct (Forall2_lookup_l _ _ _ _ _ Htexts He') as (x & Hx & Hx').
    apply Hfree. apply elem_of_list_to_set.
    replace l with x by congruence. eapply list_elem_of_lookup_2; eauto.
  - exists l, s1, s2. split; [exact Hrun|].
    unfold resolve_label.
    now rewrite (bind_ok _ _ _ _ _ (eq_refl : get s1 = (Ok s1, s1))).
Qed.

Lemma resolve_label_make_unique_label_witness :
  exists l s1 s2,
    make_unique_label 3 2 "foo" AS_labels = (Ok l, s1) /\
    resolve_label l s1 = (Ok (Some 2), s2).
Proof.
  apply (resolve_label_make_unique_label AS_labels (get_label_set AS_labels).2
           2 "foo" (list_to_set ["unk_00000001"; "foo"]) 3).
  - intros [|i] [|j] a b addr Hi Hj; simpl in *; try discriminate; auto.
  - reflexivity.
  - vm_compute. lia.
Defined.
